(** * skweak.analysis — the label analysis engine [LFAnalysis]

    A shallow embedding of [src/skweak/analysis.py].  The engine is built from
    a corpus of annotated documents, a label vocabulary and an optional list
    of sources (labelling functions).  It stores an integer matrix [L] with
    one row per token and one column per source and derives coverage, overlap
    and conflict statistics from it.

    Conventions of the embedding:
    - a numpy 2-D integer array is a column count together with its list of
      rows; entries are [Z];
    - the scipy CSR matrix [_L_sparse] holds the same entries as [L]; every
      sparse reduction is written by its value on those entries;
    - a Python [dict] is an association list in insertion order with unique
      keys; a Python [set] of strings is iterated in an order chosen by the
      interpreter (see [Interp]);
    - a raised exception is the [Raise] branch of [result];
    - a float cell produced by a numpy division is an exact rational, or one
      of the special values [NaN], [PosInf], [NegInf]. *)

From Stdlib Require Import List ZArith String Ascii Bool Lia Permutation.
From Stdlib Require Import QArith ListSet Sorted.
Import ListNotations.

Local Open Scope string_scope.
Local Open Scope Z_scope.
Local Open Scope list_scope.

(* ------------------------------------------------------------------ *)
(** ** Exceptions *)

Inductive exn : Type :=
| ValueError
| IndexError
| KeyError
| NotImplementedError.

Inductive result (A : Type) : Type :=
| Ok (a : A)
| Raise (e : exn).

Arguments Ok {A} a.
Arguments Raise {A} e.

Definition bind {A B : Type} (c : result A) (k : A -> result B) : result B :=
  match c with
  | Ok a => k a
  | Raise e => Raise e
  end.

Notation "x <- c ;; k" := (bind c (fun x => k))
  (at level 61, c at next level, right associativity).

(** A list comprehension whose body may raise: elements are evaluated left
    to right and the first exception escapes. *)
Fixpoint mapM {A B : Type} (f : A -> result B) (xs : list A) : result (list B) :=
  match xs with
  | [] => Ok []
  | x :: xs' => y <- f x ;; ys <- mapM f xs' ;; Ok (y :: ys)
  end.

(* ------------------------------------------------------------------ *)
(** ** Python containers *)

(** [dict]: insertion-ordered association list, keys unique. *)
Definition dict (V : Type) : Type := list (string * V).

Fixpoint dict_get {V : Type} (d : dict V) (k : string) : option V :=
  match d with
  | [] => None
  | (k', v) :: d' => if String.eqb k' k then Some v else dict_get d' k
  end.

Definition dict_mem {V : Type} (d : dict V) (k : string) : bool :=
  match dict_get d k with Some _ => true | None => false end.

(** [d[k] = v]: overwrite in place when the key exists, append otherwise. *)
Fixpoint dict_set {V : Type} (d : dict V) (k : string) (v : V) : dict V :=
  match d with
  | [] => [(k, v)]
  | (k', v') :: d' =>
      if String.eqb k' k then (k', v) :: d' else (k', v') :: dict_set d' k v
  end.

Definition dict_keys {V : Type} (d : dict V) : list string := map fst d.

(** [x in l] for a list of strings. *)
Definition list_mem (x : string) (l : list string) : bool :=
  existsb (String.eqb x) l.

(** [l.remove(x)]: delete the first occurrence only.  (Python raises when
    there is none; the engine calls it only after a membership test.) *)
Fixpoint list_remove (x : string) (l : list string) : list string :=
  match l with
  | [] => []
  | y :: l' => if String.eqb y x then l' else y :: list_remove x l'
  end.

(** [enumerate]. *)
Fixpoint enumerate_from {A : Type} (n : nat) (l : list A) : list (nat * A) :=
  match l with
  | [] => []
  | x :: l' => (n, x) :: enumerate_from (S n) l'
  end.

Definition enumerate {A : Type} (l : list A) : list (nat * A) :=
  enumerate_from 0 l.

Fixpoint zip_with {A B C : Type} (f : A -> B -> C)
         (xs : list A) (ys : list B) : list C :=
  match xs, ys with
  | x :: xs', y :: ys' => f x y :: zip_with f xs' ys'
  | _, _ => []
  end.

(** The interpreter fixes the order in which a [set] of strings is iterated
    (CPython walks the hash table, and string hashes are randomised per
    process).  The language promises only that every element is produced
    once. *)
Record Interp : Type := mk_Interp {
  set_iter : list string -> list string;
  set_iter_perm :
    forall l, Permutation (set_iter l) (nodup string_dec l)
}.

(* ------------------------------------------------------------------ *)
(** ** numpy arrays *)

(** A 2-D integer array of shape [(length data, shape1)]. *)
Record ndarray : Type := mk_ndarray {
  shape1 : nat;
  data : list (list Z)
}.

Definition shape0 (a : ndarray) : nat := List.length (data a).
Definition size (a : ndarray) : nat := (shape0 a * shape1 a)%nat.

(** Every row has [shape1] entries. *)
Definition rectangular (a : ndarray) : bool :=
  forallb (fun r => Nat.eqb (List.length r) (shape1 a)) (data a).

(** [a.ravel()]: row-major flattening. *)
Definition ravel (a : ndarray) : list Z := List.concat (data a).

(** [np.concatenate(blocks)] along axis 0: at least one block is needed and
    all blocks must agree on the number of columns. *)
Definition np_concatenate (blocks : list ndarray) : result ndarray :=
  match blocks with
  | [] => Raise ValueError
  | b :: bs =>
      if forallb (fun b' => Nat.eqb (shape1 b') (shape1 b)) bs
      then Ok (mk_ndarray (shape1 b) (List.concat (map data blocks)))
      else Raise ValueError
  end.

Definition list_max (l : list Z) : Z :=
  match l with
  | [] => 0
  | x :: l' => fold_left Z.max l' x
  end.

(** [a.max()]: rejected on a zero-size array. *)
Definition np_max (a : ndarray) : result Z :=
  match ravel a with
  | [] => Raise ValueError
  | _ => Ok (list_max (ravel a))
  end.

Definition bool_to_Z (b : bool) : Z := if b then 1 else 0.

Definition column (j : nat) (rows : list (list Z)) : list Z :=
  map (fun r => nth j r 0) rows.

Definition sum_Z (l : list Z) : Z := fold_right Z.add 0 l.

(** Float cells. *)
Inductive cell : Type :=
| Fin (q : Q)
| NaN
| PosInf
| NegInf.

(** True division of two integer counts as numpy performs it: a zero
    divisor gives [nan] for [0/0] and a signed infinity otherwise (a warning,
    not an exception). *)
Definition np_divide (a b : Z) : cell :=
  if b =? 0 then
    if a =? 0 then NaN else if 0 <? a then PosInf else NegInf
  else Fin (Qred (Qmake (a * Z.sgn b) (Z.to_pos (Z.abs b)))).

(** Largest finite double, [(2 - 2^-52) * 2^1023]. *)
Definition float_max : Q := inject_Z (2 ^ 1024 - 2 ^ 971).

(** [np.nan_to_num]: [nan] becomes 0, infinities become the largest finite
    values. *)
Definition np_nan_to_num (c : cell) : cell :=
  match c with
  | Fin q => Fin q
  | NaN => Fin 0
  | PosInf => Fin float_max
  | NegInf => Fin (Qopp float_max)
  end.

(* ------------------------------------------------------------------ *)
(** ** Documents *)

(** What the engine reads of a spaCy [Doc]: its token count and the mapping
    from source name to labelled spans. *)
Record Span : Type := mk_Span {
  span_start : nat;
  span_end : nat;
  label_ : string
}.

Record Doc : Type := mk_Doc {
  doc_len : nat;
  spans : dict (list Span)
}.

(* ------------------------------------------------------------------ *)
(** ** Results of the public metrics *)

(** A pandas table: row keys, column names and one list of cells per row.
    A table built without an explicit index is keyed by position. *)
Inductive index_key : Type :=
| Label (s : string)
| Pos (n : nat).

Record DataFrame : Type := mk_DataFrame {
  df_index : list index_key;
  df_columns : list string;
  df_values : list (list cell)
}.

(** pandas rejects a row whose width differs from the number of columns. *)
Definition pandas_DataFrame (values : list (list cell))
           (index : list index_key) (columns : list string) : result DataFrame :=
  if forallb (fun r => Nat.eqb (List.length r) (List.length columns)) values
  then Ok (mk_DataFrame index columns values)
  else Raise ValueError.

(** [DataFrame.from_dict(result, orient='index', columns=...)]. *)
Definition DataFrame_from_dict (d : dict (list cell)) (columns : list string)
  : result DataFrame :=
  pandas_DataFrame (map snd d) (map Label (dict_keys d)) columns.

(** The row keys of a per-label table. *)
Definition row_labels (df : DataFrame) : list string :=
  flat_map (fun k => match k with Label s => [s] | Pos _ => [] end)
           (df_index df).

(* ------------------------------------------------------------------ *)
(** ** The engine *)

Record LFAnalysis : Type := mk_LFAnalysis {
  corpus : list Doc;
  sources : list string;
  sources2idx : dict nat;
  strict_match : bool;
  labels : list string;
  label2idx : dict nat;
  prefixes : set string;
  labels_without_prefix : set string;
  L : ndarray;
  _L_sparse : ndarray;
  label_row_indices : list (list nat)
}.

(** [sparse.csr_matrix(L)]: same shape, same entries. *)
Definition csr_matrix (a : ndarray) : ndarray := a.

(* ------------------------------------------------------------------ *)
(** ** Initialization helpers *)

(** [label.split("-", 1)]: [None] when the label has no dash. *)
Fixpoint split_dash (s : string) : option (string * string) :=
  match s with
  | EmptyString => None
  | String c s' =>
      if Ascii.eqb c "-"%char then Some (EmptyString, s')
      else match split_dash s' with
           | Some (p, b) => Some (String c p, b)
           | None => None
           end
  end.

(** Modelled from the spec: [utils._index_labels] is not part of the source
    given here.  Section 4.1 of the specification describes it: the labels
    are indexed in the order they are listed, a label seen before keeps its
    index, indices are contiguous from 0; when prefixes are stripped the
    base name after the first dash is indexed instead of the full string.
    It also returns the set of prefixes seen and the set of base names. *)
Definition _index_labels (original_labels : list string) (strip_prefixes : bool)
  : dict nat * set string * set string :=
  fold_left
    (fun (acc : dict nat * set string * set string) (label : string) =>
       let '(label2idx, prefixes, labels_without_prefix) := acc in
       let '(prefixes', base) :=
         match split_dash label with
         | Some (p, b) => (set_add string_dec p prefixes, b)
         | None => (prefixes, label)
         end in
       let key := if strip_prefixes then base else label in
       ((if dict_mem label2idx key then label2idx
         else label2idx ++ [(key, List.length label2idx)]),
        prefixes',
        set_add string_dec base labels_without_prefix))
    original_labels ([], [], []).

(** [_get_token_level_labels].  The argument list is a caller's object and
    is updated in place; the first component of the result is that object's
    content when the method returns. *)
Definition _get_token_level_labels (strict_match : bool)
           (original_labels : list string)
  : list string * (list string * dict nat * set string * set string) :=
  let original_labels :=
    if negb (list_mem "O" original_labels) then
      "O" :: original_labels                       (* insert(0, 'O') *)
    else
      match original_labels with
      | x :: _ =>
          if negb (String.eqb x "O") then
            "O" :: list_remove "O" original_labels (* remove, insert(0, 'O') *)
          else original_labels
      | [] => original_labels                      (* 'O' is a member *)
      end in
  let '(label2idx, prefixes, labels_without_prefix) :=
    _index_labels original_labels (negb strict_match) in
  let labels := dict_keys label2idx in
  (original_labels, (labels, label2idx, prefixes, labels_without_prefix)).

(** [_get_corpus_sources]: both branches go through a [set]. *)
Definition _get_corpus_sources (I : Interp) (corpus : list Doc)
           (sources : option (list string)) : list string * dict nat :=
  let result_sources :=
    match sources with
    | None =>
        set_iter I (flat_map (fun doc => dict_keys (spans doc)) corpus)
    | Some sources => set_iter I sources
    end in
  (result_sources,
   fold_left (fun d (p : nat * string) => dict_set d (snd p) (fst p))
             (enumerate result_sources) []).

(** [np.unique] on row numbers: sorted, without repetition. *)
Fixpoint insert_uniq (x : nat) (l : list nat) : list nat :=
  match l with
  | [] => [x]
  | y :: l' =>
      if Nat.ltb x y then x :: l
      else if Nat.eqb x y then l
      else y :: insert_uniq x l'
  end.

Definition np_unique (l : list nat) : list nat := fold_right insert_uniq [] l.

(** [sorted(list(set(xs)))] on integers. *)
Fixpoint insert_uniq_Z (x : Z) (l : list Z) : list Z :=
  match l with
  | [] => [x]
  | y :: l' =>
      if x <? y then x :: l
      else if x =? y then l
      else y :: insert_uniq_Z x l'
  end.

Definition sorted_set (l : list Z) : list Z := fold_right insert_uniq_Z [] l.

(** [sparse.csr_matrix((data, (row, col)), shape=(nrows, ncols))], read
    through the [.data] array of each of its rows.  An entry outside the
    shape is rejected.  Entries are stored whatever their value (an entry
    whose data is 0 is stored too) and each row keeps them in column order;
    the engine passes the same increasing array as [data] and as [col]. *)
Definition csr_from_coo (data : list nat) (row : list Z) (col : list nat)
           (nrows : Z) (ncols : nat) : result (list (list nat)) :=
  if forallb (fun r => (0 <=? r) && (r <? nrows)) row
     && forallb (fun c => Nat.ltb c ncols) col
  then Ok (map (fun v =>
                  map fst (filter (fun p => snd p =? Z.of_nat v)
                                  (combine data row)))
               (seq 0 (Z.to_nat nrows)))
  else Raise ValueError.

(** [np.unravel_index(k, shape)]. *)
Definition unravel_index (k : nat) (shape : nat * nat) : result (nat * nat) :=
  if Nat.ltb k (fst shape * snd shape)
  then Ok (Nat.div k (snd shape), Nat.modulo k (snd shape))
  else Raise ValueError.

(** [_get_row_indices_with_labels]: an inverted index from label value to
    the rows in which it occurs, over the flattened matrix. *)
Definition _get_row_indices_with_labels (L : ndarray)
  : result (list (list nat)) :=
  let cols := seq 0 (size L) in
  mx <- np_max L ;;
  m <- csr_from_coo cols (ravel L) cols (mx + 1) (size L) ;;
  mapM (fun row_data =>
          idx <- mapM (fun k => unravel_index k (shape0 L, shape1 L))
                      row_data ;;
          Ok (np_unique (map fst idx)))
       m.

Section Builder.

(** [utils._spans_to_array] is not part of the source given here; the engine
    only passes its arguments through and stacks what it returns. *)
Variable _spans_to_array :
  Doc -> list string -> dict nat -> set string -> option (set string) ->
  result ndarray.

Definition _corpus_to_token_array (corpus : list Doc) (sources : list string)
           (label2idx : dict nat) (labels_without_prefix prefixes : set string)
           (strict_match : bool) : result ndarray :=
  blocks <- mapM (fun doc =>
              _spans_to_array doc sources label2idx labels_without_prefix
                (if strict_match then Some prefixes else None)) corpus ;;
  np_concatenate blocks.

(** [LFAnalysis.__init__].  The two list arguments are the caller's objects:
    the first component of the result is their content once the constructor
    has returned or raised, the second is the engine or the exception. *)
Definition __init__ (I : Interp) (corpus : list Doc) (labels : list string)
           (sources : option (list string)) (strict_match : bool)
  : (list Doc * list string) * result LFAnalysis :=
  let '(sources', sources2idx) := _get_corpus_sources I corpus sources in
  let '(labels_arg, (labels', label2idx, prefixes, labels_without_prefix)) :=
    _get_token_level_labels strict_match labels in
  ((corpus, labels_arg),
   L <- _corpus_to_token_array corpus sources' label2idx
          labels_without_prefix prefixes strict_match ;;
   label_row_indices <- _get_row_indices_with_labels L ;;
   Ok (mk_LFAnalysis corpus sources' sources2idx strict_match labels'
         label2idx prefixes labels_without_prefix L (csr_matrix L)
         label_row_indices)).

End Builder.

(* ------------------------------------------------------------------ *)
(** ** Analysis helpers *)

(** Elementwise comparison with a scalar, as a 0/1 matrix. *)
Definition ne_scalar (a : list (list Z)) (c : Z) : list (list Z) :=
  map (map (fun x => bool_to_Z (negb (x =? c)))) a.

Definition eq_scalar (a : list (list Z)) (c : Z) : list (list Z) :=
  map (map (fun x => bool_to_Z (x =? c))) a.

(** Elementwise [!=] of two matrices. *)
Definition ne_matrix (a b : list (list Z)) : list (list Z) :=
  zip_with (zip_with (fun x y => bool_to_Z (negb (x =? y)))) a b.

(** [sparse.diags(d) @ a]: row [i] of [a] scaled by [d[i]]. *)
Definition diags_matmul (d : list Z) (a : list (list Z)) : list (list Z) :=
  zip_with (fun di r => map (Z.mul di) r) d a.

Definition sum_axis1 (a : list (list Z)) : list Z := map sum_Z a.

Definition sum_axis0 (ncols : nat) (a : list (list Z)) : list Z :=
  map (fun j => sum_Z (column j a)) (seq 0 ncols).

(** [.max(axis=1)] of a sparse matrix: the maximum of each row over all its
    columns; a matrix without columns is rejected. *)
Definition max_axis1 (ncols : nat) (a : list (list Z)) : result (list Z) :=
  if Nat.eqb ncols 0 then Raise ValueError else Ok (map list_max a).

Definition _conflicted_data_points (self : LFAnalysis) : result (list Z) :=
  let Ls := _L_sparse self in
  mx <- max_axis1 (shape1 Ls) (data Ls) ;;
  let m := diags_matmul mx (ne_scalar (data Ls) 0) in
  max_axis1 (shape1 Ls) (ne_matrix m (data Ls)).

Definition _covered_data_points (self : LFAnalysis) : list Z :=
  map (fun s => if negb (s =? 0) then 1 else 0)
      (sum_axis1 (data (_L_sparse self))).

Definition _covered_by_label (self : LFAnalysis) (label_val : Z)
  : result (list Z) :=
  let Ls := _L_sparse self in
  max_axis1 (shape1 Ls) (eq_scalar (data Ls) label_val).

Definition _covered_by_label_counts (self : LFAnalysis) (label_val : Z)
  : list Z :=
  let Ls := _L_sparse self in
  sum_axis0 (shape1 Ls) (eq_scalar (data Ls) label_val).

Definition _overlapped_data_points (self : LFAnalysis) : list Z :=
  map (fun s => if 1 <? s then 1 else 0)
      (sum_axis1 (ne_scalar (data (_L_sparse self)) 0)).

(* ------------------------------------------------------------------ *)
(** ** Public metrics *)

(** [l[i]] *)
Definition list_getitem {A : Type} (l : list A) (i : nat) : result A :=
  match nth_error l i with
  | Some x => Ok x
  | None => Raise IndexError
  end.

(** [d[k]] *)
Definition dict_getitem {V : Type} (d : dict V) (k : string) : result V :=
  match dict_get d k with
  | Some v => Ok v
  | None => Raise KeyError
  end.

(** [a[i] = v] on an array *)
Fixpoint list_setitem {A : Type} (l : list A) (i : nat) (v : A)
  : result (list A) :=
  match l, i with
  | [], _ => Raise IndexError
  | _ :: l', O => Ok (v :: l')
  | x :: l', S i' => l'' <- list_setitem l' i' v ;; Ok (x :: l'')
  end.

(** A [for] loop whose body updates an accumulator and may raise. *)
Fixpoint foldM {A B : Type} (f : B -> A -> result B) (xs : list A) (b : B)
  : result B :=
  match xs with
  | [] => Ok b
  | x :: xs' => b' <- f b x ;; foldM f xs' b'
  end.

(** Fancy indexing [a[indices]]. *)
Definition take {A : Type} (a : list A) (indices : list nat)
  : result (list A) :=
  mapM (list_getitem a) indices.

(** [x.T @ v] for a matrix [x] with [ncols] columns. *)
Definition matT_vec (ncols : nat) (x : list (list Z)) (v : list Z) : list Z :=
  map (fun j => sum_Z (zip_with Z.mul (column j x) v)) (seq 0 ncols).

(** Elementwise division of two vectors, with numpy's broadcasting of a
    vector of length 1. *)
Definition np_divide_arrays (a b : list Z) : result (list cell) :=
  if Nat.eqb (List.length a) (List.length b) then Ok (zip_with np_divide a b)
  else match a, b with
       | [x], _ => Ok (map (np_divide x) b)
       | _, [y] => Ok (map (fun x => np_divide x y) a)
       | _, _ => Raise ValueError
       end.

(** The loop shared by the per-label tables:
<<
    for label_idx, indices in enumerate(self.label_row_indices):
        label = self.labels[label_idx]
        if label == 'O' or len(indices) == 0:
            continue
        result[label] = body
>> *)
Definition per_label_rows (self : LFAnalysis)
           (body : nat -> list nat -> result (list cell))
  : result (dict (list cell)) :=
  foldM (fun (result : dict (list cell)) (p : nat * list nat) =>
           let '(label_idx, indices) := p in
           label <- list_getitem (labels self) label_idx ;;
           if String.eqb label "O" || Nat.eqb (List.length indices) 0
           then Ok result
           else row <- body label_idx indices ;;
                Ok (dict_set result label row))
        (enumerate (label_row_indices self)) [].

Definition label_overlap (self : LFAnalysis) : result DataFrame :=
  let overlaps := _overlapped_data_points self in
  result <- per_label_rows self (fun label_idx indices =>
              sel <- take overlaps indices ;;
              Ok [np_divide (sum_Z sel) (Z.of_nat (List.length indices))]) ;;
  DataFrame_from_dict result ["overlap"].

Definition label_conflict (self : LFAnalysis) : result DataFrame :=
  conflicts <- _conflicted_data_points self ;;
  result <- per_label_rows self (fun label_idx indices =>
              sel <- take conflicts indices ;;
              Ok [np_divide (sum_Z sel) (Z.of_nat (List.length indices))]) ;;
  DataFrame_from_dict result ["conflict"].

(** The distinct nonzero values stored in each column, sorted. *)
Definition lf_target_labels (self : LFAnalysis) : result (dict (list Z)) :=
  let Ls := _L_sparse self in
  foldM (fun (d : dict (list Z)) (i : nat) =>
           src <- list_getitem (sources self) i ;;
           Ok (dict_set d src
                 (sorted_set (filter (fun x => negb (x =? 0))
                                     (column i (data Ls))))))
        (seq 0 (shape1 Ls)) [].

Definition lf_coverages (self : LFAnalysis) (agg : bool) : result DataFrame :=
  let Ls := _L_sparse self in
  if agg then
    let covered_token_counts :=
      sum_axis0 (shape1 Ls) (ne_scalar (data Ls) 0) in
    targets <- lf_target_labels self ;;
    total_token_counts <-
      foldM (fun (total : list Z) (p : string * list Z) =>
               let '(lf, lf_target_labels) := p in
               lf_idx <- dict_getitem (sources2idx self) lf ;;
               label_coverages <-
                 foldM (fun acc label_idx =>
                          c <- _covered_by_label self label_idx ;;
                          Ok (zip_with Z.add acc c))
                       lf_target_labels (repeat 0 (shape0 (L self))) ;;
               let union_label_coverages :=
                 map (fun x => bool_to_Z (1 <=? x)) label_coverages in
               list_setitem total lf_idx (sum_Z union_label_coverages))
            targets (repeat 0 (List.length (sources self))) ;;
    coverages <- np_divide_arrays covered_token_counts total_token_counts ;;
    pandas_DataFrame [coverages] [Pos 0] (sources self)
  else
    result <- per_label_rows self (fun label_idx indices =>
                let covered :=
                  _covered_by_label_counts self (Z.of_nat label_idx) in
                Ok (map (fun c => np_divide c (Z.of_nat (List.length indices)))
                        covered)) ;;
    DataFrame_from_dict result (sources self).

(** The two metrics that weight an indicator vector [z] by each source. *)
Definition lf_ratio_agg (self : LFAnalysis) (z : list Z) : result DataFrame :=
  let Ls := _L_sparse self in
  let L_sparse_indicator := ne_scalar (data Ls) 0 in
  let ratios :=
    map np_nan_to_num
        (zip_with np_divide
                  (matT_vec (shape1 Ls) L_sparse_indicator z)
                  (sum_axis0 (shape1 Ls) L_sparse_indicator)) in
  pandas_DataFrame [ratios] [Pos 0] (sources self).

Definition lf_ratio_label (self : LFAnalysis) (z : list Z)
           (label_idx : nat) (indices : list nat) : result (list cell) :=
  let Ls := _L_sparse self in
  rows <- take (data Ls) indices ;;
  let x := eq_scalar rows (Z.of_nat label_idx) in
  sel <- take z indices ;;
  Ok (map np_nan_to_num
          (zip_with np_divide (matT_vec (shape1 Ls) x sel)
                    (sum_axis0 (shape1 Ls) x))).

Definition lf_overlaps (self : LFAnalysis) (agg : bool) : result DataFrame :=
  if agg then lf_ratio_agg self (_overlapped_data_points self)
  else
    let overlaps := _overlapped_data_points self in
    result <- per_label_rows self (lf_ratio_label self overlaps) ;;
    DataFrame_from_dict result (sources self).

Definition lf_conflicts (self : LFAnalysis) (agg : bool) : result DataFrame :=
  if agg then
    conflicts <- _conflicted_data_points self ;;
    lf_ratio_agg self conflicts
  else
    conflicts <- _conflicted_data_points self ;;
    result <- per_label_rows self (lf_ratio_label self conflicts) ;;
    DataFrame_from_dict result (sources self).

Definition lf_empirical_accuracies (self : LFAnalysis) : result DataFrame :=
  Raise NotImplementedError.

(* ------------------------------------------------------------------ *)
(** ** Concrete collaborators used to run the engine *)

(** Modelled from the spec: [utils._spans_to_array] is not part of the source
    given here.  Section 4.3 of the specification describes the block of a
    document: one row per token, one column per source, the entry being the
    label index of the span of that source covering the token, and 0 when
    there is none.  With prefixes (strict matching) the span's label is looked
    up as written, without them its base name is looked up. *)
Definition spans_to_array_model (doc : Doc) (sources : list string)
           (label2idx : dict nat) (labels_without_prefix : set string)
           (prefixes : option (set string)) : result ndarray :=
  let entry (t : nat) (s : string) : Z :=
    match dict_get (spans doc) s with
    | None => 0
    | Some sps =>
        match find (fun sp => Nat.leb (span_start sp) t
                              && Nat.ltb t (span_end sp)) sps with
        | None => 0
        | Some sp =>
            let key :=
              match prefixes, split_dash (label_ sp) with
              | None, Some (_, base) => base
              | _, _ => label_ sp
              end in
            match dict_get label2idx key with
            | Some i => Z.of_nat i
            | None => 0
            end
        end
    end in
  Ok (mk_ndarray (List.length sources)
        (map (fun t => map (entry t) sources) (seq 0 (doc_len doc)))).

(** Sorting the elements of a set by the slot their hash selects. *)
Fixpoint insert_by (h : string -> nat) (x : string) (l : list string)
  : list string :=
  match l with
  | [] => [x]
  | y :: l' => if Nat.leb (h x) (h y) then x :: l else y :: insert_by h x l'
  end.

Definition sort_by (h : string -> nat) (l : list string) : list string :=
  fold_right (insert_by h) [] l.

(** A hash that looks at the first character only, reduced to the 8 slots of
    a small table. *)
Definition first_char_slot (s : string) : nat :=
  match s with
  | EmptyString => 0
  | String c _ => Nat.modulo (nat_of_ascii c) 8
  end.

Lemma insert_by_perm (h : string -> nat) (x : string) (l : list string) :
  Permutation (insert_by h x l) (x :: l).
Proof.
  induction l as [|y l IH]; simpl.
  - apply Permutation_refl.
  - destruct (Nat.leb (h x) (h y)).
    + apply Permutation_refl.
    + eapply perm_trans; [apply perm_skip, IH | apply perm_swap].
Qed.

Lemma sort_by_perm (h : string -> nat) (l : list string) :
  Permutation (sort_by h l) l.
Proof.
  induction l as [|x l IH]; simpl.
  - apply perm_nil.
  - eapply perm_trans; [apply insert_by_perm | apply perm_skip, IH].
Qed.

(** An interpreter that walks a set in slot order. *)
Definition slot_interp : Interp :=
  mk_Interp (fun l => sort_by first_char_slot (nodup string_dec l))
            (fun l => sort_by_perm first_char_slot (nodup string_dec l)).

(* ------------------------------------------------------------------ *)
(** ** What the constructor establishes *)

Definition entries_in_range (n : nat) (a : ndarray) : bool :=
  forallb (forallb (fun x => (0 <=? x) && (x <? Z.of_nat n))) (data a).

Definition same_array (a b : ndarray) : bool :=
  Nat.eqb (shape1 a) (shape1 b)
  && if list_eq_dec (list_eq_dec Z.eq_dec) (data a) (data b)
     then true else false.

Definition no_repeat (l : list string) : bool :=
  if list_eq_dec string_dec (nodup string_dec l) l then true else false.

(** The state of an engine that [__init__] returned: the matrix is a
    non-empty rectangle with one column per source, its entries index the
    label list, the sparse copy holds the same entries, the label list starts
    with ["O"] and has no repetition, and the row index is the one computed
    from the matrix. *)
Definition wf_engine (self : LFAnalysis) : bool :=
  rectangular (L self)
  && negb (Nat.eqb (size (L self)) 0)
  && entries_in_range (List.length (labels self)) (L self)
  && same_array (_L_sparse self) (L self)
  && Nat.eqb (shape1 (L self)) (List.length (sources self))
  && match labels self with
     | x :: _ => String.eqb x "O"
     | [] => false
     end
  && no_repeat (labels self)
  && match _get_row_indices_with_labels (L self) with
     | Ok l =>
         if list_eq_dec (list_eq_dec Nat.eq_dec) l (label_row_indices self)
         then true else false
     | Raise _ => false
     end.

(** Row-level readings used in the statements. *)
Definition nonzero_count (r : list Z) : nat :=
  List.length (filter (fun x => negb (x =? 0)) r).

Definition distinct_nonzero_pair (r : list Z) : Prop :=
  exists a b, In a r /\ In b r /\ a <> 0 /\ b <> 0 /\ a <> b.

(** What [_conflicted_data_points] computes on one row. *)
Definition row_conflict (r : list Z) : Z :=
  list_max
    (zip_with (fun x y => bool_to_Z (negb (x =? y)))
       (map (Z.mul (list_max r)) (map (fun x => bool_to_Z (negb (x =? 0))) r))
       r).

(* ------------------------------------------------------------------ *)
(** ** A small corpus *)

(** Three tokens; LF1 marks tokens 0 and 1 as PER, LF2 marks token 0 as ORG. *)
Definition doc_a : Doc :=
  mk_Doc 3 [("LF1", [mk_Span 0 2 "PER"]); ("LF2", [mk_Span 0 1 "ORG"])].

(** Two tokens; both sources mark token 0 as PER. *)
Definition doc_b : Doc :=
  mk_Doc 2 [("LF1", [mk_Span 0 1 "PER"]); ("LF2", [mk_Span 0 1 "PER"])].

Definition empty_engine : LFAnalysis :=
  mk_LFAnalysis [] [] [] false [] [] [] [] (mk_ndarray 0 []) (mk_ndarray 0 []) [].

Definition engine_of (r : (list Doc * list string) * result LFAnalysis)
  : LFAnalysis :=
  match snd r with
  | Ok e => e
  | Raise _ => empty_engine
  end.

(** The engine over [doc_a; doc_b] with labels O, PER, ORG, MISC. *)
Definition demo_engine : LFAnalysis :=
  Eval vm_compute in
    engine_of (__init__ spans_to_array_model slot_interp [doc_a; doc_b]
                 ["O"; "PER"; "ORG"; "MISC"] (Some ["LF1"; "LF2"]) false).

(* ------------------------------------------------------------------ *)
(** ** Vocabulary of the statements *)

(** The value that [_get_row_indices_with_labels] returns on a well-shaped
    non-empty matrix of non-negative entries. *)
Definition row_indices_of (a : ndarray) : list (list nat) :=
  map (fun v =>
         np_unique
           (map (fun k => Nat.div k (shape1 a))
                (map fst (filter (fun p => snd p =? Z.of_nat v)
                                 (combine (seq 0 (size a)) (ravel a))))))
      (seq 0 (Z.to_nat (list_max (ravel a) + 1))).

(** Label value [v] is held by some entry of the matrix. *)
Definition occurs (v : nat) (a : ndarray) : Prop :=
  exists r, In r (data a) /\ In (Z.of_nat v) r.

(** The row keys of a per-label table of an engine: [t] is a table, each of
    its keys is a label of the vocabulary, and the label of index [v] is a
    key exactly when it is not ["O"] and [v] occurs in the matrix. *)
Definition rows_exact (self : LFAnalysis) (t : result DataFrame) : Prop :=
  exists df,
    t = Ok df
    /\ (forall k, In k (row_labels df) -> In k (labels self))
    /\ forall v label,
        nth_error (labels self) v = Some label ->
        (In label (row_labels df) <-> label <> "O" /\ occurs v (L self)).

(** The reading of the specification: the names in the caller's order, each
    kept at its first position. *)
Fixpoint spec_dedup_in_order (l : list string) : list string :=
  match l with
  | [] => []
  | x :: l' =>
      x :: filter (fun y => negb (String.eqb y x)) (spec_dedup_in_order l')
  end.

Definition swap_pair (p : nat * string) : string * nat := (snd p, fst p).

(** The key under which [_index_labels] files a label. *)
Definition label_key (strip_prefixes : bool) (label : string) : string :=
  match split_dash label with
  | Some (_, base) => if strip_prefixes then base else label
  | None => label
  end.

Definition index_step (strip_prefixes : bool)
           (acc : dict nat * set string * set string) (label : string)
  : dict nat * set string * set string :=
  let '(label2idx, prefixes, labels_without_prefix) := acc in
  let '(prefixes', base) :=
    match split_dash label with
    | Some (p, b) => (set_add string_dec p prefixes, b)
    | None => (prefixes, label)
    end in
  let key := if strip_prefixes then base else label in
  ((if dict_mem label2idx key then label2idx
    else label2idx ++ [(key, List.length label2idx)]),
   prefixes',
   set_add string_dec base labels_without_prefix).

(** One token, marked PER by LF1; LF2 marks nothing. *)
Definition idle_source_engine : LFAnalysis :=
  Eval vm_compute in
    engine_of (__init__ spans_to_array_model slot_interp
                 [mk_Doc 1 [("LF1", [mk_Span 0 1 "PER"])]]
                 ["O"; "PER"] (Some ["LF1"; "LF2"]) false).

Definition finite (c : cell) : bool :=
  match c with
  | Fin _ => true
  | _ => false
  end.

(** What the engine relies on from [utils._spans_to_array]: a block is a
    rectangle with one column per source, and an entry is 0 or an index
    found in [label2idx]. *)
Definition builder_contract
           (spans_to_array : Doc -> list string -> dict nat -> set string ->
                             option (set string) -> result ndarray) : Prop :=
  forall doc sources label2idx lwp pfx b,
    spans_to_array doc sources label2idx lwp pfx = Ok b ->
    rectangular b = true
    /\ shape1 b = List.length sources
    /\ forall x, In x (ravel b) ->
                 x = 0 \/ exists k i, dict_get label2idx k = Some i
                                      /\ x = Z.of_nat i.

(** A cell holding a fraction between 0 and 1. *)
Definition unit_cell (c : cell) : Prop :=
  match c with
  | Fin q => (0 <= q)%Q /\ (q <= 1)%Q
  | _ => False
  end.

(** Number of rows whose entry in column [j] satisfies [p]. *)
Definition column_count (p : Z -> bool) (j : nat) (a : ndarray) : nat :=
  List.length (filter (fun r => p (nth j r 0)) (data a)).

(** The source list has no repetition and the index map sends the source of
    column [j] to [j]. *)
Definition wf_sources (self : LFAnalysis) : bool :=
  no_repeat (sources self)
  && (if list_eq_dec string_dec (dict_keys (sources2idx self)) (sources self)
      then true else false)
  && (if list_eq_dec Nat.eq_dec (map snd (sources2idx self))
                     (seq 0 (List.length (sources self)))
      then true else false).

(** A table with the given columns whose cells are all fractions between 0
    and 1: it was produced without an exception, it has one row of cells per
    row key, and every row is as wide as the column list. *)
Definition unit_table (columns : list string) (t : result DataFrame) : Prop :=
  exists df,
    t = Ok df
    /\ df_columns df = columns
    /\ List.length (df_values df) = List.length (df_index df)
    /\ Forall (fun row => List.length row = List.length columns
                          /\ Forall unit_cell row) (df_values df).

(** A cell holding a positive number. *)
Definition positive_cell (c : cell) : Prop :=
  match c with
  | Fin q => (0 < q)%Q
  | _ => False
  end.

(** The target labels of column [j]: the distinct nonzero values of the
    column, in increasing order. *)
Definition column_targets (j : nat) (a : ndarray) : list Z :=
  sorted_set (filter (fun x => negb (x =? 0)) (column j (data a))).

(** Number of the labels of [T] that row [r] holds. *)
Definition target_hits (T : list Z) (r : list Z) : Z :=
  sum_Z (map (fun v => bool_to_Z (existsb (fun x => x =? v) r)) T).

(** Number of rows holding at least one label of [T]. *)
Definition rows_hit (T : list Z) (a : ndarray) : nat :=
  List.length (filter (fun r => 1 <=? target_hits T r) (data a)).

(** The row keys of a table are distinct and come in the order of the label
    list. *)
Definition rows_in_label_order (self : LFAnalysis) (t : result DataFrame)
  : Prop :=
  exists df,
    t = Ok df
    /\ NoDup (row_labels df)
    /\ row_labels df
       = filter (fun l => list_mem l (row_labels df)) (labels self).

(* ------------------------------------------------------------------ *)
(** ** The constructor seen from its caller *)

(** The two objects that [__init__] receives by reference: the corpus and
    the label list. *)
Record caller : Type := mk_caller {
  arg_corpus : list Doc;
  arg_labels : list string
}.

(** A statement may read and update the caller's objects and may raise; the
    objects keep the updates made before an exception. *)
Definition stmt (A : Type) : Type := caller -> caller * result A.

Definition st_ret {A : Type} (a : A) : stmt A := fun s => (s, Ok a).

Definition st_bind {A B : Type} (c : stmt A) (k : A -> stmt B) : stmt B :=
  fun s =>
    match c s with
    | (s', Ok a) => k a s'
    | (s', Raise e) => (s', Raise e)
    end.

Notation "x <~ c ;; k" := (st_bind c (fun x => k))
  (at level 61, c at next level, right associativity).

Definition st_lift {A : Type} (r : result A) : stmt A := fun s => (s, r).

Definition read_corpus : stmt (list Doc) := fun s => (s, Ok (arg_corpus s)).

Definition read_labels : stmt (list string) := fun s => (s, Ok (arg_labels s)).

(** [original_labels.insert(0, x)] *)
Definition labels_insert_front (x : string) : stmt unit :=
  fun s => (mk_caller (arg_corpus s) (x :: arg_labels s), Ok tt).

(** [original_labels.remove(x)]: the first occurrence goes; a ValueError
    when there is none. *)
Definition labels_remove (x : string) : stmt unit :=
  fun s =>
    if list_mem x (arg_labels s)
    then (mk_caller (arg_corpus s) (list_remove x (arg_labels s)), Ok tt)
    else (s, Raise ValueError).

Fixpoint st_mapM {A B : Type} (f : A -> stmt B) (xs : list A) : stmt (list B) :=
  match xs with
  | [] => st_ret []
  | x :: xs' => y <~ f x ;; ys <~ st_mapM f xs' ;; st_ret (y :: ys)
  end.

Section Store.

(** [utils._spans_to_array] receives each document by reference; here it is
    a statement, so that what it does to the caller's objects is part of
    the constructor's effect. *)
Variable _spans_to_array_st :
  Doc -> list string -> dict nat -> set string -> option (set string) ->
  stmt ndarray.

(** [_get_corpus_sources] reads [self.corpus], the caller's corpus. *)
Definition _get_corpus_sources_st (I : Interp) (sources : option (list string))
  : stmt (list string * dict nat) :=
  corpus <~ read_corpus ;;
  st_ret (_get_corpus_sources I corpus sources).

(** [_get_token_level_labels], statement by statement, on the caller's label
    list. *)
Definition _get_token_level_labels_st (strict_match : bool)
  : stmt (list string * dict nat * set string * set string) :=
  original_labels <~ read_labels ;;
  _ <~ (if negb (list_mem "O" original_labels) then
          labels_insert_front "O"
        else
          first <~ st_lift (list_getitem original_labels 0) ;;
          if negb (String.eqb first "O") then
            _ <~ labels_remove "O" ;;
            labels_insert_front "O"
          else st_ret tt) ;;
  original_labels <~ read_labels ;;
  let '(label2idx, prefixes, labels_without_prefix) :=
    _index_labels original_labels (negb strict_match) in
  st_ret (dict_keys label2idx, label2idx, prefixes, labels_without_prefix).

Definition _corpus_to_token_array_st (sources : list string)
           (label2idx : dict nat) (labels_without_prefix prefixes : set string)
           (strict_match : bool) : stmt ndarray :=
  corpus <~ read_corpus ;;
  blocks <~ st_mapM (fun doc =>
              _spans_to_array_st doc sources label2idx labels_without_prefix
                (if strict_match then Some prefixes else None)) corpus ;;
  st_lift (np_concatenate blocks).

(** [LFAnalysis.__init__] as a statement on the caller's objects. *)
Definition __init___st (I : Interp) (sources : option (list string))
           (strict_match : bool) : stmt LFAnalysis :=
  corpus <~ read_corpus ;;
  resolved <~ _get_corpus_sources_st I sources ;;
  indexed <~ _get_token_level_labels_st strict_match ;;
  let '(labels, label2idx, prefixes, labels_without_prefix) := indexed in
  L <~ _corpus_to_token_array_st (fst resolved) label2idx
         labels_without_prefix prefixes strict_match ;;
  label_row_indices <~ st_lift (_get_row_indices_with_labels L) ;;
  st_ret (mk_LFAnalysis corpus (fst resolved) (snd resolved) strict_match
            labels label2idx prefixes labels_without_prefix L (csr_matrix L)
            label_row_indices).

End Store.

(** A block builder that leaves the caller's objects as they are. *)
Definition leaves_caller_unchanged
           (builder : Doc -> list string -> dict nat -> set string ->
                      option (set string) -> stmt ndarray) : Prop :=
  forall doc srcs l2i lwp pfx s, fst (builder doc srcs l2i lwp pfx s) = s.

(** A builder without effect, as a statement. *)
Definition pure_builder
           (builder : Doc -> list string -> dict nat -> set string ->
                      option (set string) -> result ndarray)
  : Doc -> list string -> dict nat -> set string -> option (set string) ->
    stmt ndarray :=
  fun doc srcs l2i lwp pfx s => (s, builder doc srcs l2i lwp pfx).

(** In a per-label table with one column per source, the cell of a label
    and a source that never gives this label is 0. *)
Definition idle_cells_are_zero (self : LFAnalysis) (t : result DataFrame)
  : Prop :=
  forall df,
    t = Ok df ->
    forall (k : nat) (label : string) (row : list cell) (v j : nat),
      nth_error (df_index df) k = Some (Label label) ->
      nth_error (df_values df) k = Some row ->
      nth_error (labels self) v = Some label ->
      (j < List.length (sources self))%nat ->
      column_count (fun x => Z.eqb x (Z.of_nat v)) j (L self) = 0%nat ->
      nth_error row j = Some (Fin 0).

(* ------------------------------------------------------------------ *)
(** ** Basic facts *)

Lemma fold_left_max_ge (l : list Z) (a : Z) :
  a <= fold_left Z.max l a /\
  forall x, In x l -> x <= fold_left Z.max l a.
Proof.
  revert a; induction l as [|y l IH]; intros a; simpl.
  - split; [lia | contradiction].
  - destruct (IH (Z.max a y)) as [H1 H2]. split; [lia|].
    intros x [->|Hx]; [lia | auto].
Qed.

Lemma fold_left_max_in (l : list Z) (a : Z) :
  fold_left Z.max l a = a \/ In (fold_left Z.max l a) l.
Proof.
  revert a; induction l as [|y l IH]; intros a; simpl.
  - now left.
  - destruct (IH (Z.max a y)) as [H|H].
    + rewrite H. destruct (Z.max_spec a y) as [[_ E]|[_ E]]; rewrite E; auto.
    + auto.
Qed.

Lemma list_max_ge (l : list Z) (x : Z) : In x l -> x <= list_max l.
Proof.
  destruct l as [|y l]; simpl; [contradiction|].
  destruct (fold_left_max_ge l y) as [H1 H2].
  intros [<-|H]; [exact H1 | exact (H2 x H)].
Qed.

Lemma list_max_in (l : list Z) : l <> [] -> In (list_max l) l.
Proof.
  destruct l as [|y l]; [congruence|]. intros _. simpl.
  destruct (fold_left_max_in l y) as [H|H]; [rewrite H|]; auto.
Qed.

(** The maximum of a 0/1 list is 1 exactly when a 1 occurs. *)
Lemma list_max_flags (l : list Z) :
  (forall x, In x l -> x = 0 \/ x = 1) ->
  (list_max l = 1 <-> In 1 l) /\ (list_max l = 0 \/ list_max l = 1).
Proof.
  intros H. destruct l as [|y l].
  - simpl. split; [split; [discriminate | contradiction] | now left].
  - assert (Hin : In (list_max (y :: l)) (y :: l)) by (apply list_max_in; congruence).
    split.
    + split.
      * intros E. rewrite <- E. exact Hin.
      * intros H1. apply list_max_ge in H1.
        destruct (H _ Hin); lia.
    + destruct (H _ Hin); auto.
Qed.

Lemma zip_with_map_l {A B C D : Type} (f : B -> C -> D) (g : A -> B)
      (xs : list A) (ys : list C) :
  zip_with f (map g xs) ys = zip_with (fun x y => f (g x) y) xs ys.
Proof.
  revert ys; induction xs as [|x xs IH]; intros [|y ys]; simpl; auto.
  now rewrite IH.
Qed.

Lemma zip_with_diag {A B : Type} (f : A -> A -> B) (xs : list A) :
  zip_with f xs xs = map (fun x => f x x) xs.
Proof.
  induction xs as [|x xs IH]; simpl; auto. now rewrite IH.
Qed.

Lemma row_conflict_unfold (r : list Z) :
  row_conflict r =
  list_max (map (fun x => bool_to_Z
                   (negb (list_max r * bool_to_Z (negb (x =? 0)) =? x))) r).
Proof.
  unfold row_conflict. rewrite map_map, zip_with_map_l, zip_with_diag.
  reflexivity.
Qed.

(** The matrix pipeline of [_conflicted_data_points] acts row by row. *)
Lemma conflicted_rows (rows : list (list Z)) :
  map list_max (ne_matrix (diags_matmul (map list_max rows) (ne_scalar rows 0))
                          rows)
  = map row_conflict rows.
Proof.
  unfold ne_matrix, diags_matmul, ne_scalar.
  induction rows as [|r rows IH]; simpl; auto.
  rewrite IH. reflexivity.
Qed.

Lemma conflicted_data_points_eq (self : LFAnalysis) :
  _conflicted_data_points self =
  if Nat.eqb (shape1 (_L_sparse self)) 0 then Raise ValueError
  else Ok (map row_conflict (data (_L_sparse self))).
Proof.
  unfold _conflicted_data_points, max_axis1.
  destruct (Nat.eqb (shape1 (_L_sparse self)) 0) eqn:E; simpl; auto.
  now rewrite conflicted_rows.
Qed.

(** On a row of non-negative entries the flag is 1 exactly when some nonzero
    entry differs from the row maximum, and that happens exactly when two
    nonzero entries differ. *)
Lemma row_conflict_max (r : list Z) :
  (row_conflict r = 1 <-> exists x, In x r /\ x <> 0 /\ x <> list_max r)
  /\ (row_conflict r = 0 \/ row_conflict r = 1).
Proof.
  rewrite row_conflict_unfold.
  set (f := fun x => bool_to_Z (negb (list_max r * bool_to_Z (negb (x =? 0)) =? x))).
  assert (Hf : forall y, In y (map f r) -> y = 0 \/ y = 1).
  { intros y Hy. destruct (proj1 (in_map_iff f r y) Hy) as [x [Hx _]].
    subst y. unfold f. destruct (negb _); simpl; auto. }
  destruct (list_max_flags _ Hf) as [H1 H2]. split; [|exact H2].
  rewrite H1. rewrite in_map_iff. split.
  - intros [x [Hx Hin]]. exists x. split; [exact Hin|].
    unfold f in Hx. destruct (Z.eq_dec x 0) as [E|Hn].
    + subst x. rewrite Z.eqb_refl in Hx. simpl in Hx.
      rewrite Z.mul_0_r in Hx. simpl in Hx. discriminate.
    + split; [exact Hn|]. intros E. apply Z.eqb_neq in Hn.
      rewrite Hn in Hx. simpl in Hx. rewrite Z.mul_1_r in Hx.
      rewrite <- E, Z.eqb_refl in Hx. simpl in Hx. discriminate.
  - intros [x [Hin [Hn Hm]]]. exists x. split; [|exact Hin].
    unfold f. apply Z.eqb_neq in Hn. rewrite Hn. simpl.
    rewrite Z.mul_1_r.
    assert (Hm' : (list_max r =? x) = false) by (apply Z.eqb_neq; congruence).
    rewrite Hm'. reflexivity.
Qed.

Lemma differs_from_max_iff (r : list Z) :
  (forall x, In x r -> 0 <= x) ->
  ((exists x, In x r /\ x <> 0 /\ x <> list_max r) <-> distinct_nonzero_pair r).
Proof.
  intros Hpos. split.
  - intros [x [Hin [Hn Hm]]]. exists x, (list_max r).
    assert (Hne : r <> []) by (intros ->; contradiction).
    pose proof (list_max_in r Hne) as Hmi.
    pose proof (list_max_ge r x Hin) as Hge.
    pose proof (Hpos x Hin).
    repeat split; auto. lia.
  - intros [a [b [Ha [Hb [Ha0 [Hb0 Hab]]]]]].
    destruct (Z.eq_dec a (list_max r)) as [E|E].
    + exists b. repeat split; auto. congruence.
    + exists a. repeat split; auto.
Qed.

Lemma sum_indicator_count (r : list Z) :
  sum_Z (map (fun x => bool_to_Z (negb (x =? 0))) r) = Z.of_nat (nonzero_count r).
Proof.
  unfold nonzero_count.
  induction r as [|x r IH]; [reflexivity|].
  cbn [map sum_Z fold_right filter]. fold (sum_Z (map (fun x => bool_to_Z (negb (x =? 0))) r)).
  rewrite IH. destruct (negb (x =? 0)); cbn [bool_to_Z List.length]; lia.
Qed.

Lemma overlapped_data_points_eq (self : LFAnalysis) :
  _overlapped_data_points self =
  map (fun r => if (1 <? Z.of_nat (nonzero_count r)) then 1 else 0)
      (data (_L_sparse self)).
Proof.
  unfold _overlapped_data_points, sum_axis1, ne_scalar.
  rewrite !map_map. apply map_ext. intros r.
  now rewrite sum_indicator_count.
Qed.

Lemma two_distinct_members {A : Type} (l : list A) (a b : A) :
  In a l -> In b l -> a <> b -> (2 <= List.length l)%nat.
Proof.
  destruct l as [|x [|y l]]; simpl; intros Ha Hb Hab.
  - contradiction.
  - destruct Ha as [Ha|[]], Hb as [Hb|[]]. congruence.
  - lia.
Qed.

Lemma distinct_pair_count (r : list Z) :
  distinct_nonzero_pair r -> (2 <= nonzero_count r)%nat.
Proof.
  intros [a [b [Ha [Hb [Ha0 [Hb0 Hab]]]]]]. unfold nonzero_count.
  apply (two_distinct_members _ a b); [| |exact Hab];
    apply filter_In; split; auto; apply negb_true_iff, Z.eqb_neq; assumption.
Qed.

Lemma forallb_nth_error {A : Type} (p : A -> bool) (l : list A) (i : nat) (x : A) :
  forallb p l = true -> nth_error l i = Some x -> p x = true.
Proof.
  intros H Hn. apply nth_error_In in Hn.
  rewrite forallb_forall in H. auto.
Qed.

(** Unpacking [wf_engine]. *)
Lemma wf_engine_facts (self : LFAnalysis) :
  wf_engine self = true ->
  rectangular (L self) = true
  /\ size (L self) <> 0%nat
  /\ entries_in_range (List.length (labels self)) (L self) = true
  /\ _L_sparse self = L self
  /\ shape1 (L self) = List.length (sources self)
  /\ (exists tl, labels self = "O" :: tl)
  /\ NoDup (labels self)
  /\ _get_row_indices_with_labels (L self) = Ok (label_row_indices self).
Proof.
  unfold wf_engine. rewrite !andb_true_iff.
  intros [[[[[[[H1 H2] H3] H4] H5] H6] H7] H8].
  repeat split.
  - exact H1.
  - apply negb_true_iff, Nat.eqb_neq in H2. exact H2.
  - exact H3.
  - unfold same_array in H4. apply andb_true_iff in H4 as [Ha Hb].
    apply Nat.eqb_eq in Ha.
    destruct (list_eq_dec (list_eq_dec Z.eq_dec) (data (_L_sparse self)) (data (L self)))
      as [Hd|]; [|discriminate].
    destruct (_L_sparse self), (L self); simpl in *. congruence.
  - apply Nat.eqb_eq in H5. exact H5.
  - destruct (labels self) as [|x tl]; [discriminate|].
    apply String.eqb_eq in H6. subst x. now exists tl.
  - unfold no_repeat in H7.
    destruct (list_eq_dec string_dec (nodup string_dec (labels self)) (labels self))
      as [E|]; [|discriminate].
    rewrite <- E. apply NoDup_nodup.
  - destruct (_get_row_indices_with_labels (L self)) as [l|]; [|discriminate].
    destruct (list_eq_dec (list_eq_dec Nat.eq_dec) l (label_row_indices self));
      [congruence | discriminate].
Qed.

Lemma size_nonzero_shape1 (a : ndarray) : size a <> 0%nat -> shape1 a <> 0%nat.
Proof. unfold size. intros H E. rewrite E in H. lia. Qed.

Lemma entries_nonneg (n : nat) (a : ndarray) (i : nat) (r : list Z) :
  entries_in_range n a = true -> nth_error (data a) i = Some r ->
  forall x, In x r -> 0 <= x < Z.of_nat n.
Proof.
  intros H Hr x Hx. unfold entries_in_range in H.
  pose proof (forallb_nth_error _ _ _ _ H Hr) as Hrow.
  rewrite forallb_forall in Hrow. specialize (Hrow x Hx).
  apply andb_true_iff in Hrow as [H1 H2]. lia.
Qed.

Lemma row_conflict_distinct (r : list Z) :
  (forall x, In x r -> 0 <= x) ->
  (row_conflict r = 1 <-> distinct_nonzero_pair r)
  /\ (row_conflict r = 0 <-> ~ distinct_nonzero_pair r).
Proof.
  intros Hpos.
  destruct (row_conflict_max r) as [Hmax H01].
  pose proof (differs_from_max_iff r Hpos) as Hd.
  assert (H1 : row_conflict r = 1 <-> distinct_nonzero_pair r)
    by (rewrite <- Hd; exact Hmax).
  split; [exact H1|]. rewrite <- H1. split.
  - intros E E'. congruence.
  - intros N. destruct H01 as [E|E]; [exact E | contradiction].
Qed.

Lemma conflicted_on_engine (self : LFAnalysis) :
  wf_engine self = true ->
  _conflicted_data_points self = Ok (map row_conflict (data (L self))).
Proof.
  intros Hwf.
  destruct (wf_engine_facts self Hwf) as (_ & Hsize & _ & Hsp & _).
  rewrite conflicted_data_points_eq, Hsp.
  apply size_nonzero_shape1, Nat.eqb_neq in Hsize. now rewrite Hsize.
Qed.

Lemma engine_row_nonneg (self : LFAnalysis) (i : nat) (r : list Z) :
  wf_engine self = true -> nth_error (data (L self)) i = Some r ->
  forall x, In x r -> 0 <= x < Z.of_nat (List.length (labels self)).
Proof.
  intros Hwf Hr.
  destruct (wf_engine_facts self Hwf) as (_ & _ & Hrange & _).
  exact (entries_nonneg _ _ _ _ Hrange Hr).
Qed.

(* ------------------------------------------------------------------ *)
(** ** Indicator vectors *)

(** C2.  On an engine, [_conflicted_data_points] returns one flag per matrix
    row; the flag of row [i] is 1 exactly when the row holds two different
    nonzero values, which is also exactly when some nonzero entry differs
    from the row maximum; otherwise it is 0, in particular when all nonzero
    entries of the row are equal. *)
Theorem conflicted_iff_distinct_nonzero_values :
  forall self : LFAnalysis,
    wf_engine self = true ->
    exists z,
      _conflicted_data_points self = Ok z
      /\ List.length z = shape0 (L self)
      /\ forall i r,
          nth_error (data (L self)) i = Some r ->
          (nth_error z i = Some 1 <-> distinct_nonzero_pair r)
          /\ (nth_error z i = Some 1 <->
              exists x, In x r /\ x <> 0 /\ x <> list_max r)
          /\ (nth_error z i = Some 0 <-> ~ distinct_nonzero_pair r)
          /\ ((forall a b, In a r -> In b r -> a <> 0 -> b <> 0 -> a = b) ->
              nth_error z i = Some 0).
Proof.
  intros self Hwf.
  exists (map row_conflict (data (L self))).
  split; [apply conflicted_on_engine; exact Hwf|].
  split; [unfold shape0; apply length_map|].
  intros i r Hr.
  rewrite (map_nth_error row_conflict _ _ Hr).
  assert (Hpos : forall x, In x r -> 0 <= x).
  { intros x Hx. apply (engine_row_nonneg self i r Hwf Hr x Hx). }
  destruct (row_conflict_distinct r Hpos) as [H1 H0].
  destruct (row_conflict_max r) as [Hmax _].
  assert (inj : forall a b : Z, Some a = Some b <-> a = b)
    by (intros a b; split; congruence).
  rewrite !inj.
  split; [exact H1|]. split; [exact Hmax|]. split; [exact H0|].
  intros Hall. apply H0.
  intros [a [b [Ha [Hb [Ha0 [Hb0 Hab]]]]]]. apply Hab. apply Hall; auto.
Qed.

Lemma conflicted_iff_distinct_nonzero_values_witness :
  exists z,
    _conflicted_data_points demo_engine = Ok z
    /\ List.length z = shape0 (L demo_engine)
    /\ forall i r,
        nth_error (data (L demo_engine)) i = Some r ->
        (nth_error z i = Some 1 <-> distinct_nonzero_pair r)
        /\ (nth_error z i = Some 1 <->
            exists x, In x r /\ x <> 0 /\ x <> list_max r)
        /\ (nth_error z i = Some 0 <-> ~ distinct_nonzero_pair r)
        /\ ((forall a b, In a r -> In b r -> a <> 0 -> b <> 0 -> a = b) ->
            nth_error z i = Some 0).
Proof.
  apply (conflicted_iff_distinct_nonzero_values demo_engine).
  vm_compute. reflexivity.
Defined.

(** C3.  On an engine, the flag that [_overlapped_data_points] gives to row
    [i] is 1 exactly when the row has at least two nonzero entries, whatever
    their values, and 0 otherwise; a row with exactly one nonzero entry has
    overlap flag 0 and conflict flag 0. *)
Theorem overlapped_iff_two_nonzero_entries :
  forall self : LFAnalysis,
    wf_engine self = true ->
    List.length (_overlapped_data_points self) = shape0 (L self)
    /\ forall i r,
        nth_error (data (L self)) i = Some r ->
        (nth_error (_overlapped_data_points self) i = Some 1 <->
         (2 <= nonzero_count r)%nat)
        /\ (nth_error (_overlapped_data_points self) i = Some 0 <->
            (nonzero_count r < 2)%nat)
        /\ (nonzero_count r = 1%nat ->
            nth_error (_overlapped_data_points self) i = Some 0
            /\ exists c, _conflicted_data_points self = Ok c
                         /\ nth_error c i = Some 0).
Proof.
  intros self Hwf.
  destruct (wf_engine_facts self Hwf) as (Hrect & Hsize & Hrange & Hsp & _).
  rewrite overlapped_data_points_eq, Hsp.
  split; [unfold shape0; apply length_map|].
  intros i r Hr.
  rewrite (map_nth_error _ _ _ Hr).
  assert (Hov1 : Some (if 1 <? Z.of_nat (nonzero_count r) then 1 else 0) = Some 1
                 <-> (2 <= nonzero_count r)%nat).
  { destruct (Z.ltb_spec 1 (Z.of_nat (nonzero_count r))); split;
      intros; try reflexivity; try lia; discriminate. }
  assert (Hov0 : Some (if 1 <? Z.of_nat (nonzero_count r) then 1 else 0) = Some 0
                 <-> (nonzero_count r < 2)%nat).
  { destruct (Z.ltb_spec 1 (Z.of_nat (nonzero_count r))); split;
      intros; try reflexivity; try lia; discriminate. }
  split; [exact Hov1|]. split; [exact Hov0|].
  intros Hone. split; [apply Hov0; lia|].
  exists (map row_conflict (data (L self))).
  split; [apply conflicted_on_engine; exact Hwf|].
  rewrite (map_nth_error row_conflict _ _ Hr). f_equal.
  apply row_conflict_distinct.
  - intros x Hx. apply (engine_row_nonneg self i r Hwf Hr x Hx).
  - intros Hd. apply distinct_pair_count in Hd. lia.
Qed.

Lemma overlapped_iff_two_nonzero_entries_witness :
  List.length (_overlapped_data_points demo_engine) = shape0 (L demo_engine)
  /\ forall i r,
      nth_error (data (L demo_engine)) i = Some r ->
      (nth_error (_overlapped_data_points demo_engine) i = Some 1 <->
       (2 <= nonzero_count r)%nat)
      /\ (nth_error (_overlapped_data_points demo_engine) i = Some 0 <->
          (nonzero_count r < 2)%nat)
      /\ (nonzero_count r = 1%nat ->
          nth_error (_overlapped_data_points demo_engine) i = Some 0
          /\ exists c, _conflicted_data_points demo_engine = Ok c
                       /\ nth_error c i = Some 0).
Proof.
  apply (overlapped_iff_two_nonzero_entries demo_engine).
  vm_compute. reflexivity.
Defined.

(* ------------------------------------------------------------------ *)
(** ** The inverted index *)

Lemma mapM_ok {A B : Type} (f : A -> result B) (g : A -> B) (xs : list A) :
  (forall x, In x xs -> f x = Ok (g x)) -> mapM f xs = Ok (map g xs).
Proof.
  induction xs as [|x xs IH]; intros H; simpl; [reflexivity|].
  rewrite (H x (or_introl eq_refl)). simpl.
  rewrite IH by (intros y Hy; apply H; now right). reflexivity.
Qed.

Lemma nth_map_seq {A : Type} (f : nat -> A) (n v : nat) (d : A) :
  (v < n)%nat -> nth v (map f (seq 0 n)) d = f v.
Proof.
  intros H. apply nth_error_nth. apply map_nth_error.
  rewrite nth_error_nth' with (d := 0%nat) by (rewrite length_seq; exact H).
  rewrite seq_nth by exact H. reflexivity.
Qed.

Lemma insert_uniq_in (x y : nat) (l : list nat) :
  In y (insert_uniq x l) <-> y = x \/ In y l.
Proof.
  induction l as [|z l IH]; simpl.
  - intuition.
  - destruct (Nat.ltb x z) eqn:E1; simpl; [intuition|].
    destruct (Nat.eqb x z) eqn:E2; simpl.
    + apply Nat.eqb_eq in E2. subst. intuition.
    + rewrite IH. intuition.
Qed.

Lemma np_unique_in (y : nat) (l : list nat) : In y (np_unique l) <-> In y l.
Proof.
  unfold np_unique. induction l as [|x l IH]; simpl; [reflexivity|].
  rewrite insert_uniq_in, IH. intuition.
Qed.

Lemma insert_uniq_sorted (x : nat) (l : list nat) :
  Sorted lt l -> Sorted lt (insert_uniq x l).
Proof.
  induction l as [|z l IH]; intros Hs; simpl.
  - repeat constructor.
  - inversion Hs as [|? ? Hs' Hhd]; subst.
    destruct (Nat.ltb_spec x z) as [Hlt|Hge].
    + constructor; [exact Hs | constructor; exact Hlt].
    + destruct (Nat.eqb_spec x z) as [->|Hne]; [exact Hs|].
      constructor; [apply IH; exact Hs'|].
      destruct l as [|w l]; simpl.
      * constructor. lia.
      * inversion Hhd; subst.
        destruct (Nat.ltb x w); [constructor; lia|].
        destruct (Nat.eqb x w); constructor; assumption.
Qed.

Lemma np_unique_sorted (l : list nat) : Sorted lt (np_unique l).
Proof.
  unfold np_unique. induction l as [|x l IH]; simpl.
  - constructor.
  - apply insert_uniq_sorted, IH.
Qed.

Lemma in_combine_seq {A : Type} (l : list A) (s k : nat) (x : A) :
  In (k, x) (combine (seq s (List.length l)) l) <->
  (s <= k)%nat /\ nth_error l (k - s) = Some x.
Proof.
  revert s; induction l as [|y l IH]; intros s; simpl.
  - split; [contradiction|]. intros [_ H]. destruct (k - s)%nat; discriminate.
  - rewrite IH. split.
    + intros [E|[Hle Hn]].
      * inversion E; subst. rewrite Nat.sub_diag. simpl. split; [lia|reflexivity].
      * split; [lia|]. replace (k - s)%nat with (S (k - S s)) by lia. exact Hn.
    + intros [Hle Hn]. destruct (Nat.eq_dec s k) as [->|Hne].
      * rewrite Nat.sub_diag in Hn. simpl in Hn. left. congruence.
      * right. split; [lia|].
        replace (k - s)%nat with (S (k - S s)) in Hn by lia. exact Hn.
Qed.

(** Position [k] of the flattened matrix is column [k mod m] of row
    [k / m]. *)
Lemma nth_error_concat_rect (m : nat) (rows : list (list Z)) (k : nat) (x : Z) :
  m <> 0%nat ->
  forallb (fun r => Nat.eqb (List.length r) m) rows = true ->
  (nth_error (List.concat rows) k = Some x <->
   exists r, nth_error rows (k / m) = Some r /\ nth_error r (k mod m) = Some x).
Proof.
  intros Hm. revert k; induction rows as [|r rows IH]; intros k Hrect.
  - simpl. split.
    + destruct k; discriminate.
    + intros [r [H _]]. destruct (k / m)%nat; discriminate.
  - simpl in Hrect. apply andb_true_iff in Hrect as [Hr Hrest].
    apply Nat.eqb_eq in Hr. simpl List.concat.
    destruct (Nat.lt_ge_cases k m) as [Hlt|Hge].
    + rewrite nth_error_app1 by lia.
      rewrite Nat.div_small, Nat.mod_small by lia. simpl.
      split.
      * intros H. exists r. split; [reflexivity | exact H].
      * intros [r' [E H]]. inversion E; subst. exact H.
    + rewrite nth_error_app2 by lia. rewrite Hr.
      rewrite (IH (k - m)%nat Hrest).
      assert (Hd : (k / m = S ((k - m) / m))%nat).
      { replace k with ((k - m) + 1 * m)%nat at 1 by lia.
        rewrite Nat.div_add by exact Hm. lia. }
      assert (Hmod : (k mod m = (k - m) mod m)%nat).
      { replace k with ((k - m) + 1 * m)%nat at 1 by lia.
        rewrite Nat.Div0.mod_add. reflexivity. }
      rewrite Hd, Hmod. simpl. reflexivity.
Qed.

Lemma length_concat_rect (m : nat) (rows : list (list Z)) :
  forallb (fun r => Nat.eqb (List.length r) m) rows = true ->
  List.length (List.concat rows) = (List.length rows * m)%nat.
Proof.
  induction rows as [|r rows IH]; simpl; intros H; [reflexivity|].
  apply andb_true_iff in H as [Hr Hrest]. apply Nat.eqb_eq in Hr.
  rewrite length_app, IH, Hr by exact Hrest. lia.
Qed.

Lemma in_concat_rows (rows : list (list Z)) (x : Z) :
  In x (List.concat rows) <-> exists r, In r rows /\ In x r.
Proof.
  rewrite in_concat. split; intros [r [H1 H2]]; exists r; auto.
Qed.

Lemma get_row_indices_ok (a : ndarray) :
  rectangular a = true -> size a <> 0%nat ->
  (forall x, In x (ravel a) -> 0 <= x) ->
  _get_row_indices_with_labels a = Ok (row_indices_of a).
Proof.
  intros Hrect Hsize Hpos.
  assert (Hlen : List.length (ravel a) = size a).
  { unfold ravel, size, shape0. apply length_concat_rect. exact Hrect. }
  unfold _get_row_indices_with_labels, np_max.
  destruct (ravel a) as [|x0 flat] eqn:Eflat.
  { simpl in Hlen. congruence. }
  rewrite <- Eflat in *. cbn [bind].
  unfold csr_from_coo.
  assert (Hrows : forallb (fun r => (0 <=? r) && (r <? list_max (ravel a) + 1))
                          (ravel a) = true).
  { apply forallb_forall. intros x Hx. apply andb_true_iff. split.
    - apply Z.leb_le. auto.
    - apply Z.ltb_lt. pose proof (list_max_ge _ _ Hx). lia. }
  assert (Hcols : forallb (fun c => Nat.ltb c (size a)) (seq 0 (size a)) = true).
  { apply forallb_forall. intros c Hc. apply in_seq in Hc.
    apply Nat.ltb_lt. lia. }
  rewrite Hrows, Hcols. cbn [andb bind].
  unfold row_indices_of.
  rewrite <- map_map
    with (g := fun d => np_unique (map (fun k => Nat.div k (shape1 a)) d)).
  apply mapM_ok.
  intros d Hd. apply in_map_iff in Hd. destruct Hd as [v [Hv _]]. subst d.
  rewrite (mapM_ok _ (fun k => (Nat.div k (shape1 a), Nat.modulo k (shape1 a)))).
  - cbn [bind]. rewrite map_map. reflexivity.
  - intros k Hk. apply in_map_iff in Hk. destruct Hk as [[k' x] [Ek Hin]].
    simpl in Ek. subst k'. apply filter_In in Hin. destruct Hin as [Hin _].
    apply in_combine_l in Hin. apply in_seq in Hin.
    assert (Hlt : Nat.ltb k (shape0 a * shape1 a) = true)
      by (apply Nat.ltb_lt; unfold size in Hin; lia).
    unfold unravel_index. cbn [fst snd]. rewrite Hlt. reflexivity.
Qed.

Lemma row_indices_of_spec (a : ndarray) (v i : nat) :
  rectangular a = true -> size a <> 0%nat ->
  (forall x, In x (ravel a) -> 0 <= x) ->
  (In i (nth v (row_indices_of a) []) <->
   exists r, nth_error (data a) i = Some r /\ In (Z.of_nat v) r).
Proof.
  intros Hrect Hsize Hpos.
  assert (Hm : shape1 a <> 0%nat) by (apply size_nonzero_shape1; exact Hsize).
  assert (Hlen : List.length (ravel a) = size a).
  { unfold ravel, size, shape0. apply length_concat_rect. exact Hrect. }
  set (row := fun v => np_unique
           (map (fun k => Nat.div k (shape1 a))
                (map fst (filter (fun p => snd p =? Z.of_nat v)
                                 (combine (seq 0 (size a)) (ravel a)))))).
  assert (Hrow : forall w, In i (row w) <->
            exists r, nth_error (data a) i = Some r /\ In (Z.of_nat w) r).
  { intros w. unfold row. rewrite np_unique_in, map_map, in_map_iff. split.
    - intros [[k x] [Ek Hin]]. simpl in Ek. subst i.
      apply filter_In in Hin. destruct Hin as [Hin Hx]. simpl in Hx.
      apply Z.eqb_eq in Hx. subst x.
      rewrite <- Hlen in Hin. apply in_combine_seq in Hin.
      destruct Hin as [_ Hn]. rewrite Nat.sub_0_r in Hn.
      unfold ravel in Hn. apply (nth_error_concat_rect _ _ _ _ Hm Hrect) in Hn.
      destruct Hn as [r [Hr Hx]]. exists r. split; [exact Hr|].
      eapply nth_error_In; eauto.
    - intros [r [Hr Hx]]. apply In_nth_error in Hx. destruct Hx as [j Hj].
      assert (Hrl : List.length r = shape1 a).
      { unfold rectangular in Hrect.
        apply Nat.eqb_eq. apply (forallb_nth_error _ _ _ _ Hrect Hr). }
      assert (Hjl : (j < shape1 a)%nat).
      { rewrite <- Hrl. apply nth_error_Some. congruence. }
      exists ((i * shape1 a + j)%nat, Z.of_nat w). simpl.
      assert (Hdiv : ((i * shape1 a + j) / shape1 a = i)%nat).
      { rewrite Nat.add_comm, Nat.div_add by exact Hm.
        rewrite Nat.div_small by lia. reflexivity. }
      assert (Hmod : ((i * shape1 a + j) mod shape1 a = j)%nat).
      { rewrite Nat.add_comm, Nat.Div0.mod_add. apply Nat.mod_small. lia. }
      split; [exact Hdiv|].
      apply filter_In. split; [|simpl; apply Z.eqb_refl].
      rewrite <- Hlen. apply in_combine_seq. split; [lia|].
      rewrite Nat.sub_0_r. unfold ravel.
      apply (nth_error_concat_rect _ _ _ _ Hm Hrect).
      exists r. rewrite Hdiv, Hmod. split; assumption. }
  unfold row_indices_of. fold row.
  destruct (Nat.lt_ge_cases v (Z.to_nat (list_max (ravel a) + 1))) as [Hlt|Hge].
  - rewrite nth_map_seq by exact Hlt. apply Hrow.
  - rewrite nth_overflow by (rewrite length_map, length_seq; exact Hge).
    split; [contradiction|].
    intros [r [Hr Hx]]. exfalso.
    assert (Hin : In (Z.of_nat v) (ravel a)).
    { unfold ravel. apply in_concat_rows. exists r. split; [|exact Hx].
      eapply nth_error_In; eauto. }
    pose proof (list_max_ge _ _ Hin). lia.
Qed.

Lemma engine_ravel_nonneg (self : LFAnalysis) :
  wf_engine self = true -> forall x, In x (ravel (L self)) -> 0 <= x.
Proof.
  intros Hwf x Hx. unfold ravel in Hx. apply in_concat_rows in Hx.
  destruct Hx as [r [Hr Hx]]. apply In_nth_error in Hr. destruct Hr as [i Hi].
  apply (engine_row_nonneg self i r Hwf Hi x Hx).
Qed.

Lemma engine_row_indices (self : LFAnalysis) :
  wf_engine self = true -> label_row_indices self = row_indices_of (L self).
Proof.
  intros Hwf.
  destruct (wf_engine_facts self Hwf) as (Hrect & Hsize & _ & _ & _ & _ & _ & Hlri).
  rewrite (get_row_indices_ok _ Hrect Hsize (engine_ravel_nonneg self Hwf)) in Hlri.
  congruence.
Qed.

Lemma engine_row_indices_spec (self : LFAnalysis) (v i : nat) :
  wf_engine self = true ->
  (In i (nth v (label_row_indices self) []) <->
   exists r, nth_error (data (L self)) i = Some r /\ In (Z.of_nat v) r).
Proof.
  intros Hwf. rewrite (engine_row_indices self Hwf).
  destruct (wf_engine_facts self Hwf) as (Hrect & Hsize & _).
  apply row_indices_of_spec; auto. apply engine_ravel_nonneg; exact Hwf.
Qed.

(** C7.  On an engine, the cached row index of a label value [v] (read as
    empty when the cache has no entry for [v]) is a strictly increasing list
    holding exactly the rows of the matrix in which [v] occurs in some
    column; row 0 belongs to it when [v] occurs in row 0, and it is empty
    when [v] occurs nowhere. *)
Theorem label_row_indices_exact :
  forall self : LFAnalysis,
    wf_engine self = true ->
    forall v : nat,
      Sorted lt (nth v (label_row_indices self) [])
      /\ (forall i,
             In i (nth v (label_row_indices self) []) <->
             exists r, nth_error (data (L self)) i = Some r
                       /\ In (Z.of_nat v) r)
      /\ (forall r0, nth_error (data (L self)) 0 = Some r0 ->
                     In (Z.of_nat v) r0 ->
                     In 0%nat (nth v (label_row_indices self) []))
      /\ ((forall r, In r (data (L self)) -> ~ In (Z.of_nat v) r) ->
          nth v (label_row_indices self) [] = []).
Proof.
  intros self Hwf v.
  pose proof (fun i => engine_row_indices_spec self v i Hwf) as Hspec.
  split; [|split; [exact Hspec|split]].
  - rewrite (engine_row_indices self Hwf). unfold row_indices_of.
    destruct (Nat.lt_ge_cases v (Z.to_nat (list_max (ravel (L self)) + 1)))
      as [Hlt|Hge].
    + rewrite nth_map_seq by exact Hlt. apply np_unique_sorted.
    + rewrite nth_overflow by (rewrite length_map, length_seq; exact Hge).
      constructor.
  - intros r0 Hr0 Hin. apply Hspec. exists r0. auto.
  - intros Hnone.
    destruct (nth v (label_row_indices self) []) as [|i l] eqn:E; [reflexivity|].
    exfalso. destruct (proj1 (Hspec i) (or_introl eq_refl)) as [r [Hr Hin]].
    apply (Hnone r); [eapply nth_error_In; eauto | exact Hin].
Qed.

Lemma label_row_indices_exact_witness :
  Sorted lt (nth 1 (label_row_indices demo_engine) [])
  /\ (forall i,
         In i (nth 1 (label_row_indices demo_engine) []) <->
         exists r, nth_error (data (L demo_engine)) i = Some r
                   /\ In (Z.of_nat 1) r)
  /\ (forall r0, nth_error (data (L demo_engine)) 0 = Some r0 ->
                 In (Z.of_nat 1) r0 ->
                 In 0%nat (nth 1 (label_row_indices demo_engine) []))
  /\ ((forall r, In r (data (L demo_engine)) -> ~ In (Z.of_nat 1) r) ->
      nth 1 (label_row_indices demo_engine) [] = []).
Proof.
  apply (label_row_indices_exact demo_engine).
  vm_compute. reflexivity.
Defined.

(* ------------------------------------------------------------------ *)
(** ** The per-label tables *)

Lemma dict_set_keys {V : Type} (d : dict V) (k : string) (v : V) (k' : string) :
  In k' (dict_keys (dict_set d k v)) <-> k' = k \/ In k' (dict_keys d).
Proof.
  unfold dict_keys. induction d as [|[k0 v0] d IH]; simpl.
  - intuition.
  - destruct (String.eqb_spec k0 k) as [->|Hne]; simpl.
    + intuition.
    + rewrite IH. intuition.
Qed.

Lemma dict_set_values {V : Type} (P : V -> Prop) (d : dict V) (k : string) (v : V) :
  P v -> Forall P (map snd d) -> Forall P (map snd (dict_set d k v)).
Proof.
  intros Hv. induction d as [|[k0 v0] d IH]; simpl; intros Hd.
  - constructor; auto.
  - inversion Hd; subst.
    destruct (String.eqb k0 k); simpl; constructor; auto.
Qed.

Lemma in_enumerate_from {A : Type} (l : list A) (s n : nat) (x : A) :
  In (n, x) (enumerate_from s l) <-> (s <= n)%nat /\ nth_error l (n - s) = Some x.
Proof.
  revert s; induction l as [|y l IH]; intros s; simpl.
  - split; [contradiction|]. intros [_ H]. destruct (n - s)%nat; discriminate.
  - rewrite IH. split.
    + intros [E|[Hle Hn]].
      * inversion E; subst. rewrite Nat.sub_diag. split; [lia|reflexivity].
      * split; [lia|]. replace (n - s)%nat with (S (n - S s)) by lia. exact Hn.
    + intros [Hle Hn]. destruct (Nat.eq_dec s n) as [->|Hne].
      * rewrite Nat.sub_diag in Hn. simpl in Hn. left. congruence.
      * right. split; [lia|].
        replace (n - s)%nat with (S (n - S s)) in Hn by lia. exact Hn.
Qed.

Lemma in_enumerate {A : Type} (l : list A) (n : nat) (x : A) :
  In (n, x) (enumerate l) <-> nth_error l n = Some x.
Proof.
  unfold enumerate. rewrite in_enumerate_from, Nat.sub_0_r.
  split; [intros [_ H]; exact H | intros H; split; [lia | exact H]].
Qed.

Lemma take_ok {A : Type} (a : list A) (indices : list nat) :
  (forall i, In i indices -> (i < List.length a)%nat) ->
  exists sel, take a indices = Ok sel /\ List.length sel = List.length indices.
Proof.
  unfold take. induction indices as [|i indices IH]; intros H; simpl.
  - exists []. auto.
  - destruct (IH (fun j Hj => H j (or_intror Hj))) as [sel [Hs Hl]].
    assert (Hi : (i < List.length a)%nat) by (apply H; now left).
    apply nth_error_Some in Hi. unfold list_getitem at 1.
    destruct (nth_error a i) as [x|]; [|congruence].
    simpl. rewrite Hs. simpl. exists (x :: sel). simpl. auto.
Qed.

Lemma length_zip_with {A B C : Type} (f : A -> B -> C) (xs : list A) (ys : list B) :
  List.length (zip_with f xs ys) = Nat.min (List.length xs) (List.length ys).
Proof.
  revert ys; induction xs as [|x xs IH]; intros [|y ys]; simpl; auto.
Qed.

(** The loop of the per-label tables: it ends without an exception when
    every listed index has a label and the body succeeds where it is run, and
    the keys it adds are the labels other than ["O"] whose row list is not
    empty. *)
Lemma per_label_loop (lbls : list string)
      (body : nat -> list nat -> result (list cell)) (W : list cell -> Prop)
      (items : list (nat * list nat)) :
  (forall p, In p items -> exists label, nth_error lbls (fst p) = Some label) ->
  (forall p, In p items -> snd p <> [] ->
             exists row, body (fst p) (snd p) = Ok row /\ W row) ->
  forall acc : dict (list cell),
    Forall W (map snd acc) ->
    exists d,
      foldM (fun (result : dict (list cell)) (p : nat * list nat) =>
               let '(label_idx, indices) := p in
               label <- list_getitem lbls label_idx ;;
               if String.eqb label "O" || Nat.eqb (List.length indices) 0
               then Ok result
               else row <- body label_idx indices ;;
                    Ok (dict_set result label row))
            items acc = Ok d
      /\ Forall W (map snd d)
      /\ forall k, In k (dict_keys d) <->
                   In k (dict_keys acc)
                   \/ exists p, In p items
                                /\ nth_error lbls (fst p) = Some k
                                /\ k <> "O" /\ snd p <> [].
Proof.
  induction items as [|[v idx] items IH]; intros Hlab Hbody acc Hacc.
  - exists acc. simpl. split; [reflexivity|]. split; [exact Hacc|].
    intros k. split; [auto|]. intros [H|[p [[] _]]]. exact H.
  - assert (Hlab' : forall p, In p items ->
                      exists label, nth_error lbls (fst p) = Some label)
      by (intros p Hp; apply Hlab; now right).
    assert (Hbody' : forall p, In p items -> snd p <> [] ->
                      exists row, body (fst p) (snd p) = Ok row /\ W row)
      by (intros p Hp; apply Hbody; now right).
    destruct (Hlab (v, idx) (or_introl eq_refl)) as [label Hl]. simpl in Hl.
    cbn [foldM]. unfold list_getitem at 1. rewrite Hl. cbn [bind].
    destruct (String.eqb_spec label "O") as [HO|HO]; cbn [orb].
    + destruct (IH Hlab' Hbody' acc Hacc) as [d [Hd [HW Hk]]].
      exists d. split; [exact Hd|]. split; [exact HW|].
      intros k. rewrite Hk. split.
      * intros [H|[p [Hp H]]]; [now left|]. right. exists p. split; [now right|exact H].
      * intros [H|[p [[E|Hp] [H1 [H2 H3]]]]]; [now left| |].
        -- subst p. simpl in H1. congruence.
        -- right. exists p. auto.
    + destruct idx as [|i idx]; cbn [List.length Nat.eqb].
      * destruct (IH Hlab' Hbody' acc Hacc) as [d [Hd [HW Hk]]].
        exists d. split; [exact Hd|]. split; [exact HW|].
        intros k. rewrite Hk. split.
        -- intros [H|[p [Hp H]]]; [now left|]. right. exists p. split; [now right|exact H].
        -- intros [H|[p [[E|Hp] [H1 [H2 H3]]]]]; [now left| |].
           ++ subst p. simpl in H3. congruence.
           ++ right. exists p. auto.
      * destruct (Hbody (v, i :: idx) (or_introl eq_refl)) as [row [Hrow HWrow]];
          [simpl; congruence|]. simpl in Hrow. rewrite Hrow. cbn [bind].
        destruct (IH Hlab' Hbody' (dict_set acc label row)
                     (dict_set_values W acc label row HWrow Hacc))
          as [d [Hd [HW Hk]]].
        exists d. split; [exact Hd|]. split; [exact HW|].
        intros k. rewrite Hk, dict_set_keys. split.
        -- intros [[E|H]|[p [Hp H]]].
           ++ subst k. right. exists (v, i :: idx). simpl.
              split; [now left|]. repeat split; auto. congruence.
           ++ now left.
           ++ right. exists p. split; [now right|exact H].
        -- intros [H|[p [[E|Hp] [H1 [H2 H3]]]]].
           ++ left. now right.
           ++ subst p. simpl in H1. left. left. congruence.
           ++ right. exists p. auto.
Qed.

Lemma row_indices_length (a : ndarray) :
  List.length (row_indices_of a) = Z.to_nat (list_max (ravel a) + 1).
Proof. unfold row_indices_of. now rewrite length_map, length_seq. Qed.

Lemma engine_index_has_label (self : LFAnalysis) (v : nat) :
  wf_engine self = true ->
  (v < List.length (label_row_indices self))%nat ->
  exists label, nth_error (labels self) v = Some label.
Proof.
  intros Hwf Hv. rewrite (engine_row_indices self Hwf), row_indices_length in Hv.
  destruct (wf_engine_facts self Hwf) as (Hrect & Hsize & Hrange & _).
  assert (Hne : ravel (L self) <> []).
  { intros E. apply Hsize. unfold size, shape0.
    rewrite <- (length_concat_rect _ _ Hrect). fold (ravel (L self)).
    now rewrite E. }
  pose proof (list_max_in _ Hne) as Hin.
  unfold ravel in Hin. apply in_concat_rows in Hin. destruct Hin as [r [Hr Hx]].
  apply In_nth_error in Hr. destruct Hr as [i Hi].
  pose proof (engine_row_nonneg self i r Hwf Hi _ Hx) as Hb.
  fold (ravel (L self)) in Hb.
  destruct (nth_error (labels self) v) as [label|] eqn:E; [now exists label|].
  apply nth_error_None in E. lia.
Qed.

Lemma engine_rows_nonempty_iff (self : LFAnalysis) (v : nat) (idx : list nat) :
  wf_engine self = true ->
  nth_error (label_row_indices self) v = Some idx ->
  (idx <> [] <-> occurs v (L self)).
Proof.
  intros Hwf Hv.
  assert (Hn : nth v (label_row_indices self) [] = idx)
    by (apply nth_error_nth; exact Hv).
  split.
  - intros Hne. destruct idx as [|i idx]; [congruence|].
    destruct (proj1 (engine_row_indices_spec self v i Hwf)) as [r [Hr Hx]].
    { rewrite Hn. now left. }
    exists r. split; [eapply nth_error_In; eauto | exact Hx].
  - intros [r [Hr Hx]] E. apply In_nth_error in Hr. destruct Hr as [i Hi].
    assert (Hin : In i (nth v (label_row_indices self) []))
      by (apply (engine_row_indices_spec self v i Hwf); exists r; auto).
    rewrite Hn, E in Hin. contradiction.
Qed.

Lemma occurs_has_rows (self : LFAnalysis) (v : nat) :
  wf_engine self = true -> occurs v (L self) ->
  exists idx, nth_error (label_row_indices self) v = Some idx /\ idx <> [].
Proof.
  intros Hwf [r [Hr Hx]]. apply In_nth_error in Hr. destruct Hr as [i Hi].
  assert (Hin : In i (nth v (label_row_indices self) []))
    by (apply (engine_row_indices_spec self v i Hwf); exists r; auto).
  destruct (nth_error (label_row_indices self) v) as [idx|] eqn:E.
  - exists idx. split; [reflexivity|].
    rewrite (nth_error_nth _ _ _ E) in Hin. intros ->. contradiction.
  - apply nth_error_None in E. rewrite nth_overflow in Hin by exact E.
    contradiction.
Qed.

Lemma row_labels_from_dict (d : dict (list cell)) (columns : list string)
      (df : DataFrame) :
  DataFrame_from_dict d columns = Ok df -> row_labels df = dict_keys d.
Proof.
  unfold DataFrame_from_dict, pandas_DataFrame.
  destruct (forallb _ _); [|discriminate]. intros E. inversion E; subst.
  unfold row_labels. simpl. induction (dict_keys d) as [|k ks IH]; simpl; auto.
  now rewrite IH.
Qed.

Lemma from_dict_ok (d : dict (list cell)) (columns : list string) :
  Forall (fun r => List.length r = List.length columns) (map snd d) ->
  exists df, DataFrame_from_dict d columns = Ok df.
Proof.
  intros H. unfold DataFrame_from_dict, pandas_DataFrame.
  assert (E : forallb (fun r => Nat.eqb (List.length r) (List.length columns))
                      (map snd d) = true).
  { apply forallb_forall. intros r Hr. rewrite Forall_forall in H.
    apply Nat.eqb_eq. auto. }
  rewrite E. eauto.
Qed.

(** A per-label table whose body succeeds on every non-empty row list of the
    cache, with rows as wide as the table, has exactly the expected keys. *)
Lemma per_label_table (self : LFAnalysis)
      (body : nat -> list nat -> result (list cell)) (columns : list string) :
  wf_engine self = true ->
  (forall v idx, nth_error (label_row_indices self) v = Some idx -> idx <> [] ->
                 exists row, body v idx = Ok row
                             /\ List.length row = List.length columns) ->
  rows_exact self (result <- per_label_rows self body ;;
                   DataFrame_from_dict result columns).
Proof.
  intros Hwf Hbody.
  destruct (wf_engine_facts self Hwf) as (_ & _ & _ & _ & _ & _ & Hnd & _).
  destruct (per_label_loop (labels self) body
              (fun r => List.length r = List.length columns)
              (enumerate (label_row_indices self))) with (acc := @nil (string * list cell))
    as [d [Hd [HW Hk]]].
  - intros [v idx] Hp. apply in_enumerate in Hp. simpl.
    apply (engine_index_has_label self v Hwf).
    apply nth_error_Some. congruence.
  - intros [v idx] Hp Hne. apply in_enumerate in Hp. simpl in *.
    apply Hbody; assumption.
  - constructor.
  - unfold per_label_rows. rewrite Hd. cbn [bind].
    destruct (from_dict_ok d columns HW) as [df Hdf].
    exists df. split; [exact Hdf|].
    rewrite (row_labels_from_dict _ _ _ Hdf).
    split.
    + intros k Hin. apply Hk in Hin. destruct Hin as [[]|[p [_ [Hl _]]]].
      eapply nth_error_In; eauto.
    + intros v label Hl. rewrite Hk. split.
      * intros [[]|[[v' idx] [Hp [Hl' [HO Hne]]]]]. simpl in *.
        apply in_enumerate in Hp.
        assert (v' = v).
        { apply (proj1 (NoDup_nth_error (labels self)) Hnd).
          - apply nth_error_Some. congruence.
          - congruence. }
        subst v'. split; [exact HO|].
        apply (engine_rows_nonempty_iff self v idx Hwf Hp). exact Hne.
      * intros [HO Hocc]. right.
        destruct (occurs_has_rows self v Hwf Hocc) as [idx [Hidx Hne]].
        exists (v, idx). simpl. split; [apply in_enumerate; exact Hidx|]. auto.
Qed.

Lemma cached_rows_in_range (self : LFAnalysis) (v : nat) (idx : list nat) :
  wf_engine self = true ->
  nth_error (label_row_indices self) v = Some idx ->
  forall i, In i idx -> (i < shape0 (L self))%nat.
Proof.
  intros Hwf Hv i Hi.
  rewrite <- (nth_error_nth _ _ [] Hv) in Hi.
  apply (engine_row_indices_spec self v i Hwf) in Hi.
  destruct Hi as [r [Hr _]]. unfold shape0. apply nth_error_Some. congruence.
Qed.

Lemma length_sum_axis0 (n : nat) (a : list (list Z)) :
  List.length (sum_axis0 n a) = n.
Proof. unfold sum_axis0. now rewrite length_map, length_seq. Qed.

Lemma length_matT_vec (n : nat) (x : list (list Z)) (v : list Z) :
  List.length (matT_vec n x v) = n.
Proof. unfold matT_vec. now rewrite length_map, length_seq. Qed.

Lemma ratio_body_ok (self : LFAnalysis) (z : list Z) (v : nat) (idx : list nat) :
  wf_engine self = true ->
  List.length z = shape0 (L self) ->
  nth_error (label_row_indices self) v = Some idx ->
  exists row, lf_ratio_label self z v idx = Ok row
              /\ List.length row = List.length (sources self).
Proof.
  intros Hwf Hz Hv.
  destruct (wf_engine_facts self Hwf) as (_ & _ & _ & Hsp & Hcols & _).
  pose proof (cached_rows_in_range self v idx Hwf Hv) as Hr.
  unfold lf_ratio_label. rewrite Hsp.
  destruct (take_ok (data (L self)) idx Hr) as [rows [Hrows _]].
  rewrite Hrows. cbn [bind].
  destruct (take_ok z idx) as [sel [Hsel _]].
  { intros i Hi. rewrite Hz. auto. }
  rewrite Hsel. cbn [bind]. eexists. split; [reflexivity|].
  rewrite length_map, length_zip_with, length_matT_vec, length_sum_axis0.
  rewrite Nat.min_id. exact Hcols.
Qed.

Lemma fraction_body_ok (self : LFAnalysis) (z : list Z) (v : nat) (idx : list nat) :
  wf_engine self = true ->
  List.length z = shape0 (L self) ->
  nth_error (label_row_indices self) v = Some idx ->
  exists row,
    (sel <- take z idx ;;
     Ok [np_divide (sum_Z sel) (Z.of_nat (List.length idx))]) = Ok row
    /\ List.length row = List.length ["overlap"].
Proof.
  intros Hwf Hz Hv.
  pose proof (cached_rows_in_range self v idx Hwf Hv) as Hr.
  destruct (take_ok z idx) as [sel [Hsel _]].
  { intros i Hi. rewrite Hz. auto. }
  rewrite Hsel. cbn [bind]. eexists. split; reflexivity.
Qed.

(** C8.  On an engine, each of the five per-label tables is produced without
    an exception; its row keys are labels of the vocabulary, and the label
    of index [v] is a row key exactly when it is not ["O"] and [v] occurs in
    the matrix. *)
Theorem per_label_tables_row_set :
  forall self : LFAnalysis,
    wf_engine self = true ->
    rows_exact self (label_overlap self)
    /\ rows_exact self (label_conflict self)
    /\ rows_exact self (lf_coverages self false)
    /\ rows_exact self (lf_overlaps self false)
    /\ rows_exact self (lf_conflicts self false).
Proof.
  intros self Hwf.
  destruct (wf_engine_facts self Hwf) as (_ & _ & _ & Hsp & Hcols & _).
  assert (Hov : List.length (_overlapped_data_points self) = shape0 (L self)).
  { rewrite overlapped_data_points_eq, Hsp. unfold shape0. apply length_map. }
  assert (Hcf : List.length (map row_conflict (data (L self))) = shape0 (L self))
    by (unfold shape0; apply length_map).
  repeat split.
  - unfold label_overlap. apply per_label_table; [exact Hwf|].
    intros v idx Hv _. apply (fraction_body_ok self _ v idx Hwf Hov Hv).
  - unfold label_conflict. rewrite (conflicted_on_engine self Hwf). cbn [bind].
    apply per_label_table; [exact Hwf|].
    intros v idx Hv _. apply (fraction_body_ok self _ v idx Hwf Hcf Hv).
  - unfold lf_coverages. apply per_label_table; [exact Hwf|].
    intros v idx Hv _. eexists. split; [reflexivity|].
    unfold _covered_by_label_counts.
    rewrite length_map, length_sum_axis0, Hsp. exact Hcols.
  - unfold lf_overlaps. apply per_label_table; [exact Hwf|].
    intros v idx Hv _. apply (ratio_body_ok self _ v idx Hwf Hov Hv).
  - unfold lf_conflicts. rewrite (conflicted_on_engine self Hwf). cbn [bind].
    apply per_label_table; [exact Hwf|].
    intros v idx Hv _. apply (ratio_body_ok self _ v idx Hwf Hcf Hv).
Qed.

Lemma per_label_tables_row_set_witness :
  rows_exact demo_engine (label_overlap demo_engine)
  /\ rows_exact demo_engine (label_conflict demo_engine)
  /\ rows_exact demo_engine (lf_coverages demo_engine false)
  /\ rows_exact demo_engine (lf_overlaps demo_engine false)
  /\ rows_exact demo_engine (lf_conflicts demo_engine false).
Proof.
  apply (per_label_tables_row_set demo_engine).
  vm_compute. reflexivity.
Defined.

(* ------------------------------------------------------------------ *)
(** ** The source resolver *)

Lemma dict_set_fresh {V : Type} (d : dict V) (k : string) (v : V) :
  ~ In k (dict_keys d) -> dict_set d k v = d ++ [(k, v)].
Proof.
  unfold dict_keys. induction d as [|[k0 v0] d IH]; simpl; intros H.
  - reflexivity.
  - destruct (String.eqb_spec k0 k) as [E|E].
    + exfalso. apply H. now left.
    + rewrite IH; [reflexivity|]. intros Hin. apply H. now right.
Qed.

Lemma index_sources_fold (l : list string) (n : nat) (acc : dict nat) :
  NoDup (dict_keys acc ++ l) ->
  fold_left (fun d (p : nat * string) => dict_set d (snd p) (fst p))
            (enumerate_from n l) acc
  = acc ++ map swap_pair (enumerate_from n l).
Proof.
  revert n acc; induction l as [|x l IH]; intros n acc Hnd; simpl.
  - now rewrite app_nil_r.
  - assert (Hx : ~ In x (dict_keys acc)).
    { apply NoDup_remove_2 in Hnd. intros H. apply Hnd.
      apply in_or_app. now left. }
    rewrite (dict_set_fresh acc x n Hx).
    rewrite IH.
    + rewrite <- app_assoc. reflexivity.
    + unfold dict_keys in *. rewrite map_app. simpl.
      rewrite <- app_assoc. simpl. exact Hnd.
Qed.

Lemma dict_get_enumerate (l : list string) (n i : nat) (s : string) :
  NoDup l -> nth_error l i = Some s ->
  dict_get (map swap_pair (enumerate_from n l)) s = Some (n + i)%nat.
Proof.
  revert n i; induction l as [|x l IH]; intros n i Hnd Hi.
  - destruct i; discriminate.
  - simpl. inversion Hnd as [|? ? Hx Hnd']; subst. destruct i as [|i]; simpl in Hi.
    + inversion Hi; subst. rewrite String.eqb_refl. f_equal. lia.
    + destruct (String.eqb_spec x s) as [E|E].
      * subst. exfalso. apply Hx. eapply nth_error_In; eauto.
      * rewrite (IH (S n) i Hnd' Hi). f_equal. lia.
Qed.

(** C4, as the code has it.  For an explicit source list the resolver
    returns each supplied name once, in the order in which the interpreter
    iterates the set of names (not necessarily the caller's order), and the
    index map sends the name at position [i] of the returned list to [i]. *)
Theorem explicit_sources_deduplicated :
  forall (I : Interp) (corpus : list Doc) (given : list string),
    let rs := fst (_get_corpus_sources I corpus (Some given)) in
    let idx := snd (_get_corpus_sources I corpus (Some given)) in
    NoDup rs
    /\ (forall s, In s rs <-> In s given)
    /\ Permutation rs (nodup string_dec given)
    /\ idx = map swap_pair (enumerate rs)
    /\ (forall i s, nth_error rs i = Some s -> dict_get idx s = Some i).
Proof.
  intros I corpus given rs idx.
  assert (Hperm : Permutation rs (nodup string_dec given))
    by (apply set_iter_perm).
  assert (Hnd : NoDup rs).
  { apply (Permutation_NoDup (Permutation_sym Hperm)). apply NoDup_nodup. }
  assert (Hidx : idx = map swap_pair (enumerate rs)).
  { unfold idx, _get_corpus_sources. cbn [snd]. fold rs.
    unfold enumerate. rewrite index_sources_fold; [reflexivity|exact Hnd]. }
  repeat split; auto.
  - intros H. apply (Permutation_in _ Hperm) in H.
    now apply nodup_In in H.
  - intros H. apply (Permutation_in _ (Permutation_sym Hperm)).
    now apply nodup_In.
  - intros i s Hi. rewrite Hidx. unfold enumerate.
    rewrite (dict_get_enumerate rs 0 i s Hnd Hi). reflexivity.
Qed.

(** C4, as stated, fails: an interpreter that walks the set in slot order
    returns ["A"; "B"] for the list ["B"; "A"; "B"]. *)
Lemma explicit_sources_order_not_kept :
  _get_corpus_sources slot_interp [] (Some ["B"; "A"; "B"])
  = (["A"; "B"], [("A", 0%nat); ("B", 1%nat)])
  /\ _get_corpus_sources slot_interp [] (Some ["B"; "A"; "B"])
     <> (spec_dedup_in_order ["B"; "A"; "B"], [("B", 0%nat); ("A", 1%nat)]).
Proof.
  split; [reflexivity|]. vm_compute. discriminate.
Qed.

(* ------------------------------------------------------------------ *)
(** ** The label list *)

Lemma index_labels_fold (l : list string) (strip : bool) :
  _index_labels l strip = fold_left (index_step strip) l ([], [], []).
Proof. reflexivity. Qed.

Lemma dict_mem_keys {V : Type} (d : dict V) (k : string) :
  dict_mem d k = true <-> In k (dict_keys d).
Proof.
  unfold dict_mem, dict_keys. induction d as [|[k0 v0] d IH]; simpl.
  - split; [discriminate | contradiction].
  - destruct (String.eqb_spec k0 k) as [E|E].
    + split; auto.
    + rewrite IH. split; [auto | intros [H|H]; [contradiction | exact H]].
Qed.

Lemma index_step_keys (strip : bool) (acc : dict nat * set string * set string)
      (label : string) :
  dict_keys (fst (fst (index_step strip acc label))) =
  if dict_mem (fst (fst acc)) (label_key strip label)
  then dict_keys (fst (fst acc))
  else dict_keys (fst (fst acc)) ++ [label_key strip label].
Proof.
  destruct acc as [[d p] w]. unfold index_step, label_key. cbn [fst].
  destruct (split_dash label) as [[pre base]|]; cbn [fst];
    destruct strip; cbn [fst];
    match goal with |- context [dict_mem d ?k] => destruct (dict_mem d k) end;
    unfold dict_keys; rewrite ?map_app; reflexivity.
Qed.

(** Keys stay distinct, the keys already present keep their place, and the
    keys are those present before together with the keys of the labels
    read. *)
Lemma index_fold_keys (strip : bool) (l : list string)
      (acc : dict nat * set string * set string) :
  NoDup (dict_keys (fst (fst acc))) ->
  let keys := dict_keys (fst (fst (fold_left (index_step strip) l acc))) in
  NoDup keys
  /\ (exists tail, keys = dict_keys (fst (fst acc)) ++ tail)
  /\ (forall k, In k keys <->
                In k (dict_keys (fst (fst acc)))
                \/ exists x, In x l /\ label_key strip x = k).
Proof.
  revert acc; induction l as [|x l IH]; intros acc Hnd; cbn [fold_left].
  - split; [exact Hnd|]. split; [exists []; now rewrite app_nil_r|].
    intros k. split; [auto|]. intros [H|[x [[] _]]]. exact H.
  - pose proof (index_step_keys strip acc x) as Hstep.
    assert (Hnd' : NoDup (dict_keys (fst (fst (index_step strip acc x))))).
    { rewrite Hstep.
      destruct (dict_mem (fst (fst acc)) (label_key strip x)) eqn:E; [exact Hnd|].
      apply NoDup_app; [exact Hnd | repeat constructor; intros [] |].
      intros k Hk [Hk'|[]]. subst k.
      apply dict_mem_keys in Hk. congruence. }
    destruct (IH (index_step strip acc x) Hnd') as [H1 [[tail H2] H3]].
    split; [exact H1|]. split.
    + rewrite H2, Hstep.
      destruct (dict_mem (fst (fst acc)) (label_key strip x)).
      * now exists tail.
      * rewrite <- app_assoc. eexists. reflexivity.
    + intros k. rewrite H3, Hstep. split.
      * intros [H|[y [Hy Hk]]].
        -- destruct (dict_mem (fst (fst acc)) (label_key strip x)) eqn:E.
           ++ now left.
           ++ apply in_app_or in H. destruct H as [H|[H|[]]]; [now left|].
              right. exists x. split; [now left | exact H].
        -- right. exists y. split; [now right | exact Hk].
      * intros [H|[y [[E|Hy] Hk]]].
        -- left. destruct (dict_mem (fst (fst acc)) (label_key strip x));
             [exact H | apply in_or_app; now left].
        -- subst y. left.
           destruct (dict_mem (fst (fst acc)) (label_key strip x)) eqn:E.
           ++ apply dict_mem_keys in E. congruence.
           ++ apply in_or_app. right. now left.
        -- right. exists y. auto.
Qed.

Lemma list_mem_In (x : string) (l : list string) :
  list_mem x l = true <-> In x l.
Proof.
  unfold list_mem. rewrite existsb_exists. split.
  - intros [y [Hy E]]. apply String.eqb_eq in E. now subst.
  - intros H. exists x. split; [exact H | apply String.eqb_refl].
Qed.

(** The caller's list once [_get_token_level_labels] has run. *)
Lemma token_level_labels_arg (strict : bool) (l : list string) :
  fst (_get_token_level_labels strict l) =
  if list_mem "O" l then "O" :: list_remove "O" l else "O" :: l.
Proof.
  unfold _get_token_level_labels.
  destruct (list_mem "O" l) eqn:E; cbn [negb].
  - destruct l as [|x l']; [discriminate|].
    destruct (String.eqb_spec x "O") as [->|Hne]; cbn [negb].
    + destruct (_index_labels ("O" :: l') (negb strict)) as [[? ?] ?].
      cbn [fst list_remove]. rewrite String.eqb_refl. reflexivity.
    + destruct (_index_labels _ (negb strict)) as [[? ?] ?]. reflexivity.
  - destruct (_index_labels ("O" :: l) (negb strict)) as [[? ?] ?]. reflexivity.
Qed.

Lemma token_level_labels_result (strict : bool) (l : list string) :
  snd (_get_token_level_labels strict l) =
  let '(label2idx, prefixes, labels_without_prefix) :=
    _index_labels (fst (_get_token_level_labels strict l)) (negb strict) in
  (dict_keys label2idx, label2idx, prefixes, labels_without_prefix).
Proof.
  unfold _get_token_level_labels.
  destruct (negb (list_mem "O" l)).
  - destruct (_index_labels ("O" :: l) (negb strict)) as [[? ?] ?] eqn:E.
    cbn [fst snd]. rewrite E. reflexivity.
  - destruct l as [|x l'].
    + destruct (_index_labels [] (negb strict)) as [[? ?] ?] eqn:E.
      cbn [fst snd]. rewrite E. reflexivity.
    + destruct (negb (String.eqb x "O")).
      * destruct (_index_labels _ (negb strict)) as [[? ?] ?] eqn:E.
        cbn [fst snd]. rewrite E. reflexivity.
      * destruct (_index_labels _ (negb strict)) as [[? ?] ?] eqn:E.
        cbn [fst snd]. rewrite E. reflexivity.
Qed.

Lemma in_list_remove (x y : string) (l : list string) :
  In y (list_remove x l) -> In y l.
Proof.
  induction l as [|z l IH]; simpl; [auto|].
  destruct (String.eqb z x); simpl; intuition.
Qed.

Lemma in_list_remove_other (x y : string) (l : list string) :
  In y l -> y <> x -> In y (list_remove x l).
Proof.
  induction l as [|z l IH]; simpl; [auto|].
  intros [E|H] Hne.
  - subst z. destruct (String.eqb_spec y x); [contradiction | now left].
  - destruct (String.eqb z x); [exact H | right; auto].
Qed.

(** The label list of [_get_token_level_labels]. *)
Lemma token_level_labels_keys (strict : bool) (l : list string) :
  let labels := fst (fst (fst (snd (_get_token_level_labels strict l)))) in
  (exists tl, labels = "O" :: tl)
  /\ NoDup labels
  /\ (forall k, In k labels <->
                k = "O" \/ exists x, In x l /\ label_key (negb strict) x = k).
Proof.
  rewrite token_level_labels_result.
  set (arg := fst (_get_token_level_labels strict l)).
  assert (Harg : exists rest, arg = "O" :: rest
                   /\ (forall y, In y rest -> In y l)
                   /\ (forall y, In y l -> y = "O" \/ In y rest)).
  { unfold arg. rewrite token_level_labels_arg.
    destruct (list_mem "O" l) eqn:E.
    - exists (list_remove "O" l). split; [reflexivity|]. split.
      + intros y. apply in_list_remove.
      + intros y Hy. destruct (string_dec y "O"); [now left|].
        right. now apply in_list_remove_other.
    - exists l. split; [reflexivity|]. split; auto. }
  destruct Harg as [rest [Ea [Hsub Hsup]]]. rewrite Ea.
  rewrite index_labels_fold. cbn [fold_left].
  set (acc1 := index_step (negb strict) ([], [], []) "O").
  assert (Hk1 : dict_keys (fst (fst acc1)) = ["O"]).
  { unfold acc1. rewrite index_step_keys. reflexivity. }
  assert (Hnd1 : NoDup (dict_keys (fst (fst acc1)))).
  { rewrite Hk1. repeat constructor. intros []. }
  destruct (index_fold_keys (negb strict) rest acc1 Hnd1) as [H1 [[tail H2] H3]].
  destruct (fold_left (index_step (negb strict)) rest acc1) as [[d p] w].
  cbn [fst] in *. rewrite Hk1 in *.
  split; [exists tail; exact H2|]. split; [exact H1|].
  intros k. rewrite H3. split.
  - intros [[E|[]]|[x [Hx Hk]]]; [now left|]. right. exists x. auto.
  - intros [E|[x [Hx Hk]]]; [left; now left|].
    destruct (Hsup x Hx) as [E|Hr].
    + subst x. left. left. rewrite <- Hk. reflexivity.
    + right. exists x. auto.
Qed.

(** C5.  The label list that [_get_token_level_labels] returns starts with
    ["O"], holds no label twice (so ["O"] exactly once, also when the input
    lists it several times), is the key list of the returned index, and
    holds ["O"] together with the keys of the labels supplied; the list it
    was given has ["O"] put in front when absent, and its first ["O"] moved
    to the front otherwise. *)
Theorem O_first_without_duplicate :
  forall (strict : bool) (original_labels : list string),
    let r := _get_token_level_labels strict original_labels in
    let labels := fst (fst (fst (snd r))) in
    let label2idx := snd (fst (fst (snd r))) in
    nth_error labels 0 = Some "O"
    /\ NoDup labels
    /\ count_occ string_dec labels "O" = 1%nat
    /\ labels = dict_keys label2idx
    /\ (forall k, In k labels <->
                  k = "O" \/ exists x, In x original_labels
                                       /\ label_key (negb strict) x = k)
    /\ fst r = (if list_mem "O" original_labels
                then "O" :: list_remove "O" original_labels
                else "O" :: original_labels).
Proof.
  intros strict l r labels label2idx.
  destruct (token_level_labels_keys strict l) as [[tl Hhd] [Hnd Hin]].
  fold r in Hhd, Hnd, Hin. fold labels in Hhd, Hnd, Hin.
  split; [rewrite Hhd; reflexivity|].
  split; [exact Hnd|].
  split.
  { apply (proj1 (NoDup_count_occ' string_dec labels) Hnd).
    rewrite Hhd. now left. }
  split.
  { unfold labels, label2idx, r. rewrite token_level_labels_result.
    destruct (_index_labels _ _) as [[? ?] ?]. reflexivity. }
  split; [exact Hin|].
  apply token_level_labels_arg.
Qed.

(** The list handed in is only relieved of its first ["O"]: a second one
    stays in the caller's list, and the index drops it. *)
Example relocation_removes_first_O_only :
  _get_token_level_labels true ["A"; "O"; "O"]
  = (["O"; "A"; "O"],
     (["O"; "A"], [("O", 0%nat); ("A", 1%nat)], [], ["O"; "A"])).
Proof. reflexivity. Qed.

(* ------------------------------------------------------------------ *)
(** ** The constructor *)

Lemma init_arguments_after
      (spans_to_array : Doc -> list string -> dict nat -> set string ->
                        option (set string) -> result ndarray)
      (I : Interp) (corpus : list Doc) (labels : list string)
      (sources : option (list string)) (strict : bool) :
  fst (__init__ spans_to_array I corpus labels sources strict)
  = (corpus, fst (_get_token_level_labels strict labels)).
Proof.
  unfold __init__.
  destruct (_get_corpus_sources I corpus sources) as [s s2].
  destruct (_get_token_level_labels strict labels) as [arg [[[? ?] ?] ?]].
  reflexivity.
Qed.

Lemma O_moved_to_front_same_iff (l : list string) :
  (if list_mem "O" l then "O" :: list_remove "O" l else "O" :: l) = l
  <-> hd_error l = Some "O".
Proof.
  destruct (list_mem "O" l) eqn:E.
  - destruct l as [|x l']; [discriminate|]. simpl.
    destruct (String.eqb_spec x "O") as [->|Hne].
    + split; reflexivity.
    + split; intros H; inversion H; congruence.
  - split.
    + intros H. apply (f_equal (@List.length string)) in H. simpl in H. lia.
    + intros H. destruct l as [|x l']; [discriminate|]. simpl in H.
      inversion H; subst. simpl in E. discriminate.
Qed.

Lemma list_remove_perm (x : string) (l : list string) :
  In x l -> Permutation (x :: list_remove x l) l.
Proof.
  induction l as [|y l IH]; intros H; [contradiction|]. cbn.
  destruct (String.eqb_spec y x) as [->|Hne].
  - apply Permutation_refl.
  - destruct H as [H|H]; [congruence|].
    eapply perm_trans; [apply perm_swap|]. apply perm_skip. auto.
Qed.

Lemma list_remove_split (x : string) (pre post : list string) :
  ~ In x pre -> list_remove x (pre ++ x :: post) = pre ++ post.
Proof.
  induction pre as [|y pre IH]; intros H; cbn.
  - now rewrite String.eqb_refl.
  - destruct (String.eqb_spec y x) as [E|E].
    + exfalso. apply H. now left.
    + rewrite IH; [reflexivity|]. intros Hin. apply H. now right.
Qed.

Lemma list_mem_false (x : string) (l : list string) :
  list_mem x l = false <-> ~ In x l.
Proof.
  rewrite <- list_mem_In. destruct (list_mem x l); split; congruence.
Qed.

(** The label statements leave the corpus alone and leave in the label
    list what the value-level [_get_token_level_labels] computes. *)
Lemma token_level_labels_st_run (strict : bool) (s : caller) :
  _get_token_level_labels_st strict s
  = (mk_caller (arg_corpus s)
               (fst (_get_token_level_labels strict (arg_labels s))),
     Ok (snd (_get_token_level_labels strict (arg_labels s)))).
Proof.
  destruct s as [docs l].
  unfold _get_token_level_labels_st, _get_token_level_labels, st_bind,
    read_labels, labels_insert_front, labels_remove, st_lift, st_ret.
  cbn [arg_labels arg_corpus fst snd].
  destruct (list_mem "O" l) eqn:E; cbn [negb].
  - destruct l as [|x l']; [discriminate|]. cbn [list_getitem nth_error].
    destruct (String.eqb x "O") eqn:Ex; cbn [negb arg_labels arg_corpus].
    + destruct (_index_labels (x :: l') (negb strict)) as [[? ?] ?]. reflexivity.
    + rewrite E. cbn [arg_labels arg_corpus].
      destruct (_index_labels _ (negb strict)) as [[? ?] ?]. reflexivity.
  - cbn [arg_labels arg_corpus].
    destruct (_index_labels ("O" :: l) (negb strict)) as [[? ?] ?]. reflexivity.
Qed.

Lemma st_mapM_frame {A B : Type} (f : A -> stmt B) (xs : list A) (s : caller) :
  (forall x s', fst (f x s') = s') -> fst (st_mapM f xs s) = s.
Proof.
  intros Hf. revert s; induction xs as [|x xs IH]; intros s; [reflexivity|].
  cbn [st_mapM]. unfold st_bind.
  pose proof (Hf x s) as Hx. destruct (f x s) as [s1 [y|e]]; cbn in Hx; subst s1;
    [|reflexivity].
  pose proof (IH s) as Hxs. destruct (st_mapM f xs s) as [s2 [ys|e]]; cbn in Hxs;
    subst s2; reflexivity.
Qed.

(** The caller's objects once [__init__] has run, with a builder that
    leaves them alone. *)
Lemma init_st_state
      (builder : Doc -> list string -> dict nat -> set string ->
                 option (set string) -> stmt ndarray)
      (I : Interp) (wanted : option (list string)) (strict : bool) (s : caller) :
  leaves_caller_unchanged builder ->
  fst (__init___st builder I wanted strict s)
  = mk_caller (arg_corpus s)
              (fst (_get_token_level_labels strict (arg_labels s))).
Proof.
  intros Hb. unfold __init___st, _get_corpus_sources_st.
  unfold st_bind at 1 2 3. unfold read_corpus at 1 2. unfold st_ret at 1.
  unfold st_bind at 1. rewrite token_level_labels_st_run.
  destruct (snd (_get_token_level_labels strict (arg_labels s)))
    as [[[lbls l2i] pf] lwp].
  set (s1 := mk_caller (arg_corpus s)
                       (fst (_get_token_level_labels strict (arg_labels s)))).
  unfold st_bind at 1.
  assert (Hf : fst (_corpus_to_token_array_st builder
                      (fst (_get_corpus_sources I (arg_corpus s) wanted))
                      l2i lwp pf strict s1) = s1).
  { unfold _corpus_to_token_array_st, st_bind, read_corpus.
    pose proof (st_mapM_frame
                  (fun doc => builder doc
                     (fst (_get_corpus_sources I (arg_corpus s) wanted))
                     l2i lwp (if strict then Some pf else None))
                  (arg_corpus s1) s1
                  (fun x s' => Hb x _ _ _ _ s')) as Hm.
    destruct (st_mapM _ (arg_corpus s1) s1) as [s2 [blocks|e]]; cbn in Hm; subst s2;
      reflexivity. }
  destruct (_corpus_to_token_array_st builder _ l2i lwp pf strict s1)
    as [s2 [M|e]]; cbn in Hf; subst s2; [|reflexivity].
  unfold st_bind, st_lift, st_ret.
  destruct (_get_row_indices_with_labels M); reflexivity.
Qed.

Lemma st_mapM_pure {A B : Type} (f : A -> result B) (xs : list A) (s : caller) :
  st_mapM (fun x s' => (s', f x)) xs s = (s, mapM f xs).
Proof.
  revert s; induction xs as [|x xs IH]; intros s; [reflexivity|].
  cbn [st_mapM mapM]. unfold st_bind. destruct (f x) as [y|e]; cbn [bind];
    [|reflexivity].
  rewrite IH. destruct (mapM f xs); reflexivity.
Qed.

(** With a builder without effect, the statement-level constructor leaves
    the caller's objects and returns the engine (or exception) that the
    value-level [__init__] describes. *)
Lemma init_st_agrees
      (builder : Doc -> list string -> dict nat -> set string ->
                 option (set string) -> result ndarray)
      (I : Interp) (docs : list Doc) (given : list string)
      (wanted : option (list string)) (strict : bool) :
  __init___st (pure_builder builder) I wanted strict (mk_caller docs given)
  = (mk_caller (fst (fst (__init__ builder I docs given wanted strict)))
               (snd (fst (__init__ builder I docs given wanted strict))),
     snd (__init__ builder I docs given wanted strict)).
Proof.
  rewrite init_arguments_after. cbn [fst snd].
  unfold __init___st, _get_corpus_sources_st, __init__.
  unfold st_bind at 1 2 3. unfold read_corpus at 1 2. unfold st_ret at 1.
  unfold st_bind at 1. rewrite token_level_labels_st_run.
  cbn [arg_corpus arg_labels].
  destruct (_get_corpus_sources I docs wanted) as [srcs s2].
  destruct (_get_token_level_labels strict given) as [arg [[[lbls l2i] pf] lwp]].
  cbn [fst snd].
  unfold st_bind at 1. unfold _corpus_to_token_array_st, _corpus_to_token_array.
  unfold st_bind at 1 2. unfold read_corpus. cbn [arg_corpus].
  unfold pure_builder. rewrite st_mapM_pure.
  destruct (mapM _ docs) as [blocks|e]; cbn [bind]; [|reflexivity].
  unfold st_lift at 1.
  destruct (np_concatenate blocks) as [M|e]; cbn [bind]; [|reflexivity].
  unfold st_bind, st_lift, st_ret.
  destruct (_get_row_indices_with_labels M); reflexivity.
Qed.

(** C9.  When [__init__] has run, whether it returned an engine or raised
    (and provided the block builder leaves the caller's objects alone), the
    corpus argument holds what it held and the label argument has been
    updated in place: with ["O"] absent it holds ["O"] followed by the
    labels passed; with ["O"] present, the first ["O"] has moved to the
    front and the other labels follow in their order, so the list is a
    rearrangement of the one passed; it starts with ["O"] in every case and
    equals the list passed only when that list already started with
    ["O"]. *)
Theorem constructor_updates_caller_labels :
  forall (builder : Doc -> list string -> dict nat -> set string ->
                    option (set string) -> stmt ndarray)
         (I : Interp) (wanted : option (list string)) (strict : bool)
         (s : caller),
    leaves_caller_unchanged builder ->
    let after := fst (__init___st builder I wanted strict s) in
    arg_corpus after = arg_corpus s
    /\ (~ In "O" (arg_labels s) -> arg_labels after = "O" :: arg_labels s)
    /\ (forall pre post,
           ~ In "O" pre -> arg_labels s = pre ++ "O" :: post ->
           arg_labels after = "O" :: pre ++ post)
    /\ (In "O" (arg_labels s) ->
        Permutation (arg_labels after) (arg_labels s))
    /\ (arg_labels after = arg_labels s <-> hd_error (arg_labels s) = Some "O")
    /\ hd_error (arg_labels after) = Some "O".
Proof.
  intros builder I wanted strict s Hb after. unfold after.
  rewrite (init_st_state builder I wanted strict s Hb). cbn [arg_corpus arg_labels].
  rewrite token_level_labels_arg.
  split; [reflexivity|]. split; [|split; [|split; [|split]]].
  - intros H. apply list_mem_false in H. rewrite H. reflexivity.
  - intros pre post Hpre E.
    assert (Hin : list_mem "O" (arg_labels s) = true).
    { apply list_mem_In. rewrite E. apply in_or_app. right. now left. }
    rewrite Hin, E, list_remove_split by exact Hpre. reflexivity.
  - intros H. pose proof H as Hm. apply list_mem_In in Hm. rewrite Hm.
    apply list_remove_perm. exact H.
  - apply O_moved_to_front_same_iff.
  - destruct (list_mem "O" (arg_labels s)); reflexivity.
Qed.

Lemma constructor_updates_caller_labels_witness :
  let after := fst (__init___st (pure_builder spans_to_array_model) slot_interp
                      (Some ["LF1"; "LF2"]) false
                      (mk_caller [doc_a; doc_b] ["PER"; "O"; "ORG"; "O"])) in
  arg_corpus after = [doc_a; doc_b]
  /\ (~ In "O" ["PER"; "O"; "ORG"; "O"] ->
      arg_labels after = "O" :: ["PER"; "O"; "ORG"; "O"])
  /\ (forall pre post,
         ~ In "O" pre -> ["PER"; "O"; "ORG"; "O"] = pre ++ "O" :: post ->
         arg_labels after = "O" :: pre ++ post)
  /\ (In "O" ["PER"; "O"; "ORG"; "O"] ->
      Permutation (arg_labels after) ["PER"; "O"; "ORG"; "O"])
  /\ (arg_labels after = ["PER"; "O"; "ORG"; "O"] <->
      hd_error ["PER"; "O"; "ORG"; "O"] = Some "O")
  /\ hd_error (arg_labels after) = Some "O".
Proof.
  apply (constructor_updates_caller_labels (pure_builder spans_to_array_model)
           slot_interp (Some ["LF1"; "LF2"]) false
           (mk_caller [doc_a; doc_b] ["PER"; "O"; "ORG"; "O"])).
  intros doc srcs l2i lwp pfx s. reflexivity.
Defined.

(** The caller's list on that input: the first ["O"] has moved, the second
    one stays where it was. *)
Example caller_labels_after_construction :
  arg_labels (fst (__init___st (pure_builder spans_to_array_model) slot_interp
                     (Some ["LF1"; "LF2"]) false
                     (mk_caller [doc_a; doc_b] ["PER"; "O"; "ORG"; "O"])))
  = ["O"; "PER"; "ORG"; "O"].
Proof. reflexivity. Qed.

(** C10.  Over an empty corpus the matrix builder is handed zero blocks,
    which [np.concatenate] rejects; [__init__] raises that error and returns
    no engine, whatever the labels, the sources and the matching mode. *)
Theorem empty_corpus_is_rejected :
  forall (spans_to_array : Doc -> list string -> dict nat -> set string ->
                           option (set string) -> result ndarray)
         (I : Interp) (given : list string)
         (wanted : option (list string)) (strict : bool),
    (forall srcs l2i lwp pfx,
        _corpus_to_token_array spans_to_array [] srcs l2i lwp pfx strict
        = Raise ValueError)
    /\ snd (__init__ spans_to_array I [] given wanted strict) = Raise ValueError
    /\ (forall e, snd (__init__ spans_to_array I [] given wanted strict) <> Ok e).
Proof.
  intros spans_to_array I given wanted strict.
  assert (H : snd (__init__ spans_to_array I [] given wanted strict)
              = Raise ValueError).
  { unfold __init__.
    destruct (_get_corpus_sources I [] wanted) as [s s2].
    destruct (_get_token_level_labels strict given) as [arg [[[? ?] ?] ?]].
    reflexivity. }
  split; [reflexivity|]. split; [exact H|].
  intros e. rewrite H. discriminate.
Qed.

(* ------------------------------------------------------------------ *)
(** ** The matrix builder *)

Lemma corpus_to_token_array_one
      (spans_to_array : Doc -> list string -> dict nat -> set string ->
                        option (set string) -> result ndarray)
      (sources : list string) (label2idx : dict nat)
      (lwp prefixes : set string) (strict : bool) (A : Doc) (M : ndarray) :
  _corpus_to_token_array spans_to_array [A] sources label2idx lwp prefixes strict
  = Ok M ->
  spans_to_array A sources label2idx lwp (if strict then Some prefixes else None)
  = Ok M.
Proof.
  unfold _corpus_to_token_array. cbn [mapM].
  destruct (spans_to_array A sources label2idx lwp _) as [b|e]; cbn [bind];
    [|discriminate].
  unfold np_concatenate. cbn. rewrite app_nil_r. destruct b. cbn.
  intros H. inversion H. reflexivity.
Qed.

(** C6.  With the same sources, labels and matching mode, when the matrix of
    the corpus [A] alone is [MA] and that of [B] alone is [MB] (of the same
    width), the matrix of the corpus [A; B] has the rows of [MA] followed by
    the rows of [MB]. *)
Theorem two_document_matrix_is_stacked :
  forall (spans_to_array : Doc -> list string -> dict nat -> set string ->
                           option (set string) -> result ndarray)
         (sources : list string) (label2idx : dict nat)
         (lwp prefixes : set string) (strict : bool)
         (A B : Doc) (MA MB : ndarray),
    _corpus_to_token_array spans_to_array [A] sources label2idx lwp prefixes strict
    = Ok MA ->
    _corpus_to_token_array spans_to_array [B] sources label2idx lwp prefixes strict
    = Ok MB ->
    shape1 MA = shape1 MB ->
    _corpus_to_token_array spans_to_array [A; B] sources label2idx lwp prefixes
                           strict
    = Ok (mk_ndarray (shape1 MA) (data MA ++ data MB)).
Proof.
  intros spans_to_array sources label2idx lwp prefixes strict A B MA MB HA HB Hw.
  apply corpus_to_token_array_one in HA.
  apply corpus_to_token_array_one in HB.
  unfold _corpus_to_token_array. cbn [mapM]. rewrite HA, HB. cbn [bind].
  unfold np_concatenate. cbn [forallb map List.concat].
  rewrite <- Hw, Nat.eqb_refl. cbn [andb]. rewrite app_nil_r. reflexivity.
Qed.

Lemma two_document_matrix_is_stacked_witness :
  _corpus_to_token_array spans_to_array_model [doc_a; doc_b] ["LF1"; "LF2"]
    [("O", 0%nat); ("PER", 1%nat); ("ORG", 2%nat)] ["O"; "PER"; "ORG"] [] false
  = Ok (mk_ndarray 2 ([[1; 2]; [1; 0]; [0; 0]] ++ [[1; 1]; [0; 0]])).
Proof.
  apply (two_document_matrix_is_stacked spans_to_array_model ["LF1"; "LF2"]
           [("O", 0%nat); ("PER", 1%nat); ("ORG", 2%nat)] ["O"; "PER"; "ORG"] []
           false doc_a doc_b
           (mk_ndarray 2 [[1; 2]; [1; 0]; [0; 0]])
           (mk_ndarray 2 [[1; 1]; [0; 0]])); reflexivity.
Defined.

(* ------------------------------------------------------------------ *)
(** ** Zero denominators *)

Lemma ratio_cells_finite (a b : list Z) :
  forallb finite (map np_nan_to_num (zip_with np_divide a b)) = true.
Proof.
  apply forallb_forall. intros c Hc. apply in_map_iff in Hc.
  destruct Hc as [c' [<- _]]. destruct c'; reflexivity.
Qed.

(** C1.  The aggregated coverage of a source that labels no token is [nan]:
    its count of labelled tokens and the count of tokens covered by its
    (empty) set of target labels are both 0, and the quotient is not passed
    through [nan_to_num], while the aggregated overlap and conflict of the
    same source are 0. *)
Theorem aggregated_coverage_of_idle_source_is_nan :
  wf_engine idle_source_engine = true
  /\ L idle_source_engine = mk_ndarray 2 [[1; 0]]
  /\ lf_target_labels idle_source_engine = Ok [("LF1", [1]); ("LF2", [])]
  /\ lf_coverages idle_source_engine true
     = Ok (mk_DataFrame [Pos 0] ["LF1"; "LF2"] [[Fin 1; NaN]])
  /\ lf_overlaps idle_source_engine true
     = Ok (mk_DataFrame [Pos 0] ["LF1"; "LF2"] [[Fin 0; Fin 0]])
  /\ lf_conflicts idle_source_engine true
     = Ok (mk_DataFrame [Pos 0] ["LF1"; "LF2"] [[Fin 0; Fin 0]]).
Proof.
  repeat split; vm_compute; reflexivity.
Qed.

(* ------------------------------------------------------------------ *)
(** ** Engines returned by the constructor are well formed *)

Lemma dict_get_in {V : Type} (d : dict V) (k : string) (v : V) :
  dict_get d k = Some v -> In (k, v) d.
Proof.
  induction d as [|[k0 v0] d IH]; simpl; [discriminate|].
  destruct (String.eqb_spec k0 k) as [->|Hne].
  - intros E. inversion E. now left.
  - intros E. right. auto.
Qed.

Lemma index_step_bound (strip : bool) (acc : dict nat * set string * set string)
      (label : string) :
  (forall p, In p (fst (fst acc)) -> (snd p < List.length (fst (fst acc)))%nat) ->
  forall p, In p (fst (fst (index_step strip acc label))) ->
            (snd p < List.length (fst (fst (index_step strip acc label))))%nat.
Proof.
  destruct acc as [[d pf] w]. unfold index_step. cbn [fst]. intros H.
  destruct (split_dash label) as [[pre base]|]; cbn [fst];
    match goal with |- context [dict_mem d ?k] => destruct (dict_mem d k) end;
    try exact H;
    intros p Hp; rewrite length_app; simpl;
    apply in_app_or in Hp; destruct Hp as [Hp|[<-|[]]];
    try (apply H in Hp; lia); simpl; lia.
Qed.

Lemma index_fold_bound (strip : bool) (l : list string)
      (acc : dict nat * set string * set string) :
  (forall p, In p (fst (fst acc)) -> (snd p < List.length (fst (fst acc)))%nat) ->
  forall p, In p (fst (fst (fold_left (index_step strip) l acc))) ->
            (snd p < List.length (fst (fst (fold_left (index_step strip) l acc))))%nat.
Proof.
  revert acc; induction l as [|x l IH]; intros acc H; cbn [fold_left]; [exact H|].
  apply IH. apply index_step_bound. exact H.
Qed.

Lemma token_level_labels_bound (strict : bool) (l : list string) (k : string) (i : nat) :
  dict_get (snd (fst (fst (snd (_get_token_level_labels strict l))))) k = Some i ->
  (i < List.length (fst (fst (fst (snd (_get_token_level_labels strict l))))))%nat.
Proof.
  rewrite token_level_labels_result.
  pose proof (index_fold_bound (negb strict)
                (fst (_get_token_level_labels strict l)) ([], [], [])) as Hb.
  rewrite <- index_labels_fold in Hb.
  destruct (_index_labels _ _) as [[d p] w]. cbn [fst snd] in *.
  intros Hg. apply dict_get_in in Hg.
  unfold dict_keys. rewrite length_map.
  apply (Hb (fun q Hq => match Hq with end) (k, i) Hg).
Qed.

Lemma mapM_inv {A B : Type} (f : A -> result B) (xs : list A) (ys : list B) :
  mapM f xs = Ok ys ->
  List.length ys = List.length xs
  /\ forall y, In y ys -> exists x, In x xs /\ f x = Ok y.
Proof.
  revert ys; induction xs as [|x xs IH]; intros ys; simpl.
  - intros E. inversion E. split; [reflexivity | contradiction].
  - destruct (f x) as [y|e] eqn:Ef; simpl; [|discriminate].
    destruct (mapM f xs) as [ys'|e]; simpl; [|discriminate].
    intros E. inversion E; subst. destruct (IH ys' eq_refl) as [Hl Hy].
    split; [simpl; now rewrite Hl|].
    intros y' [<-|Hin].
    + exists x. auto.
    + destruct (Hy y' Hin) as [x' [Hx' Hf]]. exists x'. auto.
Qed.

Lemma np_concatenate_inv (blocks : list ndarray) (a : ndarray) :
  np_concatenate blocks = Ok a ->
  exists b bs, blocks = b :: bs
               /\ shape1 a = shape1 b
               /\ (forall b', In b' blocks -> shape1 b' = shape1 a)
               /\ data a = List.concat (map data blocks).
Proof.
  unfold np_concatenate. destruct blocks as [|b bs]; [discriminate|].
  destruct (forallb _ bs) eqn:E; [|discriminate].
  intros H. inversion H; subst. cbn [shape1 data].
  exists b, bs. repeat split; auto.
  intros b' [<-|Hin]; [reflexivity|].
  rewrite forallb_forall in E. apply Nat.eqb_eq. auto.
Qed.

(** Every engine that [__init__] returns satisfies [wf_engine], whatever the
    arguments, as long as the blocks come from a builder that meets
    [builder_contract]. *)
Lemma init_wf_engine
      (spans_to_array : Doc -> list string -> dict nat -> set string ->
                        option (set string) -> result ndarray)
      (I : Interp) (corpus : list Doc) (given : list string)
      (wanted : option (list string)) (strict : bool) (e : LFAnalysis) :
  builder_contract spans_to_array ->
  snd (__init__ spans_to_array I corpus given wanted strict) = Ok e ->
  wf_engine e = true.
Proof.
  intros Hc.
  pose proof (token_level_labels_keys strict given) as Hkeys.
  pose proof (token_level_labels_bound strict given) as Hbound.
  unfold __init__.
  destruct (_get_corpus_sources I corpus wanted) as [srcs s2].
  destruct (_get_token_level_labels strict given) as [arg [[[lbls l2i] pf] lwp]].
  cbn [fst snd] in *.
  destruct Hkeys as [[tl Hhd] [Hnd _]].
  destruct (_corpus_to_token_array spans_to_array corpus srcs l2i lwp pf strict)
    as [M|] eqn:EM; cbn [bind]; [|discriminate].
  destruct (_get_row_indices_with_labels M) as [lri|] eqn:Elri; cbn [bind];
    [|discriminate].
  intros E. inversion E; subst e. clear E.
  unfold _corpus_to_token_array in EM.
  destruct (mapM _ corpus) as [blocks|] eqn:Eb; cbn [bind] in EM; [|discriminate].
  destruct (mapM_inv _ _ _ Eb) as [_ Hblocks].
  destruct (np_concatenate_inv _ _ EM) as [b [bs [Ebs [Hs1 [Hall Hdata]]]]].
  assert (Hblock : forall b', In b' blocks ->
            rectangular b' = true /\ shape1 b' = List.length srcs
            /\ forall x, In x (ravel b') -> 0 <= x < Z.of_nat (List.length lbls)).
  { intros b' Hb'. destruct (Hblocks b' Hb') as [doc [_ Hf]].
    destruct (Hc _ _ _ _ _ _ Hf) as [Hr [Hw Hx]].
    split; [exact Hr|]. split; [exact Hw|].
    intros x Hin. destruct (Hx x Hin) as [->|[k [i [Hg ->]]]].
    - rewrite Hhd. simpl. lia.
    - apply Hbound in Hg. lia. }
  assert (Hrect : rectangular M = true).
  { unfold rectangular. rewrite Hdata. apply forallb_forall. intros r Hr.
    apply in_concat in Hr. destruct Hr as [rows [Hrows Hr]].
    apply in_map_iff in Hrows. destruct Hrows as [b' [<- Hb']].
    destruct (Hblock b' Hb') as [Hrb _]. unfold rectangular in Hrb.
    rewrite forallb_forall in Hrb. rewrite <- (Hall b' Hb'). auto. }
  assert (Hsize : size M <> 0%nat).
  { unfold _get_row_indices_with_labels, np_max in Elri.
    destruct (ravel M) as [|x0 flat] eqn:Er; [discriminate|].
    unfold size, shape0. rewrite <- (length_concat_rect _ _ Hrect).
    fold (ravel M). rewrite Er. discriminate. }
  assert (Hrange : entries_in_range (List.length lbls) M = true).
  { unfold entries_in_range. rewrite Hdata.
    apply forallb_forall. intros r Hr. apply forallb_forall. intros x Hx.
    apply in_concat in Hr. destruct Hr as [rows [Hrows Hr]].
    apply in_map_iff in Hrows. destruct Hrows as [b' [<- Hb']].
    destruct (Hblock b' Hb') as [_ [_ Hrg]].
    assert (Hin : In x (ravel b')).
    { unfold ravel. apply in_concat. exists r. auto. }
    specialize (Hrg x Hin). apply andb_true_iff. split.
    - apply Z.leb_le. lia.
    - apply Z.ltb_lt. lia. }
  unfold wf_engine. cbn [L labels sources _L_sparse label_row_indices].
  rewrite Hrect, Hrange, Elri. cbn [andb].
  apply Nat.eqb_neq in Hsize. rewrite Hsize. cbn [negb andb].
  unfold csr_matrix, same_array. rewrite Nat.eqb_refl.
  destruct (list_eq_dec (list_eq_dec Z.eq_dec) (data M) (data M)); [|congruence].
  cbn [andb].
  assert (Hw : shape1 M = List.length srcs).
  { rewrite Hs1. apply (Hblock b). rewrite Ebs. now left. }
  rewrite Hw, Nat.eqb_refl. cbn [andb].
  rewrite Hhd. rewrite String.eqb_refl. cbn [andb].
  unfold no_repeat. rewrite <- Hhd.
  rewrite (nodup_fixed_point string_dec Hnd).
  destruct (list_eq_dec string_dec lbls lbls); [|congruence].
  destruct (list_eq_dec (list_eq_dec Nat.eq_dec) lri lri); [|congruence].
  reflexivity.
Qed.

Lemma spans_to_array_model_contract : builder_contract spans_to_array_model.
Proof.
  intros doc srcs l2i lwp pfx b E. unfold spans_to_array_model in E.
  inversion E; subst b; clear E. cbn [rectangular shape1 data ravel].
  split; [|split; [reflexivity|]].
  - apply forallb_forall. intros r Hr. apply in_map_iff in Hr.
    destruct Hr as [t [<- _]]. rewrite length_map. apply Nat.eqb_refl.
  - intros x Hx. apply in_concat in Hx. destruct Hx as [r [Hr Hx]].
    apply in_map_iff in Hr. destruct Hr as [t [<- _]].
    apply in_map_iff in Hx. destruct Hx as [s [<- _]].
    destruct (dict_get (spans doc) s) as [sps|]; [|now left].
    destruct (find _ sps) as [sp|]; [|now left].
    match goal with |- context [dict_get l2i ?k] =>
      destruct (dict_get l2i k) as [i|] eqn:Eg; [|now left];
      right; exists k, i; auto end.
Qed.

(* ------------------------------------------------------------------ *)
(** ** Further facts on the indicator vectors *)

Lemma sum_nonneg_zero_iff (r : list Z) :
  (forall x, In x r -> 0 <= x) ->
  0 <= sum_Z r /\ (sum_Z r = 0 <-> nonzero_count r = 0%nat).
Proof.
  unfold nonzero_count.
  induction r as [|x r IH]; intros Hpos; simpl.
  - split; [lia | split; reflexivity].
  - destruct IH as [IH1 IH2]; [intros y Hy; apply Hpos; now right|].
    assert (Hx : 0 <= x) by (apply Hpos; now left).
    fold (sum_Z r). split; [lia|].
    destruct (Z.eqb_spec x 0) as [->|Hne]; simpl.
    + rewrite <- IH2. lia.
    + split; [lia | discriminate].
Qed.

Lemma covered_data_points_eq (self : LFAnalysis) :
  wf_engine self = true ->
  _covered_data_points self =
  map (fun r => if Nat.ltb 0 (nonzero_count r) then 1 else 0) (data (L self)).
Proof.
  intros Hwf.
  destruct (wf_engine_facts self Hwf) as (_ & _ & Hrange & Hsp & _).
  unfold _covered_data_points, sum_axis1. rewrite Hsp, map_map.
  apply map_ext_in. intros r Hr. apply In_nth_error in Hr. destruct Hr as [i Hi].
  destruct (sum_nonneg_zero_iff r) as [_ Hz].
  { intros x Hx. apply (entries_nonneg _ _ _ _ Hrange Hi x Hx). }
  destruct (Z.eqb_spec (sum_Z r) 0) as [E|E]; simpl.
  - apply Hz in E. rewrite E. reflexivity.
  - destruct (Nat.ltb_spec 0 (nonzero_count r)) as [H|H]; [reflexivity|].
    exfalso. apply E, Hz. lia.
Qed.

(** X1.  On an engine, [_covered_data_points] gives one flag per matrix row:
    1 when the row has at least one nonzero entry, 0 when all its entries
    are 0. *)
Theorem covered_iff_some_nonzero_entry :
  forall self : LFAnalysis,
    wf_engine self = true ->
    List.length (_covered_data_points self) = shape0 (L self)
    /\ forall i r,
        nth_error (data (L self)) i = Some r ->
        (nth_error (_covered_data_points self) i = Some 1 <->
         exists x, In x r /\ x <> 0)
        /\ (nth_error (_covered_data_points self) i = Some 0 <->
            forall x, In x r -> x = 0).
Proof.
  intros self Hwf. rewrite (covered_data_points_eq self Hwf).
  split; [unfold shape0; apply length_map|].
  intros i r Hr. rewrite (map_nth_error _ _ _ Hr).
  assert (Hc : (0 < nonzero_count r)%nat <-> exists x, In x r /\ x <> 0).
  { unfold nonzero_count. split.
    - intros H. destruct (filter _ r) as [|x l] eqn:E; [simpl in H; lia|].
      assert (Hin : In x (filter (fun x => negb (x =? 0)) r))
        by (rewrite E; now left).
      apply filter_In in Hin. destruct Hin as [Hin Hx].
      exists x. split; [exact Hin|]. apply negb_true_iff, Z.eqb_neq in Hx. exact Hx.
    - intros [x [Hin Hx]].
      assert (Hf : In x (filter (fun x => negb (x =? 0)) r)).
      { apply filter_In. split; [exact Hin|]. now apply negb_true_iff, Z.eqb_neq. }
      destruct (filter _ r); [contradiction | simpl; lia]. }
  destruct (Nat.ltb_spec 0 (nonzero_count r)) as [H|H].
  - split.
    + split; [intros _; apply Hc; exact H | reflexivity].
    + split; [discriminate|]. intros Hall. exfalso.
      destruct (proj1 Hc H) as [x [Hin Hx]]. apply Hx. auto.
  - split.
    + split; [discriminate|]. intros Hex. apply Hc in Hex. lia.
    + split; [|reflexivity]. intros _ x Hin.
      destruct (Z.eq_dec x 0) as [E|E]; [exact E|].
      exfalso. assert ((0 < nonzero_count r)%nat) by (apply Hc; eauto). lia.
Qed.

Lemma covered_iff_some_nonzero_entry_witness :
  List.length (_covered_data_points demo_engine) = shape0 (L demo_engine)
  /\ forall i r,
      nth_error (data (L demo_engine)) i = Some r ->
      (nth_error (_covered_data_points demo_engine) i = Some 1 <->
       exists x, In x r /\ x <> 0)
      /\ (nth_error (_covered_data_points demo_engine) i = Some 0 <->
          forall x, In x r -> x = 0).
Proof.
  apply (covered_iff_some_nonzero_entry demo_engine).
  vm_compute. reflexivity.
Defined.

(** X2.  On an engine, for every row the conflict flag is at most the
    overlap flag, which is at most the coverage flag: a conflicted token is
    overlapped and an overlapped token is covered. *)
Theorem conflict_implies_overlap_implies_coverage :
  forall self : LFAnalysis,
    wf_engine self = true ->
    exists c,
      _conflicted_data_points self = Ok c
      /\ forall i, (i < shape0 (L self))%nat ->
           exists ci oi ki,
             nth_error c i = Some ci
             /\ nth_error (_overlapped_data_points self) i = Some oi
             /\ nth_error (_covered_data_points self) i = Some ki
             /\ 0 <= ci <= oi /\ oi <= ki <= 1.
Proof.
  intros self Hwf.
  destruct (wf_engine_facts self Hwf) as (_ & _ & _ & Hsp & _).
  exists (map row_conflict (data (L self))).
  split; [apply conflicted_on_engine; exact Hwf|].
  intros i Hi. unfold shape0 in Hi.
  destruct (nth_error (data (L self)) i) as [r|] eqn:Hr;
    [|apply nth_error_None in Hr; lia].
  rewrite overlapped_data_points_eq, Hsp, (covered_data_points_eq self Hwf).
  rewrite !(map_nth_error _ _ _ Hr).
  do 3 eexists. split; [reflexivity|]. split; [reflexivity|].
  split; [reflexivity|].
  assert (Hpos : forall x, In x r -> 0 <= x).
  { intros x Hx. apply (engine_row_nonneg self i r Hwf Hr x Hx). }
  destruct (row_conflict_distinct r Hpos) as [H1 H0].
  destruct (row_conflict_max r) as [_ H01].
  destruct (Z.ltb_spec 1 (Z.of_nat (nonzero_count r))) as [Ho|Ho];
    destruct (Nat.ltb_spec 0 (nonzero_count r)) as [Hk|Hk];
    cbv beta iota; try lia;
    (destruct H01 as [E|E]; [rewrite E; lia|];
     apply H1, distinct_pair_count in E; lia).
Qed.

Lemma conflict_implies_overlap_implies_coverage_witness :
  exists c,
    _conflicted_data_points demo_engine = Ok c
    /\ forall i, (i < shape0 (L demo_engine))%nat ->
         exists ci oi ki,
           nth_error c i = Some ci
           /\ nth_error (_overlapped_data_points demo_engine) i = Some oi
           /\ nth_error (_covered_data_points demo_engine) i = Some ki
           /\ 0 <= ci <= oi /\ oi <= ki <= 1.
Proof.
  apply (conflict_implies_overlap_implies_coverage demo_engine).
  vm_compute. reflexivity.
Defined.

Lemma covered_by_label_eq (self : LFAnalysis) (v : Z) :
  wf_engine self = true ->
  _covered_by_label self v =
  Ok (map (fun r => bool_to_Z (existsb (fun x => x =? v) r)) (data (L self))).
Proof.
  intros Hwf.
  destruct (wf_engine_facts self Hwf) as (_ & Hsize & _ & Hsp & _).
  unfold _covered_by_label, max_axis1, eq_scalar. rewrite Hsp.
  apply size_nonzero_shape1, Nat.eqb_neq in Hsize. rewrite Hsize.
  f_equal. rewrite map_map. apply map_ext. intros r.
  set (flags := map (fun x => bool_to_Z (x =? v)) r).
  assert (Hf : forall y, In y flags -> y = 0 \/ y = 1).
  { intros y Hy. unfold flags in Hy. apply in_map_iff in Hy.
    destruct Hy as [x [<- _]]. destruct (x =? v); simpl; auto. }
  destruct (list_max_flags flags Hf) as [H1 H01].
  destruct (existsb (fun x => x =? v) r) eqn:E; simpl.
  - apply H1. apply existsb_exists in E. destruct E as [x [Hx Hv]].
    unfold flags. apply in_map_iff. exists x. rewrite Hv. auto.
  - destruct H01 as [H0|H1']; [exact H0|]. exfalso.
    apply H1 in H1'. unfold flags in H1'. apply in_map_iff in H1'.
    destruct H1' as [x [Hb Hx]].
    assert (Ex : existsb (fun x => x =? v) r = true).
    { apply existsb_exists. exists x. split; [exact Hx|].
      destruct (x =? v); [reflexivity | discriminate]. }
    congruence.
Qed.

(** X3.  On an engine, [_covered_by_label] returns one flag per matrix row,
    1 when the label value occurs in some column of the row and 0 when it
    does not; for a label index the rows flagged 1 are exactly the rows
    listed in the cached row index of that label. *)
Theorem covered_by_label_iff_value_in_row :
  forall (self : LFAnalysis) (v : Z),
    wf_engine self = true ->
    exists z,
      _covered_by_label self v = Ok z
      /\ List.length z = shape0 (L self)
      /\ (forall i r,
             nth_error (data (L self)) i = Some r ->
             (nth_error z i = Some 1 <-> In v r)
             /\ (nth_error z i = Some 0 <-> ~ In v r))
      /\ (forall (n i : nat),
             v = Z.of_nat n ->
             (nth_error z i = Some 1 <->
              In i (nth n (label_row_indices self) []))).
Proof.
  intros self v Hwf.
  exists (map (fun r => bool_to_Z (existsb (fun x => x =? v) r)) (data (L self))).
  split; [apply covered_by_label_eq; exact Hwf|].
  split; [unfold shape0; apply length_map|].
  assert (Hrow : forall i r,
             nth_error (data (L self)) i = Some r ->
             (nth_error (map (fun r => bool_to_Z (existsb (fun x => x =? v) r))
                             (data (L self))) i = Some 1 <-> In v r)
             /\ (nth_error (map (fun r => bool_to_Z (existsb (fun x => x =? v) r))
                                (data (L self))) i = Some 0 <-> ~ In v r)).
  { intros i r Hr. rewrite (map_nth_error _ _ _ Hr).
    destruct (existsb (fun x => x =? v) r) eqn:E; simpl.
    - apply existsb_exists in E. destruct E as [x [Hx Hv]].
      apply Z.eqb_eq in Hv. subst x.
      split; split; auto; [discriminate | contradiction].
    - assert (Hn : ~ In v r).
      { intros Hin. assert (existsb (fun x => x =? v) r = true).
        { apply existsb_exists. exists v. split; [exact Hin | apply Z.eqb_refl]. }
        congruence. }
      split; split; auto; [discriminate | contradiction]. }
  split; [exact Hrow|].
  intros n i Hv. rewrite (engine_row_indices_spec self n i Hwf). subst v. split.
  - intros H.
    destruct (nth_error (data (L self)) i) as [r|] eqn:Hr.
    + exists r. split; [reflexivity|]. apply (Hrow i r Hr). exact H.
    + rewrite nth_error_map, Hr in H. discriminate.
  - intros [r [Hr Hin]]. apply (Hrow i r Hr). exact Hin.
Qed.

Lemma covered_by_label_iff_value_in_row_witness :
  exists z,
    _covered_by_label demo_engine 1 = Ok z
    /\ List.length z = shape0 (L demo_engine)
    /\ (forall i r,
           nth_error (data (L demo_engine)) i = Some r ->
           (nth_error z i = Some 1 <-> In 1 r)
           /\ (nth_error z i = Some 0 <-> ~ In 1 r))
    /\ (forall (n i : nat),
           1 = Z.of_nat n ->
           (nth_error z i = Some 1 <->
            In i (nth n (label_row_indices demo_engine) []))).
Proof.
  apply (covered_by_label_iff_value_in_row demo_engine 1).
  vm_compute. reflexivity.
Defined.

Lemma sum_flags_count {A : Type} (p : A -> bool) (l : list A) :
  sum_Z (map (fun x => bool_to_Z (p x)) l) = Z.of_nat (List.length (filter p l)).
Proof.
  induction l as [|x l IH]; [reflexivity|].
  cbn [map sum_Z fold_right filter].
  fold (sum_Z (map (fun x => bool_to_Z (p x)) l)). rewrite IH.
  destruct (p x); cbn [bool_to_Z List.length]; lia.
Qed.

Lemma nth_seq_map {A : Type} (f : nat -> A) (n j : nat) :
  (j < n)%nat -> nth_error (map f (seq 0 n)) j = Some (f j).
Proof.
  intros H. apply map_nth_error.
  rewrite nth_error_nth' with (d := 0%nat) by (rewrite length_seq; exact H).
  rewrite seq_nth by exact H. reflexivity.
Qed.

(** In a rectangle, column [j] of the matrix of flags [p x] counts the rows
    whose entry in column [j] satisfies [p]. *)
Lemma column_of_flags_sum (p : Z -> bool) (j : nat) (a : ndarray) :
  rectangular a = true -> (j < shape1 a)%nat ->
  sum_Z (column j (map (map (fun x => bool_to_Z (p x))) (data a)))
  = Z.of_nat (column_count p j a).
Proof.
  intros Hrect Hj. unfold column, column_count. rewrite map_map.
  rewrite <- sum_flags_count. f_equal. apply map_ext_in. intros r Hr.
  unfold rectangular in Hrect. rewrite forallb_forall in Hrect.
  specialize (Hrect r Hr). apply Nat.eqb_eq in Hrect.
  rewrite nth_indep with (d' := bool_to_Z (p 0)) by (rewrite length_map; lia).
  apply (map_nth (fun x => bool_to_Z (p x)) r 0 j).
Qed.

Lemma filter_length_indices {A : Type} (q : A -> bool) (l : list A) (d : A)
      (s : nat) :
  List.length (filter (fun i => q (nth (i - s) l d)) (seq s (List.length l)))
  = List.length (filter q l).
Proof.
  revert s; induction l as [|x l IH]; intros s; [reflexivity|].
  cbn [List.length seq filter].
  assert (E : filter (fun i => q (nth (i - s) (x :: l) d)) (seq (S s) (List.length l))
              = filter (fun i => q (nth (i - S s) l d)) (seq (S s) (List.length l))).
  { apply filter_ext_in. intros i Hi. apply in_seq in Hi.
    replace (i - s)%nat with (S (i - S s)) by lia. reflexivity. }
  rewrite E, Nat.sub_diag. cbn [nth].
  destruct (q x); cbn [List.length]; rewrite IH; reflexivity.
Qed.

Lemma sorted_lt_nodup (l : list nat) : Sorted lt l -> NoDup l.
Proof.
  intros H. apply Sorted_StronglySorted in H; [|exact Nat.lt_trans].
  induction H as [|x l Hs IH Hall]; constructor; auto.
  intros Hin. rewrite Forall_forall in Hall. specialize (Hall x Hin). lia.
Qed.

(** The rows holding label [n] in column [j] are among the cached rows of
    label [n]. *)
Lemma column_count_le_cached (self : LFAnalysis) (n j : nat) :
  wf_engine self = true -> (j < shape1 (L self))%nat ->
  (column_count (fun x => Z.eqb x (Z.of_nat n)) j (L self)
   <= List.length (nth n (label_row_indices self) []))%nat.
Proof.
  intros Hwf Hj.
  destruct (wf_engine_facts self Hwf) as (Hrect & _).
  unfold column_count.
  rewrite <- (filter_length_indices _ (data (L self)) [] 0).
  apply NoDup_incl_length.
  - apply NoDup_filter, seq_NoDup.
  - intros i Hi. apply filter_In in Hi. destruct Hi as [Hi Hq].
    apply in_seq in Hi. rewrite Nat.sub_0_r in Hq. apply Z.eqb_eq in Hq.
    apply (engine_row_indices_spec self n i Hwf).
    destruct (nth_error (data (L self)) i) as [r|] eqn:Hr;
      [|apply nth_error_None in Hr; lia].
    exists r. split; [reflexivity|].
    rewrite (nth_error_nth _ _ [] Hr) in Hq. rewrite <- Hq.
    apply nth_In.
    unfold rectangular in Hrect.
    pose proof (forallb_nth_error _ _ _ _ Hrect Hr) as Hl.
    apply Nat.eqb_eq in Hl. lia.
Qed.

Lemma covered_by_label_counts_bounds (self : LFAnalysis) (n : nat) :
  wf_engine self = true ->
  List.length (_covered_by_label_counts self (Z.of_nat n))
  = List.length (sources self)
  /\ forall j c,
      nth_error (_covered_by_label_counts self (Z.of_nat n)) j = Some c ->
      0 <= c <= Z.of_nat (List.length (nth n (label_row_indices self) [])).
Proof.
  intros Hwf.
  destruct (wf_engine_facts self Hwf) as (Hrect & _ & _ & Hsp & Hcols & _).
  unfold _covered_by_label_counts. rewrite Hsp.
  split; [rewrite length_sum_axis0; exact Hcols|].
  intros j c Hc.
  assert (Hj : (j < shape1 (L self))%nat).
  { rewrite <- (length_sum_axis0 (shape1 (L self))
                  (eq_scalar (data (L self)) (Z.of_nat n))).
    apply nth_error_Some. congruence. }
  unfold sum_axis0 in Hc. rewrite nth_seq_map in Hc by exact Hj.
  unfold eq_scalar in Hc. rewrite (column_of_flags_sum _ j _ Hrect Hj) in Hc.
  inversion Hc; subst c.
  pose proof (column_count_le_cached self n j Hwf Hj). lia.
Qed.


(** X4.  On an engine, [_covered_by_label_counts] returns one count per
    source: the number of rows whose entry in that source's column is the
    label value; for a label index this count never exceeds the number of
    rows cached for the label. *)
Theorem covered_by_label_counts_per_source :
  forall (self : LFAnalysis) (v : Z),
    wf_engine self = true ->
    List.length (_covered_by_label_counts self v) = List.length (sources self)
    /\ (forall j, (j < List.length (sources self))%nat ->
          nth_error (_covered_by_label_counts self v) j
          = Some (Z.of_nat (column_count (fun x => x =? v) j (L self))))
    /\ (forall (n j : nat) c,
          v = Z.of_nat n ->
          nth_error (_covered_by_label_counts self v) j = Some c ->
          0 <= c <= Z.of_nat (List.length (nth n (label_row_indices self) []))).
Proof.
  intros self v Hwf.
  destruct (wf_engine_facts self Hwf) as (Hrect & _ & _ & Hsp & Hcols & _).
  unfold _covered_by_label_counts. rewrite Hsp.
  assert (Hnth : forall j, (j < shape1 (L self))%nat ->
            nth_error (sum_axis0 (shape1 (L self)) (eq_scalar (data (L self)) v)) j
            = Some (Z.of_nat (column_count (fun x => x =? v) j (L self)))).
  { intros j Hj. unfold sum_axis0. rewrite nth_seq_map by exact Hj.
    unfold eq_scalar. rewrite (column_of_flags_sum _ j _ Hrect Hj). reflexivity. }
  split; [rewrite length_sum_axis0; exact Hcols|].
  split; [intros j Hj; apply Hnth; lia|].
  intros n j c Hv Hc.
  assert (Hj : (j < shape1 (L self))%nat).
  { rewrite <- (length_sum_axis0 (shape1 (L self)) (eq_scalar (data (L self)) v)).
    apply nth_error_Some. congruence. }
  rewrite (Hnth j Hj) in Hc. inversion Hc; subst c v.
  pose proof (column_count_le_cached self n j Hwf Hj). lia.
Qed.

Lemma covered_by_label_counts_per_source_witness :
  List.length (_covered_by_label_counts demo_engine 1)
  = List.length (sources demo_engine)
  /\ (forall j, (j < List.length (sources demo_engine))%nat ->
        nth_error (_covered_by_label_counts demo_engine 1) j
        = Some (Z.of_nat (column_count (fun x => x =? 1) j (L demo_engine))))
  /\ (forall (n j : nat) c,
        1 = Z.of_nat n ->
        nth_error (_covered_by_label_counts demo_engine 1) j = Some c ->
        0 <= c <= Z.of_nat (List.length (nth n (label_row_indices demo_engine) []))).
Proof.
  apply (covered_by_label_counts_per_source demo_engine 1).
  vm_compute. reflexivity.
Defined.

(* ------------------------------------------------------------------ *)
(** ** Ranges of the table cells *)

Lemma np_divide_unit (a b : Z) :
  0 <= a <= b -> 0 < b -> unit_cell (np_divide a b).
Proof.
  intros Ha Hb. unfold np_divide.
  destruct (Z.eqb_spec b 0) as [E|_]; [lia|].
  cbn [unit_cell]. rewrite Qred_correct. unfold Qle. cbn [Qnum Qden].
  rewrite Z.sgn_pos, Z.abs_eq, Z2Pos.id by lia. lia.
Qed.

Lemma ratio_unit (a b : Z) :
  0 <= a <= b -> unit_cell (np_nan_to_num (np_divide a b)).
Proof.
  intros H. destruct (Z.eq_dec b 0) as [E|E].
  - assert (a = 0) by lia. subst a b. cbn. split; discriminate.
  - pose proof (np_divide_unit a b H ltac:(lia)) as Hu.
    destruct (np_divide a b); cbn in *; auto; contradiction.
Qed.

Lemma weighted_sum_bounds (col zs : list Z) :
  Forall (fun x => 0 <= x) col -> Forall (fun z => 0 <= z <= 1) zs ->
  0 <= sum_Z (zip_with Z.mul col zs) <= sum_Z col.
Proof.
  intros Hc. revert zs. induction Hc as [|x col Hx Hc IH]; intros zs Hz.
  - simpl. lia.
  - assert (Hs : 0 <= sum_Z col).
    { specialize (IH [] (Forall_nil _)). destruct col; simpl in *; lia. }
    destruct Hz as [|z zs Hz Hzs]; cbn [zip_with sum_Z fold_right].
    + fold (sum_Z col). lia.
    + fold (sum_Z col). fold (sum_Z (zip_with Z.mul col zs)).
      specialize (IH zs Hzs). nia.
Qed.

Lemma flags_sum_bounds (l : list Z) :
  Forall (fun z => 0 <= z <= 1) l -> 0 <= sum_Z l <= Z.of_nat (List.length l).
Proof.
  induction 1 as [|z l Hz Hl IH]; cbn [sum_Z fold_right List.length]; [lia|].
  fold (sum_Z l). lia.
Qed.

Lemma take_members {A : Type} (a : list A) (indices : list nat) (sel : list A) :
  take a indices = Ok sel ->
  List.length sel = List.length indices /\ forall x, In x sel -> In x a.
Proof.
  unfold take. intros H. destruct (mapM_inv _ _ _ H) as [Hl Hy].
  split; [exact Hl|]. intros x Hx. destruct (Hy x Hx) as [i [_ Hi]].
  unfold list_getitem in Hi. destruct (nth_error a i) eqn:E; [|discriminate].
  inversion Hi; subst. eapply nth_error_In; eauto.
Qed.

Lemma overlapped_flags (self : LFAnalysis) :
  Forall (fun z => 0 <= z <= 1) (_overlapped_data_points self).
Proof.
  rewrite overlapped_data_points_eq. apply Forall_forall. intros z Hz.
  apply in_map_iff in Hz. destruct Hz as [r [<- _]].
  destruct (1 <? Z.of_nat (nonzero_count r)); lia.
Qed.

Lemma conflicted_flags (rows : list (list Z)) :
  Forall (fun z => 0 <= z <= 1) (map row_conflict rows).
Proof.
  apply Forall_forall. intros z Hz. apply in_map_iff in Hz.
  destruct Hz as [r [<- _]]. destruct (row_conflict_max r) as [_ [E|E]]; lia.
Qed.

Lemma zip_with_map_same {A B C D : Type} (h : B -> C -> D) (f : A -> B)
      (g : A -> C) (l : list A) :
  zip_with h (map f l) (map g l) = map (fun x => h (f x) (g x)) l.
Proof. induction l as [|x l IH]; simpl; [reflexivity | now rewrite IH]. Qed.

Lemma column_nonneg (j : nat) (x : list (list Z)) :
  (forall r y, In r x -> In y r -> 0 <= y) ->
  Forall (fun y => 0 <= y) (column j x).
Proof.
  intros H. apply Forall_forall. intros y Hy. unfold column in Hy.
  apply in_map_iff in Hy. destruct Hy as [r [<- Hr]].
  destruct (nth_in_or_default j r 0) as [Hin|E]; [eauto | rewrite E; lia].
Qed.

(** Cells of the form "weighted column sum over column sum", as the overlap
    and conflict metrics build them, are fractions between 0 and 1. *)
Lemma ratio_row_unit (n : nat) (x : list (list Z)) (zs : list Z) :
  (forall r y, In r x -> In y r -> 0 <= y) ->
  Forall (fun z => 0 <= z <= 1) zs ->
  Forall unit_cell
         (map np_nan_to_num
              (zip_with np_divide (matT_vec n x zs) (sum_axis0 n x)))
  /\ List.length (map np_nan_to_num
                      (zip_with np_divide (matT_vec n x zs) (sum_axis0 n x))) = n.
Proof.
  intros Hx Hz. unfold matT_vec, sum_axis0.
  rewrite zip_with_map_same, map_map. split.
  - apply Forall_forall. intros c Hc. apply in_map_iff in Hc.
    destruct Hc as [j [<- _]]. apply ratio_unit.
    apply weighted_sum_bounds; [apply column_nonneg; exact Hx | exact Hz].
  - now rewrite length_map, length_seq.
Qed.

Lemma flag_matrix_nonneg (p : Z -> bool) (rows : list (list Z)) :
  forall r y, In r (map (map (fun x => bool_to_Z (p x))) rows) -> In y r -> 0 <= y.
Proof.
  intros r y Hr Hy. apply in_map_iff in Hr. destruct Hr as [r0 [<- _]].
  apply in_map_iff in Hy. destruct Hy as [x [<- _]]. destruct (p x); simpl; lia.
Qed.

Lemma from_dict_fields (d : dict (list cell)) (columns : list string)
      (df : DataFrame) :
  DataFrame_from_dict d columns = Ok df ->
  df_columns df = columns /\ df_values df = map snd d
  /\ df_index df = map Label (dict_keys d).
Proof.
  unfold DataFrame_from_dict, pandas_DataFrame.
  destruct (forallb _ _); [|discriminate]. intros E. inversion E; subst.
  auto.
Qed.

(** A per-label table whose body yields rows of fractions is a table of
    fractions. *)
Lemma per_label_unit_table (self : LFAnalysis)
      (body : nat -> list nat -> result (list cell)) (columns : list string) :
  wf_engine self = true ->
  (forall v idx, nth_error (label_row_indices self) v = Some idx -> idx <> [] ->
                 exists row, body v idx = Ok row
                             /\ List.length row = List.length columns
                             /\ Forall unit_cell row) ->
  unit_table columns (result <- per_label_rows self body ;;
                      DataFrame_from_dict result columns).
Proof.
  intros Hwf Hbody.
  destruct (per_label_loop (labels self) body
              (fun r => List.length r = List.length columns /\ Forall unit_cell r)
              (enumerate (label_row_indices self))) with (acc := @nil (string * list cell))
    as [d [Hd [HW _]]].
  - intros [v idx] Hp. apply in_enumerate in Hp. simpl.
    apply (engine_index_has_label self v Hwf).
    apply nth_error_Some. congruence.
  - intros [v idx] Hp Hne. apply in_enumerate in Hp. simpl in *.
    destruct (Hbody v idx Hp Hne) as [row [H1 [H2 H3]]]. exists row. auto.
  - constructor.
  - unfold per_label_rows. rewrite Hd. cbn [bind].
    destruct (from_dict_ok d columns) as [df Hdf].
    { eapply Forall_impl; [|exact HW]. intros r [H _]. exact H. }
    destruct (from_dict_fields _ _ _ Hdf) as [Hc [Hv Hi]].
    exists df. split; [exact Hdf|]. split; [exact Hc|].
    rewrite Hv, Hi. unfold dict_keys. rewrite !length_map.
    split; [reflexivity | exact HW].
Qed.

Lemma fraction_body_unit (self : LFAnalysis) (z : list Z) (v : nat) (idx : list nat) :
  wf_engine self = true ->
  List.length z = shape0 (L self) ->
  Forall (fun f => 0 <= f <= 1) z ->
  nth_error (label_row_indices self) v = Some idx -> idx <> [] ->
  exists row,
    (sel <- take z idx ;;
     Ok [np_divide (sum_Z sel) (Z.of_nat (List.length idx))]) = Ok row
    /\ List.length row = 1%nat
    /\ Forall unit_cell row.
Proof.
  intros Hwf Hz Hf Hv Hne.
  pose proof (cached_rows_in_range self v idx Hwf Hv) as Hr.
  destruct (take_ok z idx) as [sel [Hsel _]].
  { intros i Hi. rewrite Hz. auto. }
  rewrite Hsel. cbn [bind]. eexists. split; [reflexivity|].
  split; [reflexivity|]. constructor; [|constructor].
  destruct (take_members _ _ _ Hsel) as [Hl Hin].
  assert (Hfs : Forall (fun f => 0 <= f <= 1) sel).
  { apply Forall_forall. intros x Hx. rewrite Forall_forall in Hf. auto. }
  pose proof (flags_sum_bounds sel Hfs) as Hb. rewrite Hl in Hb.
  apply np_divide_unit; [exact Hb|]. destruct idx; [congruence | simpl; lia].
Qed.

Lemma ratio_body_unit (self : LFAnalysis) (z : list Z) (v : nat) (idx : list nat) :
  wf_engine self = true ->
  List.length z = shape0 (L self) ->
  Forall (fun f => 0 <= f <= 1) z ->
  nth_error (label_row_indices self) v = Some idx ->
  exists row, lf_ratio_label self z v idx = Ok row
              /\ List.length row = List.length (sources self)
              /\ Forall unit_cell row.
Proof.
  intros Hwf Hz Hf Hv.
  destruct (wf_engine_facts self Hwf) as (_ & _ & _ & Hsp & Hcols & _).
  pose proof (cached_rows_in_range self v idx Hwf Hv) as Hr.
  unfold lf_ratio_label. rewrite Hsp.
  destruct (take_ok (data (L self)) idx Hr) as [rows [Hrows _]].
  rewrite Hrows. cbn [bind].
  destruct (take_ok z idx) as [sel [Hsel _]].
  { intros i Hi. rewrite Hz. auto. }
  rewrite Hsel. cbn [bind]. eexists. split; [reflexivity|].
  destruct (take_members _ _ _ Hsel) as [_ Hin].
  assert (Hfs : Forall (fun f => 0 <= f <= 1) sel).
  { apply Forall_forall. intros x Hx. rewrite Forall_forall in Hf. auto. }
  destruct (ratio_row_unit (shape1 (L self))
              (eq_scalar rows (Z.of_nat v)) sel) as [Hu Hl].
  - unfold eq_scalar. apply flag_matrix_nonneg.
  - exact Hfs.
  - split; [rewrite Hl; exact Hcols | exact Hu].
Qed.

(** X5.  On an engine, [label_overlap] and [label_conflict] return a
    one-column table in which every cell is a fraction between 0 and 1 (never
    [nan], never an infinity). *)
Theorem label_overlap_conflict_are_fractions :
  forall self : LFAnalysis,
    wf_engine self = true ->
    unit_table ["overlap"] (label_overlap self)
    /\ unit_table ["conflict"] (label_conflict self).
Proof.
  intros self Hwf.
  destruct (wf_engine_facts self Hwf) as (_ & _ & _ & Hsp & _).
  assert (Hov : List.length (_overlapped_data_points self) = shape0 (L self)).
  { rewrite overlapped_data_points_eq, Hsp. unfold shape0. apply length_map. }
  assert (Hcf : List.length (map row_conflict (data (L self))) = shape0 (L self))
    by (unfold shape0; apply length_map).
  split.
  - unfold label_overlap. apply per_label_unit_table; [exact Hwf|].
    intros v idx Hv Hne.
    apply (fraction_body_unit self _ v idx Hwf Hov (overlapped_flags self) Hv Hne).
  - unfold label_conflict. rewrite (conflicted_on_engine self Hwf). cbn [bind].
    apply per_label_unit_table; [exact Hwf|].
    intros v idx Hv Hne.
    apply (fraction_body_unit self _ v idx Hwf Hcf (conflicted_flags _) Hv Hne).
Qed.

Lemma label_overlap_conflict_are_fractions_witness :
  unit_table ["overlap"] (label_overlap demo_engine)
  /\ unit_table ["conflict"] (label_conflict demo_engine).
Proof.
  apply (label_overlap_conflict_are_fractions demo_engine).
  vm_compute. reflexivity.
Defined.

(** X6.  On an engine, the per-label coverage table has one column per
    source and every cell is a fraction between 0 and 1: a source never
    labels more tokens with a label than there are tokens carrying that
    label. *)
Theorem per_label_coverages_are_fractions :
  forall self : LFAnalysis,
    wf_engine self = true ->
    unit_table (sources self) (lf_coverages self false).
Proof.
  intros self Hwf.
  unfold lf_coverages. apply per_label_unit_table; [exact Hwf|].
  intros v idx Hv Hne. eexists. split; [reflexivity|].
  destruct (covered_by_label_counts_bounds self v Hwf) as [Hl Hb].
  split; [rewrite length_map; exact Hl|].
  apply Forall_forall. intros c Hc. apply in_map_iff in Hc.
  destruct Hc as [k [<- Hk]]. apply In_nth_error in Hk. destruct Hk as [j Hj].
  specialize (Hb j k Hj). rewrite (nth_error_nth _ _ [] Hv) in Hb.
  apply np_divide_unit; [exact Hb|]. destruct idx; [congruence | simpl; lia].
Qed.

Lemma per_label_coverages_are_fractions_witness :
  unit_table (sources demo_engine) (lf_coverages demo_engine false).
Proof.
  apply (per_label_coverages_are_fractions demo_engine).
  vm_compute. reflexivity.
Defined.

Lemma dict_set_pairs {V : Type} (W : string -> V -> Prop) (d : dict V)
      (k : string) (v : V) :
  W k v -> Forall (fun e => W (fst e) (snd e)) d ->
  Forall (fun e => W (fst e) (snd e)) (dict_set d k v).
Proof.
  intros Hv. induction d as [|[k0 v0] d IH]; cbn; intros Hd.
  - constructor; [exact Hv | constructor].
  - inversion Hd; subst. destruct (String.eqb_spec k0 k) as [->|Hne].
    + constructor; [exact Hv | assumption].
    + constructor; [assumption | auto].
Qed.

(** The loop of the per-label tables keeps a property that relates each row
    to its key. *)
Lemma per_label_loop_pairs (lbls : list string)
      (body : nat -> list nat -> result (list cell))
      (W : string -> list cell -> Prop) (items : list (nat * list nat)) :
  (forall p, In p items -> exists label, nth_error lbls (fst p) = Some label) ->
  (forall p label, In p items -> snd p <> [] ->
                   nth_error lbls (fst p) = Some label ->
                   exists row, body (fst p) (snd p) = Ok row /\ W label row) ->
  forall acc : dict (list cell),
    Forall (fun e => W (fst e) (snd e)) acc ->
    exists d,
      foldM (fun (result : dict (list cell)) (p : nat * list nat) =>
               let '(label_idx, indices) := p in
               label <- list_getitem lbls label_idx ;;
               if String.eqb label "O" || Nat.eqb (List.length indices) 0
               then Ok result
               else row <- body label_idx indices ;;
                    Ok (dict_set result label row))
            items acc = Ok d
      /\ Forall (fun e => W (fst e) (snd e)) d.
Proof.
  induction items as [|[v idx] items IH]; intros Hlab Hbody acc Hacc.
  - exists acc. split; [reflexivity | exact Hacc].
  - assert (Hlab' : forall p, In p items ->
                      exists label, nth_error lbls (fst p) = Some label)
      by (intros p Hp; apply Hlab; now right).
    assert (Hbody' : forall p label, In p items -> snd p <> [] ->
                      nth_error lbls (fst p) = Some label ->
                      exists row, body (fst p) (snd p) = Ok row /\ W label row)
      by (intros p label Hp; apply Hbody; now right).
    destruct (Hlab (v, idx) (or_introl eq_refl)) as [label Hl]. cbn [fst] in Hl.
    cbn [foldM]. unfold list_getitem at 1. rewrite Hl. cbn [bind].
    destruct (String.eqb label "O" || Nat.eqb (List.length idx) 0) eqn:E.
    + apply IH; assumption.
    + apply orb_false_iff in E. destruct E as [_ E].
      destruct (Hbody (v, idx) label (or_introl eq_refl)) as [row [Hrow HW]];
        [cbn; intros ->; discriminate | exact Hl |].
      cbn [fst snd] in Hrow. rewrite Hrow. cbn [bind].
      apply IH; [assumption | assumption |].
      apply dict_set_pairs; assumption.
Qed.

Lemma filter_none {A : Type} (p : A -> bool) (l : list A) :
  (forall x, In x l -> p x = false) -> filter p l = [].
Proof.
  induction l as [|x l IH]; intros H; [reflexivity|]. cbn.
  rewrite (H x (or_introl eq_refl)). apply IH. intros y Hy. apply H. now right.
Qed.

Lemma column_count_zero (p : Z -> bool) (j : nat) (a : ndarray) :
  column_count p j a = 0%nat ->
  forall r, In r (data a) -> p (nth j r 0) = false.
Proof.
  unfold column_count. intros H r Hr.
  destruct (p (nth j r 0)) eqn:E; [|reflexivity]. exfalso.
  assert (Hin : In r (filter (fun r => p (nth j r 0)) (data a)))
    by (apply filter_In; auto).
  destruct (filter (fun r => p (nth j r 0)) (data a)); [contradiction | discriminate].
Qed.

(** A source that never gives label [v] gets the cell 0 in the row that
    [lf_ratio_label] builds for [v]: numerator and denominator are both 0
    and the quotient is replaced by 0. *)
Lemma ratio_body_idle_zero (self : LFAnalysis) (z : list Z) (v : nat)
      (idx : list nat) (row : list cell) (j : nat) :
  wf_engine self = true ->
  Forall (fun f => 0 <= f <= 1) z ->
  lf_ratio_label self z v idx = Ok row ->
  (j < List.length (sources self))%nat ->
  column_count (fun x => Z.eqb x (Z.of_nat v)) j (L self) = 0%nat ->
  nth_error row j = Some (Fin 0).
Proof.
  intros Hwf Hf Hrow Hj H0.
  destruct (wf_engine_facts self Hwf) as (Hrect & _ & _ & Hsp & Hcols & _).
  unfold lf_ratio_label in Hrow. rewrite Hsp in Hrow.
  destruct (take (data (L self)) idx) as [rows|] eqn:Hrows; cbn [bind] in Hrow;
    [|discriminate].
  destruct (take z idx) as [sel|] eqn:Hsel; cbn [bind] in Hrow; [|discriminate].
  inversion Hrow; subst row. clear Hrow.
  destruct (take_members _ _ _ Hrows) as [_ Hin].
  destruct (take_members _ _ _ Hsel) as [_ Hzin].
  assert (Hfs : Forall (fun f => 0 <= f <= 1) sel).
  { apply Forall_forall. intros x Hx. rewrite Forall_forall in Hf. auto. }
  unfold matT_vec, sum_axis0. rewrite zip_with_map_same, map_map.
  rewrite nth_seq_map by (rewrite Hcols; exact Hj).
  assert (Hden : sum_Z (column j (eq_scalar rows (Z.of_nat v))) = 0).
  { pose proof (column_of_flags_sum (fun x => Z.eqb x (Z.of_nat v)) j
                  (mk_ndarray (shape1 (L self)) rows)) as Hc.
    unfold column_count in Hc. cbn [data shape1] in Hc.
    unfold eq_scalar. rewrite Hc.
    - rewrite filter_none; [reflexivity|].
      intros r Hr. apply (column_count_zero _ j (L self) H0). auto.
    - unfold rectangular. cbn [data shape1]. apply forallb_forall. intros r Hr.
      unfold rectangular in Hrect. rewrite forallb_forall in Hrect. auto.
    - rewrite Hcols. exact Hj. }
  pose proof (weighted_sum_bounds (column j (eq_scalar rows (Z.of_nat v))) sel) as Hb.
  rewrite Hden in *.
  assert (Hnum : sum_Z (zip_with Z.mul (column j (eq_scalar rows (Z.of_nat v))) sel) = 0).
  { assert (0 <= sum_Z (zip_with Z.mul (column j (eq_scalar rows (Z.of_nat v))) sel) <= 0).
    { apply Hb; [|exact Hfs]. apply column_nonneg. unfold eq_scalar.
      apply flag_matrix_nonneg. }
    lia. }
  rewrite Hnum. reflexivity.
Qed.

Lemma per_label_idle_cells (self : LFAnalysis) (z : list Z) :
  wf_engine self = true ->
  List.length z = shape0 (L self) ->
  Forall (fun f => 0 <= f <= 1) z ->
  idle_cells_are_zero self
    (result <- per_label_rows self (lf_ratio_label self z) ;;
     DataFrame_from_dict result (sources self)).
Proof.
  intros Hwf Hz Hf df Hdf k label row v j Hk Hrow Hl Hj H0.
  destruct (wf_engine_facts self Hwf) as (_ & _ & _ & _ & _ & _ & Hnd & _).
  destruct (per_label_loop_pairs (labels self) (lf_ratio_label self z)
              (fun lab r => forall v' j',
                   nth_error (labels self) v' = Some lab ->
                   (j' < List.length (sources self))%nat ->
                   column_count (fun x => Z.eqb x (Z.of_nat v')) j' (L self) = 0%nat ->
                   nth_error r j' = Some (Fin 0))
              (enumerate (label_row_indices self)))
    with (acc := @nil (string * list cell)) as [d [Hd HW]].
  - intros [v0 idx] Hp. apply in_enumerate in Hp. cbn [fst].
    apply (engine_index_has_label self v0 Hwf).
    apply nth_error_Some. congruence.
  - intros [v0 idx] lab Hp Hne Hlab. apply in_enumerate in Hp. cbn [fst snd] in *.
    destruct (ratio_body_ok self z v0 idx Hwf Hz Hp) as [r [Hr _]].
    exists r. split; [exact Hr|].
    intros v' j' Hl' Hj' H0'.
    assert (v' = v0).
    { apply (proj1 (NoDup_nth_error (labels self)) Hnd).
      - apply nth_error_Some. congruence.
      - congruence. }
    subst v'. apply (ratio_body_idle_zero self z v0 idx r j' Hwf Hf Hr Hj' H0').
  - constructor.
  - unfold per_label_rows in Hdf. rewrite Hd in Hdf. cbn [bind] in Hdf.
    destruct (from_dict_fields _ _ _ Hdf) as [_ [Hv Hi]].
    rewrite Hi in Hk. rewrite Hv in Hrow. unfold dict_keys in Hk.
    rewrite map_map in Hk.
    destruct (nth_error d k) as [[lab r]|] eqn:Ed.
    + rewrite (map_nth_error _ _ _ Ed) in Hk.
      rewrite (map_nth_error _ _ _ Ed) in Hrow. cbn [fst snd] in *.
      inversion Hk; inversion Hrow; subst lab r.
      rewrite Forall_forall in HW.
      apply (HW (label, row) (nth_error_In _ _ Ed) v j Hl Hj H0).
    + rewrite nth_error_map, Ed in Hrow. discriminate.
Qed.

(** X7.  On an engine, the per-label overlap and conflict tables have one
    column per source and every cell is a fraction between 0 and 1; for a
    label and a source that never gives this label the quotient is 0/0 and
    the cell is stored as 0. *)
Theorem per_label_overlaps_conflicts_are_fractions :
  forall self : LFAnalysis,
    wf_engine self = true ->
    unit_table (sources self) (lf_overlaps self false)
    /\ unit_table (sources self) (lf_conflicts self false)
    /\ idle_cells_are_zero self (lf_overlaps self false)
    /\ idle_cells_are_zero self (lf_conflicts self false).
Proof.
  intros self Hwf.
  destruct (wf_engine_facts self Hwf) as (_ & _ & _ & Hsp & _).
  assert (Hov : List.length (_overlapped_data_points self) = shape0 (L self)).
  { rewrite overlapped_data_points_eq, Hsp. unfold shape0. apply length_map. }
  assert (Hcf : List.length (map row_conflict (data (L self))) = shape0 (L self))
    by (unfold shape0; apply length_map).
  split; [|split; [|split]].
  - unfold lf_overlaps. apply per_label_unit_table; [exact Hwf|].
    intros v idx Hv _.
    apply (ratio_body_unit self _ v idx Hwf Hov (overlapped_flags self) Hv).
  - unfold lf_conflicts. rewrite (conflicted_on_engine self Hwf). cbn [bind].
    apply per_label_unit_table; [exact Hwf|].
    intros v idx Hv _.
    apply (ratio_body_unit self _ v idx Hwf Hcf (conflicted_flags _) Hv).
  - unfold lf_overlaps.
    apply (per_label_idle_cells self _ Hwf Hov (overlapped_flags self)).
  - unfold lf_conflicts. rewrite (conflicted_on_engine self Hwf). cbn [bind].
    apply (per_label_idle_cells self _ Hwf Hcf (conflicted_flags _)).
Qed.

Lemma per_label_overlaps_conflicts_are_fractions_witness :
  unit_table (sources demo_engine) (lf_overlaps demo_engine false)
  /\ unit_table (sources demo_engine) (lf_conflicts demo_engine false)
  /\ idle_cells_are_zero demo_engine (lf_overlaps demo_engine false)
  /\ idle_cells_are_zero demo_engine (lf_conflicts demo_engine false).
Proof.
  apply (per_label_overlaps_conflicts_are_fractions demo_engine).
  vm_compute. reflexivity.
Defined.

(** On the sample corpus LF1 never gives ORG: its ORG cells are 0 in both
    tables. *)
Example idle_pair_on_sample_corpus :
  column_count (fun x => Z.eqb x 2) 0 (L demo_engine) = 0%nat
  /\ lf_overlaps demo_engine false
     = Ok (mk_DataFrame [Label "PER"; Label "ORG"] ["LF1"; "LF2"]
             [[Fin (2 # 3); Fin 1]; [Fin 0; Fin 1]])
  /\ lf_conflicts demo_engine false
     = Ok (mk_DataFrame [Label "PER"; Label "ORG"] ["LF1"; "LF2"]
             [[Fin (1 # 3); Fin 0]; [Fin 0; Fin 1]]).
Proof. repeat split; vm_compute; reflexivity. Qed.

Lemma ratio_agg_eq (self : LFAnalysis) (z : list Z) :
  wf_engine self = true ->
  lf_ratio_agg self z =
  Ok (mk_DataFrame [Pos 0] (sources self)
        [map (fun j =>
                np_nan_to_num
                  (np_divide
                     (sum_Z (zip_with Z.mul
                               (column j (ne_scalar (data (L self)) 0)) z))
                     (Z.of_nat (column_count (fun x => negb (x =? 0)) j (L self)))))
             (seq 0 (List.length (sources self)))]).
Proof.
  intros Hwf.
  destruct (wf_engine_facts self Hwf) as (Hrect & _ & _ & Hsp & Hcols & _).
  unfold lf_ratio_agg. rewrite Hsp, Hcols.
  unfold matT_vec, sum_axis0. rewrite zip_with_map_same, map_map.
  unfold pandas_DataFrame. cbn [forallb]. rewrite length_map, length_seq.
  rewrite Nat.eqb_refl. cbn [andb]. do 3 f_equal.
  apply map_ext_in. intros j Hj. apply in_seq in Hj.
  unfold ne_scalar at 2.
  rewrite (column_of_flags_sum (fun x => negb (x =? 0)) j (L self) Hrect)
    by (rewrite Hcols; lia).
  reflexivity.
Qed.

Lemma ratio_agg_cells (self : LFAnalysis) (z : list Z) :
  wf_engine self = true ->
  Forall (fun f => 0 <= f <= 1) z ->
  exists row,
    lf_ratio_agg self z = Ok (mk_DataFrame [Pos 0] (sources self) [row])
    /\ List.length row = List.length (sources self)
    /\ Forall unit_cell row
    /\ forall j, (j < List.length (sources self))%nat ->
                 column_count (fun x => negb (x =? 0)) j (L self) = 0%nat ->
                 nth_error row j = Some (Fin 0).
Proof.
  intros Hwf Hz. rewrite (ratio_agg_eq self z Hwf).
  destruct (wf_engine_facts self Hwf) as (Hrect & _ & _ & _ & Hcols & _).
  eexists. split; [reflexivity|].
  assert (Hb : forall j, (j < List.length (sources self))%nat ->
            0 <= sum_Z (zip_with Z.mul (column j (ne_scalar (data (L self)) 0)) z)
            <= Z.of_nat (column_count (fun x => negb (x =? 0)) j (L self))).
  { intros j Hj.
    rewrite <- (column_of_flags_sum (fun x => negb (x =? 0)) j (L self) Hrect)
      by (rewrite Hcols; exact Hj).
    apply weighted_sum_bounds; [|exact Hz].
    apply column_nonneg. apply flag_matrix_nonneg. }
  split; [now rewrite length_map, length_seq|]. split.
  - apply Forall_forall. intros c Hc. apply in_map_iff in Hc.
    destruct Hc as [j [<- Hj]]. apply in_seq in Hj.
    apply ratio_unit. apply Hb. lia.
  - intros j Hj H0. rewrite nth_seq_map by exact Hj.
    specialize (Hb j Hj). rewrite H0 in *.
    replace (sum_Z _) with 0 by (simpl in Hb; lia). reflexivity.
Qed.

(** X8.  On an engine, the aggregated overlap and conflict tables have a
    single row with one cell per source; every cell is a fraction between 0
    and 1, and the cell of a source that labels no token is 0 (the quotient
    0/0 is replaced by 0). *)
Theorem aggregated_overlaps_conflicts_are_fractions :
  forall self : LFAnalysis,
    wf_engine self = true ->
    exists ov cf,
      lf_overlaps self true = Ok (mk_DataFrame [Pos 0] (sources self) [ov])
      /\ lf_conflicts self true = Ok (mk_DataFrame [Pos 0] (sources self) [cf])
      /\ List.length ov = List.length (sources self)
      /\ List.length cf = List.length (sources self)
      /\ Forall unit_cell ov
      /\ Forall unit_cell cf
      /\ forall j, (j < List.length (sources self))%nat ->
                   column_count (fun x => negb (x =? 0)) j (L self) = 0%nat ->
                   nth_error ov j = Some (Fin 0)
                   /\ nth_error cf j = Some (Fin 0).
Proof.
  intros self Hwf.
  destruct (ratio_agg_cells self (_overlapped_data_points self) Hwf
              (overlapped_flags self)) as [ov [Ho [Hlo [Huo Hzo]]]].
  destruct (ratio_agg_cells self (map row_conflict (data (L self))) Hwf
              (conflicted_flags _)) as [cf [Hc [Hlc [Huc Hzc]]]].
  exists ov, cf. unfold lf_overlaps, lf_conflicts.
  rewrite (conflicted_on_engine self Hwf). cbn [bind].
  repeat split; auto.
Qed.

Lemma aggregated_overlaps_conflicts_are_fractions_witness :
  exists ov cf,
    lf_overlaps idle_source_engine true
    = Ok (mk_DataFrame [Pos 0] (sources idle_source_engine) [ov])
    /\ lf_conflicts idle_source_engine true
       = Ok (mk_DataFrame [Pos 0] (sources idle_source_engine) [cf])
    /\ List.length ov = List.length (sources idle_source_engine)
    /\ List.length cf = List.length (sources idle_source_engine)
    /\ Forall unit_cell ov
    /\ Forall unit_cell cf
    /\ forall j, (j < List.length (sources idle_source_engine))%nat ->
                 column_count (fun x => negb (x =? 0)) j (L idle_source_engine)
                 = 0%nat ->
                 nth_error ov j = Some (Fin 0)
                 /\ nth_error cf j = Some (Fin 0).
Proof.
  apply (aggregated_overlaps_conflicts_are_fractions idle_source_engine).
  vm_compute. reflexivity.
Defined.

(* ------------------------------------------------------------------ *)
(** ** Target labels and aggregated coverage *)

Lemma insert_uniq_Z_in (x y : Z) (l : list Z) :
  In y (insert_uniq_Z x l) <-> y = x \/ In y l.
Proof.
  induction l as [|z l IH]; simpl.
  - intuition.
  - destruct (x <? z) eqn:E1; simpl; [intuition|].
    destruct (Z.eqb_spec x z) as [E2|E2]; simpl.
    + subst. intuition.
    + rewrite IH. intuition.
Qed.

Lemma sorted_set_in (y : Z) (l : list Z) : In y (sorted_set l) <-> In y l.
Proof.
  unfold sorted_set. induction l as [|x l IH]; simpl; [reflexivity|].
  rewrite insert_uniq_Z_in, IH. intuition.
Qed.

Lemma insert_uniq_Z_sorted (x : Z) (l : list Z) :
  Sorted Z.lt l -> Sorted Z.lt (insert_uniq_Z x l).
Proof.
  induction l as [|z l IH]; intros Hs; simpl.
  - repeat constructor.
  - inversion Hs as [|? ? Hs' Hhd]; subst.
    destruct (Z.ltb_spec x z) as [Hlt|Hge].
    + constructor; [exact Hs | constructor; exact Hlt].
    + destruct (Z.eqb_spec x z) as [->|Hne]; [exact Hs|].
      constructor; [apply IH; exact Hs'|].
      destruct l as [|w l]; simpl.
      * constructor. lia.
      * inversion Hhd; subst.
        destruct (x <? w); [constructor; lia|].
        destruct (x =? w); constructor; assumption.
Qed.

Lemma sorted_set_sorted (l : list Z) : Sorted Z.lt (sorted_set l).
Proof.
  unfold sorted_set. induction l as [|x l IH]; simpl.
  - constructor.
  - apply insert_uniq_Z_sorted, IH.
Qed.

Lemma map_nth_seq (l : list string) :
  map (fun i => nth i l "") (seq 0 (List.length l)) = l.
Proof.
  apply nth_error_ext. intros i.
  destruct (Nat.lt_ge_cases i (List.length l)) as [H|H].
  - rewrite nth_seq_map by exact H. symmetry. apply nth_error_nth'. exact H.
  - rewrite (proj2 (nth_error_None l i) H).
    apply nth_error_None. now rewrite length_map, length_seq.
Qed.

(** Filling a dict from a list of distinct keys appends one entry per key. *)
Lemma foldM_dict_fresh {V : Type} (srcs : list string) (val : nat -> V)
      (js : list nat) (acc : dict V) :
  (forall i, In i js -> (i < List.length srcs)%nat) ->
  NoDup (dict_keys acc ++ map (fun i => nth i srcs "") js) ->
  foldM (fun (d : dict V) (i : nat) =>
           src <- list_getitem srcs i ;; Ok (dict_set d src (val i)))
        js acc
  = Ok (acc ++ map (fun i => (nth i srcs "", val i)) js).
Proof.
  revert acc; induction js as [|j js IH]; intros acc Hlt Hnd; cbn [foldM map].
  - now rewrite app_nil_r.
  - assert (Hj : (j < List.length srcs)%nat) by (apply Hlt; now left).
    unfold list_getitem at 1.
    rewrite (nth_error_nth' srcs "" Hj). cbn [bind].
    assert (Hfresh : ~ In (nth j srcs "") (dict_keys acc)).
    { cbn [map] in Hnd. apply NoDup_remove_2 in Hnd. intros H. apply Hnd.
      apply in_or_app. now left. }
    rewrite (dict_set_fresh acc _ (val j) Hfresh).
    rewrite IH.
    + rewrite <- app_assoc. reflexivity.
    + intros i Hi. apply Hlt. now right.
    + unfold dict_keys in *. rewrite map_app. cbn [map fst] in *.
      rewrite <- app_assoc. exact Hnd.
Qed.

Lemma wf_sources_facts (self : LFAnalysis) :
  wf_sources self = true ->
  NoDup (sources self)
  /\ dict_keys (sources2idx self) = sources self
  /\ map snd (sources2idx self) = seq 0 (List.length (sources self)).
Proof.
  unfold wf_sources. rewrite !andb_true_iff. intros [[H1 H2] H3].
  split; [|split].
  - unfold no_repeat in H1.
    destruct (list_eq_dec string_dec (nodup string_dec (sources self)) (sources self))
      as [E|]; [|discriminate].
    rewrite <- E. apply NoDup_nodup.
  - destruct (list_eq_dec string_dec _ _); [assumption | discriminate].
  - destruct (list_eq_dec Nat.eq_dec _ _); [assumption | discriminate].
Qed.

Lemma dict_get_nth {V : Type} (d : dict V) (j : nat) (k : string) (v : V) :
  NoDup (dict_keys d) -> nth_error d j = Some (k, v) -> dict_get d k = Some v.
Proof.
  unfold dict_keys. revert j; induction d as [|[k0 v0] d IH]; intros j Hnd Hj.
  - destruct j; discriminate.
  - cbn [map fst] in Hnd. inversion Hnd as [|? ? Hk Hnd']; subst.
    destruct j as [|j]; cbn in Hj.
    + inversion Hj; subst. cbn. now rewrite String.eqb_refl.
    + cbn. destruct (String.eqb_spec k0 k) as [E|E].
      * subst. exfalso. apply Hk. apply nth_error_In in Hj.
        apply (in_map fst) in Hj. exact Hj.
      * eapply IH; eauto.
Qed.

Lemma sources2idx_lookup (self : LFAnalysis) (j : nat) :
  wf_sources self = true -> (j < List.length (sources self))%nat ->
  dict_get (sources2idx self) (nth j (sources self) "") = Some j.
Proof.
  intros Hwf Hj. destruct (wf_sources_facts self Hwf) as [Hnd [Hk Hv]].
  assert (Hlen : List.length (sources2idx self) = List.length (sources self)).
  { rewrite <- Hk. unfold dict_keys. now rewrite length_map. }
  destruct (nth_error (sources2idx self) j) as [[k v]|] eqn:E;
    [|apply nth_error_None in E; lia].
  assert (Ek : k = nth j (sources self) "").
  { pose proof (map_nth_error fst _ _ E) as H. fold (dict_keys (sources2idx self)) in H.
    rewrite Hk in H. symmetry. apply nth_error_nth. exact H. }
  assert (Ev : v = j).
  { pose proof (map_nth_error snd _ _ E) as H. rewrite Hv in H.
    rewrite nth_error_nth' with (d := 0%nat) in H by (rewrite length_seq; exact Hj).
    rewrite seq_nth in H by exact Hj. cbn in H. inversion H. reflexivity. }
  subst. apply (dict_get_nth _ j). { rewrite Hk. exact Hnd. } exact E.
Qed.

Lemma target_labels_eq (self : LFAnalysis) :
  wf_engine self = true -> wf_sources self = true ->
  lf_target_labels self =
  Ok (map (fun j => (nth j (sources self) "", column_targets j (L self)))
          (seq 0 (List.length (sources self)))).
Proof.
  intros Hwf Hws.
  destruct (wf_engine_facts self Hwf) as (_ & _ & _ & Hsp & Hcols & _).
  destruct (wf_sources_facts self Hws) as [Hnd _].
  unfold lf_target_labels. rewrite Hsp, Hcols.
  rewrite (foldM_dict_fresh (sources self)
             (fun i => sorted_set (filter (fun x => negb (x =? 0))
                                          (column i (data (L self)))))).
  - reflexivity.
  - intros i Hi. apply in_seq in Hi. lia.
  - cbn [dict_keys map app]. rewrite map_nth_seq. exact Hnd.
Qed.

(** X9.  On an engine with distinct sources, [lf_target_labels] returns one
    entry per source, in column order; the entry of the source of column
    [j] is the strictly increasing list of the nonzero values found in
    column [j], so it never holds 0 and is empty for a source that labels
    nothing. *)
Theorem target_labels_are_column_values :
  forall self : LFAnalysis,
    wf_engine self = true ->
    wf_sources self = true ->
    exists d,
      lf_target_labels self = Ok d
      /\ dict_keys d = sources self
      /\ forall j src,
          nth_error (sources self) j = Some src ->
          exists T,
            dict_get d src = Some T
            /\ Sorted Z.lt T
            /\ forall x, In x T <->
                         x <> 0 /\ exists r, In r (data (L self))
                                             /\ nth_error r j = Some x.
Proof.
  intros self Hwf Hws.
  destruct (wf_engine_facts self Hwf) as (Hrect & _ & _ & _ & Hcols & _).
  destruct (wf_sources_facts self Hws) as [Hnd _].
  rewrite (target_labels_eq self Hwf Hws).
  eexists. split; [reflexivity|].
  assert (Hkeys : dict_keys
                    (map (fun j => (nth j (sources self) "", column_targets j (L self)))
                         (seq 0 (List.length (sources self)))) = sources self).
  { unfold dict_keys. rewrite map_map. cbn [fst]. apply map_nth_seq. }
  split; [exact Hkeys|].
  intros j src Hj.
  assert (Hlt : (j < List.length (sources self))%nat)
    by (apply nth_error_Some; congruence).
  exists (column_targets j (L self)). split.
  { apply (dict_get_nth _ j).
    - rewrite Hkeys. exact Hnd.
    - rewrite nth_seq_map by exact Hlt. f_equal. f_equal.
      apply nth_error_nth. exact Hj. }
  split; [apply sorted_set_sorted|].
  intros x. unfold column_targets. rewrite sorted_set_in, filter_In.
  unfold column. rewrite in_map_iff. split.
  - intros [[r [Hx Hr]] Hnz]. apply negb_true_iff, Z.eqb_neq in Hnz.
    split; [exact Hnz|]. exists r. split; [exact Hr|].
    subst x. apply nth_error_nth'.
    unfold rectangular in Hrect. rewrite forallb_forall in Hrect.
    specialize (Hrect r Hr). apply Nat.eqb_eq in Hrect. lia.
  - intros [Hnz [r [Hr Hx]]]. split.
    + exists r. split; [apply nth_error_nth; exact Hx | exact Hr].
    + now apply negb_true_iff, Z.eqb_neq.
Qed.

Lemma target_labels_are_column_values_witness :
  exists d,
    lf_target_labels demo_engine = Ok d
    /\ dict_keys d = sources demo_engine
    /\ forall j src,
        nth_error (sources demo_engine) j = Some src ->
        exists T,
          dict_get d src = Some T
          /\ Sorted Z.lt T
          /\ forall x, In x T <->
                       x <> 0 /\ exists r, In r (data (L demo_engine))
                                           /\ nth_error r j = Some x.
Proof.
  apply (target_labels_are_column_values demo_engine); vm_compute; reflexivity.
Defined.

Lemma zip_add_assoc {A : Type} (f g : A -> Z) (rows : list A) (acc : list Z) :
  zip_with Z.add (zip_with Z.add acc (map f rows)) (map g rows)
  = zip_with Z.add acc (map (fun r => f r + g r) rows).
Proof.
  revert acc; induction rows as [|r rows IH]; intros [|a acc]; cbn; auto.
  rewrite IH. f_equal. lia.
Qed.

Lemma zip_add_zero {A : Type} (rows : list A) (acc : list Z) :
  List.length acc = List.length rows ->
  zip_with Z.add acc (map (fun _ => 0) rows) = acc.
Proof.
  revert acc; induction rows as [|r rows IH]; intros [|a acc] H; cbn in *;
    try discriminate; auto.
  rewrite IH by lia. f_equal. lia.
Qed.

Lemma zip_add_repeat {A : Type} (h : A -> Z) (rows : list A) :
  zip_with Z.add (repeat 0 (List.length rows)) (map h rows) = map h rows.
Proof. induction rows as [|r rows IH]; cbn; [reflexivity | now rewrite IH]. Qed.

(** The inner loop of the aggregated coverage adds, row by row, the number
    of target labels that the row holds. *)
Lemma label_coverages_fold (self : LFAnalysis) (T : list Z) (acc : list Z) :
  wf_engine self = true ->
  List.length acc = shape0 (L self) ->
  foldM (fun acc label_idx =>
           c <- _covered_by_label self label_idx ;;
           Ok (zip_with Z.add acc c))
        T acc
  = Ok (zip_with Z.add acc (map (target_hits T) (data (L self)))).
Proof.
  intros Hwf. revert acc; induction T as [|v T IH]; intros acc Hl; cbn [foldM].
  - unfold target_hits. cbn [map sum_Z fold_right].
    now rewrite zip_add_zero.
  - rewrite (covered_by_label_eq self v Hwf). cbn [bind].
    rewrite IH.
    + rewrite zip_add_assoc. reflexivity.
    + rewrite length_zip_with, length_map, Hl. unfold shape0. apply Nat.min_id.
Qed.

Lemma target_hits_pos (T r : list Z) :
  0 <= target_hits T r
  /\ (1 <= target_hits T r <-> exists v, In v T /\ In v r).
Proof.
  unfold target_hits. induction T as [|v T [IH0 IH1]]; cbn [map sum_Z fold_right].
  - split; [lia|]. split; [lia|]. intros [v [[] _]].
  - fold (sum_Z (map (fun v => bool_to_Z (existsb (fun x => x =? v) r)) T)).
    destruct (existsb (fun x => x =? v) r) eqn:E; cbn [bool_to_Z].
    + split; [lia|]. split; [|lia]. intros _. exists v. split; [now left|].
      apply existsb_exists in E. destruct E as [x [Hx Hv]].
      apply Z.eqb_eq in Hv. now subst.
    + split; [lia|]. split.
      * intros H. destruct (proj1 IH1) as [w [Hw Hr]]; [lia|].
        exists w. split; [now right | exact Hr].
      * intros [w [[Hw|Hw] Hr]].
        -- subst w. assert (existsb (fun x => x =? v) r = true).
           { apply existsb_exists. exists v. split; [exact Hr | apply Z.eqb_refl]. }
           congruence.
        -- assert (1 <= sum_Z (map (fun v => bool_to_Z (existsb (fun x => x =? v) r)) T))
             by (apply IH1; eauto). lia.
Qed.

Lemma list_setitem_spec {A : Type} (l : list A) (i : nat) (v : A) :
  (i < List.length l)%nat ->
  exists l', list_setitem l i v = Ok l'
             /\ List.length l' = List.length l
             /\ forall k, nth_error l' k
                          = if Nat.eqb k i then Some v else nth_error l k.
Proof.
  revert i; induction l as [|x l IH]; intros i Hi; [simpl in Hi; lia|].
  destruct i as [|i]; cbn [list_setitem].
  - exists (v :: l). split; [reflexivity|]. split; [reflexivity|].
    intros [|k]; reflexivity.
  - destruct (IH i) as [l' [H1 [H2 H3]]]; [simpl in Hi; lia|].
    rewrite H1. cbn [bind]. exists (x :: l'). split; [reflexivity|].
    split; [simpl; now rewrite H2|].
    intros [|k]; [reflexivity|]. cbn. apply H3.
Qed.

(** A loop that stores [V (idx a)] at position [idx a] for every item. *)
Lemma foldM_setitem {A : Type} (f : list Z -> A -> result (list Z))
      (idx : A -> nat) (V : nat -> Z) (items : list A) :
  (forall total a, In a items -> f total a = list_setitem total (idx a) (V (idx a))) ->
  forall total,
    (forall a, In a items -> (idx a < List.length total)%nat) ->
    exists total',
      foldM f items total = Ok total'
      /\ List.length total' = List.length total
      /\ forall k, nth_error total' k
                   = if existsb (fun a => Nat.eqb k (idx a)) items
                     then Some (V k) else nth_error total k.
Proof.
  induction items as [|a items IH]; intros Hf total Hlt; cbn [foldM existsb].
  - exists total. auto.
  - rewrite (Hf total a (or_introl eq_refl)).
    destruct (list_setitem_spec total (idx a) (V (idx a))) as [t1 [H1 [H2 H3]]];
      [apply Hlt; now left|].
    rewrite H1. cbn [bind].
    destruct (IH (fun t b Hb => Hf t b (or_intror Hb)) t1) as [t2 [G1 [G2 G3]]].
    { intros b Hb. rewrite H2. apply Hlt. now right. }
    exists t2. split; [exact G1|]. split; [congruence|].
    intros k. rewrite G3, H3.
    destruct (existsb (fun b => Nat.eqb k (idx b)) items); cbn.
    + now rewrite orb_true_r.
    + rewrite orb_false_r. destruct (Nat.eqb_spec k (idx a)); [now subst | reflexivity].
Qed.

Lemma filter_length_le {A : Type} (p q : A -> bool) (l : list A) :
  (forall x, In x l -> p x = true -> q x = true) ->
  (List.length (filter p l) <= List.length (filter q l))%nat.
Proof.
  induction l as [|x l IH]; intros H; cbn; [lia|].
  assert (IH' := IH (fun y Hy => H y (or_intror Hy))).
  destruct (p x) eqn:Ep.
  - rewrite (H x (or_introl eq_refl) Ep). cbn. lia.
  - destruct (q x); cbn; lia.
Qed.

(** A source labels no more rows than its target labels cover, and when it
    labels no row its target labels cover none. *)
Lemma labelled_le_rows_hit (a : ndarray) (j : nat) :
  rectangular a = true -> (j < shape1 a)%nat ->
  (column_count (fun x => negb (Z.eqb x 0)) j a
   <= rows_hit (column_targets j a) a)%nat
  /\ (column_count (fun x => negb (x =? 0)) j a = 0%nat ->
      rows_hit (column_targets j a) a = 0%nat).
Proof.
  intros Hrect Hj. unfold column_count, rows_hit. split.
  - apply filter_length_le. intros r Hr Hnz.
    apply Z.leb_le. apply target_hits_pos. exists (nth j r 0). split.
    + unfold column_targets. apply sorted_set_in, filter_In. split; [|exact Hnz].
      unfold column. apply in_map_iff. exists r. auto.
    + apply nth_In. unfold rectangular in Hrect. rewrite forallb_forall in Hrect.
      specialize (Hrect r Hr). apply Nat.eqb_eq in Hrect. lia.
  - intros H0.
    assert (HT : column_targets j a = []).
    { unfold column_targets.
      assert (E : filter (fun x => negb (x =? 0)) (column j (data a)) = []).
      { destruct (filter _ (column j (data a))) as [|x l] eqn:E; [reflexivity|].
        exfalso. assert (Hin : In x (filter (fun x => negb (x =? 0)) (column j (data a))))
          by (rewrite E; now left).
        apply filter_In in Hin. destruct Hin as [Hin Hnz].
        unfold column in Hin. apply in_map_iff in Hin. destruct Hin as [r [Hx Hr]].
        assert (Hf : In r (filter (fun r => negb (nth j r 0 =? 0)) (data a))).
        { apply filter_In. split; [exact Hr|]. now rewrite Hx. }
        destruct (filter (fun r => negb (nth j r 0 =? 0)) (data a));
          [contradiction | discriminate]. }
      rewrite E. reflexivity. }
    rewrite HT.
    assert (Hf : forall l : list (list Z),
               filter (fun r => 1 <=? target_hits [] r) l = [])
      by (induction l; cbn; auto).
    rewrite Hf. reflexivity.
Qed.

Lemma np_divide_positive (a b : Z) :
  0 < a <= b -> positive_cell (np_divide a b) /\ unit_cell (np_divide a b).
Proof.
  intros H. split; [|apply np_divide_unit; lia].
  unfold np_divide. destruct (Z.eqb_spec b 0) as [E|_]; [lia|].
  cbn [positive_cell]. rewrite Qred_correct. unfold Qlt. cbn [Qnum Qden].
  rewrite Z.sgn_pos by lia. lia.
Qed.

Lemma aggregated_coverages_eq (self : LFAnalysis) :
  wf_engine self = true -> wf_sources self = true ->
  lf_coverages self true =
  Ok (mk_DataFrame [Pos 0] (sources self)
        [map (fun j =>
                np_divide
                  (Z.of_nat (column_count (fun x => negb (x =? 0)) j (L self)))
                  (Z.of_nat (rows_hit (column_targets j (L self)) (L self))))
             (seq 0 (List.length (sources self)))]).
Proof.
  intros Hwf Hws.
  destruct (wf_engine_facts self Hwf) as (Hrect & _ & _ & Hsp & Hcols & _).
  unfold lf_coverages. rewrite (target_labels_eq self Hwf Hws). cbn [bind].
  set (n := List.length (sources self)).
  set (V := fun j => Z.of_nat (rows_hit (column_targets j (L self)) (L self))).
  match goal with
  | |- context [foldM ?f ?items ?init] =>
      destruct (foldM_setitem f
                  (fun p : string * list Z =>
                     match dict_get (sources2idx self) (fst p) with
                     | Some i => i
                     | None => 0%nat
                     end)
                  V items) with (total := init)
        as [total [Hfold [Hlen Hnth]]]
  end.
  - intros total [lf T] Hin. apply in_map_iff in Hin.
    destruct Hin as [j [E Hj]]. inversion E; subst lf T. clear E.
    apply in_seq in Hj. cbn [fst].
    unfold dict_getitem.
    rewrite (sources2idx_lookup self j Hws) by lia. cbn [bind].
    rewrite (label_coverages_fold self _ _ Hwf) by apply repeat_length.
    cbn [bind]. unfold shape0. rewrite zip_add_repeat, map_map.
    rewrite (sum_flags_count (fun r => 1 <=? target_hits (column_targets j (L self)) r)).
    reflexivity.
  - intros [lf T] Hin. apply in_map_iff in Hin.
    destruct Hin as [j [E Hj]]. inversion E; subst lf T. clear E.
    apply in_seq in Hj. cbn [fst].
    rewrite (sources2idx_lookup self j Hws) by lia.
    rewrite repeat_length. lia.
  - rewrite Hfold. cbn [bind].
    assert (Htotal : total = map V (seq 0 n)).
    { apply nth_error_ext. intros k. rewrite Hnth.
      destruct (Nat.lt_ge_cases k n) as [Hk|Hk].
      - rewrite nth_seq_map by exact Hk.
        assert (Ex : existsb
                       (fun a : string * list Z =>
                          Nat.eqb k match dict_get (sources2idx self) (fst a) with
                                    | Some i => i
                                    | None => 0%nat
                                    end)
                       (map (fun j => (nth j (sources self) "",
                                       column_targets j (L self))) (seq 0 n)) = true).
        { apply existsb_exists. eexists. split.
          - apply in_map_iff. exists k. split; [reflexivity|]. apply in_seq. lia.
          - cbn [fst]. rewrite (sources2idx_lookup self k Hws) by exact Hk.
            apply Nat.eqb_refl. }
        rewrite Ex. reflexivity.
      - assert (Ex : existsb
                       (fun a : string * list Z =>
                          Nat.eqb k match dict_get (sources2idx self) (fst a) with
                                    | Some i => i
                                    | None => 0%nat
                                    end)
                       (map (fun j => (nth j (sources self) "",
                                       column_targets j (L self))) (seq 0 n)) = false).
        { apply not_true_is_false. intros Ht. apply existsb_exists in Ht.
          destruct Ht as [[lf T] [Hin Hk']]. apply in_map_iff in Hin.
          destruct Hin as [j [E Hj]]. inversion E; subst lf T. clear E.
          apply in_seq in Hj. cbn [fst] in Hk'.
          rewrite (sources2idx_lookup self j Hws) in Hk' by lia.
          apply Nat.eqb_eq in Hk'. lia. }
        rewrite Ex.
        rewrite (proj2 (nth_error_None _ _)) by (rewrite repeat_length; exact Hk).
        symmetry. apply nth_error_None. rewrite length_map, length_seq. exact Hk. }
    rewrite Htotal, Hsp.
    assert (Hcov : sum_axis0 (shape1 (L self)) (ne_scalar (data (L self)) 0)
                   = map (fun j => Z.of_nat (column_count (fun x => negb (x =? 0)) j (L self)))
                         (seq 0 n)).
    { unfold sum_axis0. rewrite Hcols. apply map_ext_in. intros j Hj.
      apply in_seq in Hj. unfold ne_scalar.
      apply (column_of_flags_sum (fun x => negb (x =? 0)) j (L self) Hrect).
      rewrite Hcols. lia. }
    rewrite Hcov. unfold np_divide_arrays.
    rewrite !length_map, Nat.eqb_refl. cbn [bind].
    rewrite zip_with_map_same.
    unfold pandas_DataFrame. cbn [forallb]. rewrite length_map, length_seq.
    fold n. rewrite Nat.eqb_refl. reflexivity.
Qed.

(** X10.  On an engine with distinct sources, the aggregated coverage table
    has a single row with one cell per source.  The cell of a source that
    labels at least one token is a positive fraction at most 1 (tokens it
    labels over tokens carrying one of its target labels); the cell of a
    source that labels no token is [nan], the quotient 0/0 being stored as
    it is. *)
Theorem aggregated_coverage_cells :
  forall self : LFAnalysis,
    wf_engine self = true ->
    wf_sources self = true ->
    exists row,
      lf_coverages self true = Ok (mk_DataFrame [Pos 0] (sources self) [row])
      /\ List.length row = List.length (sources self)
      /\ forall j, (j < List.length (sources self))%nat ->
           exists c,
             nth_error row j = Some c
             /\ (column_count (fun x => negb (x =? 0)) j (L self) = 0%nat ->
                 c = NaN)
             /\ (column_count (fun x => negb (x =? 0)) j (L self) <> 0%nat ->
                 positive_cell c /\ unit_cell c).
Proof.
  intros self Hwf Hws.
  destruct (wf_engine_facts self Hwf) as (Hrect & _ & _ & _ & Hcols & _).
  rewrite (aggregated_coverages_eq self Hwf Hws).
  eexists. split; [reflexivity|].
  split; [now rewrite length_map, length_seq|].
  intros j Hj. rewrite nth_seq_map by exact Hj. eexists. split; [reflexivity|].
  destruct (labelled_le_rows_hit (L self) j Hrect) as [Hle H0];
    [rewrite Hcols; exact Hj|].
  split.
  - intros E. rewrite E, (H0 E). reflexivity.
  - intros E. apply np_divide_positive. lia.
Qed.

Lemma aggregated_coverage_cells_witness :
  exists row,
    lf_coverages idle_source_engine true
    = Ok (mk_DataFrame [Pos 0] (sources idle_source_engine) [row])
    /\ List.length row = List.length (sources idle_source_engine)
    /\ forall j, (j < List.length (sources idle_source_engine))%nat ->
         exists c,
           nth_error row j = Some c
           /\ (column_count (fun x => negb (x =? 0)) j (L idle_source_engine)
               = 0%nat -> c = NaN)
           /\ (column_count (fun x => negb (x =? 0)) j (L idle_source_engine)
               <> 0%nat -> positive_cell c /\ unit_cell c).
Proof.
  apply (aggregated_coverage_cells idle_source_engine); vm_compute; reflexivity.
Defined.

(* ------------------------------------------------------------------ *)
(** ** Further facts on the constructor and its helpers *)

Lemma dict_get_enumerate_inv (l : list string) (n i : nat) (s : string) :
  dict_get (map swap_pair (enumerate_from n l)) s = Some i ->
  (n <= i)%nat /\ nth_error l (i - n) = Some s.
Proof.
  revert n; induction l as [|x l IH]; intros n; cbn; [discriminate|].
  destruct (String.eqb_spec x s) as [->|Hne].
  - intros E. inversion E; subst. rewrite Nat.sub_diag. split; [lia | reflexivity].
  - intros E. destruct (IH _ E) as [Hle Hn]. split; [lia|].
    replace (i - n)%nat with (S (i - S n)) by lia. exact Hn.
Qed.

Lemma dict_get_enumerate_none (l : list string) (n : nat) (s : string) :
  ~ In s l -> dict_get (map swap_pair (enumerate_from n l)) s = None.
Proof.
  revert n; induction l as [|x l IH]; intros n Hs; cbn; [reflexivity|].
  destruct (String.eqb_spec x s) as [->|Hne].
  - exfalso. apply Hs. now left.
  - apply IH. intros H. apply Hs. now right.
Qed.

Lemma enumerate_from_fst {A : Type} (l : list A) (n : nat) :
  map fst (enumerate_from n l) = seq n (List.length l).
Proof. revert n; induction l as [|x l IH]; intros n; cbn; [|rewrite IH]; reflexivity. Qed.

Lemma enumerate_from_snd {A : Type} (l : list A) (n : nat) :
  map snd (enumerate_from n l) = l.
Proof. revert n; induction l as [|x l IH]; intros n; cbn; [|rewrite IH]; reflexivity. Qed.

(** What [_get_corpus_sources] returns, for either form of its argument. *)
Lemma resolver_spec (I : Interp) (corpus : list Doc) (wanted : option (list string)) :
  let names := match wanted with
               | Some l => l
               | None => flat_map (fun doc => dict_keys (spans doc)) corpus
               end in
  let rs := fst (_get_corpus_sources I corpus wanted) in
  let idx := snd (_get_corpus_sources I corpus wanted) in
  NoDup rs
  /\ (forall s, In s rs <-> In s names)
  /\ idx = map swap_pair (enumerate rs).
Proof.
  intros names rs idx.
  assert (Hrs : rs = set_iter I names) by (unfold rs, names; destruct wanted; reflexivity).
  assert (Hperm : Permutation rs (nodup string_dec names))
    by (rewrite Hrs; apply set_iter_perm).
  assert (Hnd : NoDup rs).
  { apply (Permutation_NoDup (Permutation_sym Hperm)). apply NoDup_nodup. }
  split; [exact Hnd|]. split.
  - intros s. split; intros H.
    + apply (Permutation_in _ Hperm) in H. now apply nodup_In in H.
    + apply (Permutation_in _ (Permutation_sym Hperm)). now apply nodup_In.
  - unfold idx, _get_corpus_sources. cbn [snd].
    replace (match wanted with
             | Some sources => set_iter I sources
             | None => set_iter I (flat_map (fun doc => dict_keys (spans doc)) corpus)
             end) with rs by (unfold rs; destruct wanted; reflexivity).
    unfold enumerate. rewrite index_sources_fold; [reflexivity | exact Hnd].
Qed.

(** X11.  Whatever the argument, [_get_corpus_sources] returns each source
    once; without an explicit list the sources are the names that key the
    spans of some document of the corpus.  The index map and the list are
    inverse to each other: position [i] of the list holds [s] exactly when
    the map sends [s] to [i], and a name that is not a source has no
    index. *)
Theorem sources_and_index_are_inverse :
  forall (I : Interp) (corpus : list Doc) (wanted : option (list string)),
    let rs := fst (_get_corpus_sources I corpus wanted) in
    let idx := snd (_get_corpus_sources I corpus wanted) in
    NoDup rs
    /\ (forall s, In s rs <->
                  match wanted with
                  | Some l => In s l
                  | None => exists doc, In doc corpus
                                        /\ In s (dict_keys (spans doc))
                  end)
    /\ (forall i s, nth_error rs i = Some s <-> dict_get idx s = Some i)
    /\ (forall s, ~ In s rs -> dict_get idx s = None)
    /\ (forall s i, dict_get idx s = Some i -> (i < List.length rs)%nat).
Proof.
  intros I corpus wanted rs idx.
  destruct (resolver_spec I corpus wanted) as [Hnd [Hin Hidx]].
  fold rs in Hnd, Hin, Hidx. fold idx in Hidx.
  assert (Hinv : forall i s, dict_get idx s = Some i -> nth_error rs i = Some s).
  { intros i s H. rewrite Hidx in H. unfold enumerate in H.
    apply dict_get_enumerate_inv in H. destruct H as [_ H].
    now rewrite Nat.sub_0_r in H. }
  split; [exact Hnd|]. split.
  - intros s. rewrite Hin. destruct wanted as [l|]; [reflexivity|].
    rewrite in_flat_map. reflexivity.
  - split; [|split].
    + intros i s. split; [|apply Hinv].
      intros H. rewrite Hidx. unfold enumerate.
      rewrite (dict_get_enumerate rs 0 i s Hnd H). reflexivity.
    + intros s Hs. rewrite Hidx. apply dict_get_enumerate_none. exact Hs.
    + intros s i H. apply nth_error_Some. rewrite (Hinv i s H). discriminate.
Qed.

Lemma list_remove_keeps_others (x : string) (l : list string) :
  filter (fun y => negb (String.eqb y x)) (list_remove x l)
  = filter (fun y => negb (String.eqb y x)) l.
Proof.
  induction l as [|y l IH]; [reflexivity|]. cbn.
  destruct (String.eqb y x) eqn:E; cbn; [reflexivity|].
  rewrite E. cbn. now rewrite IH.
Qed.

(** X12.  The in-place update of the label list by
    [_get_token_level_labels] loses no label and adds at most one ["O"]: the
    updated list is a rearrangement of the list passed (with ["O"] added
    when it was absent), the labels other than ["O"] keep their relative
    order, and running the update again on the updated list changes
    nothing. *)
Theorem label_list_update_is_stable :
  forall (strict : bool) (given : list string),
    let after := fst (_get_token_level_labels strict given) in
    Permutation after (if list_mem "O" given then given else "O" :: given)
    /\ filter (fun y => negb (String.eqb y "O")) after
       = filter (fun y => negb (String.eqb y "O")) given
    /\ (forall strict', fst (_get_token_level_labels strict' after) = after).
Proof.
  intros strict given after. unfold after. rewrite token_level_labels_arg.
  destruct (list_mem "O" given) eqn:E.
  - split; [apply list_remove_perm; now apply list_mem_In|].
    split.
    + cbn. apply list_remove_keeps_others.
    + intros strict'. rewrite token_level_labels_arg. reflexivity.
  - split; [apply Permutation_refl|]. split.
    + reflexivity.
    + intros strict'. rewrite token_level_labels_arg. reflexivity.
Qed.

(** X13.  [_get_row_indices_with_labels] raises a ValueError on a matrix
    without entries and on a matrix holding a negative entry; on a
    non-empty rectangle of non-negative entries it returns one row list per
    value from 0 to the largest entry. *)
Theorem row_index_errors :
  forall a : ndarray,
    (ravel a = [] -> _get_row_indices_with_labels a = Raise ValueError)
    /\ ((exists x, In x (ravel a) /\ x < 0) ->
        _get_row_indices_with_labels a = Raise ValueError)
    /\ (rectangular a = true -> ravel a <> [] ->
        (forall x, In x (ravel a) -> 0 <= x) ->
        exists lri,
          _get_row_indices_with_labels a = Ok lri
          /\ List.length lri = Z.to_nat (list_max (ravel a) + 1)).
Proof.
  intros a. split; [|split].
  - intros E. unfold _get_row_indices_with_labels, np_max. rewrite E. reflexivity.
  - intros [x [Hx Hneg]].
    unfold _get_row_indices_with_labels, np_max.
    destruct (ravel a) as [|x0 flat] eqn:Er; [contradiction|].
    rewrite <- Er in *. cbn [bind]. unfold csr_from_coo.
    assert (Hf : forallb (fun r => (0 <=? r) && (r <? list_max (ravel a) + 1))
                         (ravel a) = false).
    { apply not_true_is_false. intros Ht. rewrite forallb_forall in Ht.
      specialize (Ht x Hx). apply andb_true_iff in Ht. destruct Ht as [Ht _].
      apply Z.leb_le in Ht. lia. }
    rewrite Hf. reflexivity.
  - intros Hrect Hne Hpos.
    assert (Hsize : size a <> 0%nat).
    { unfold size, shape0. rewrite <- (length_concat_rect _ _ Hrect).
      fold (ravel a). destruct (ravel a); [congruence | discriminate]. }
    rewrite (get_row_indices_ok a Hrect Hsize Hpos).
    eexists. split; [reflexivity | apply row_indices_length].
Qed.

Lemma row_index_errors_witness :
  exists lri,
    _get_row_indices_with_labels (mk_ndarray 2 [[1; 0]; [0; 2]]) = Ok lri
    /\ List.length lri
       = Z.to_nat (list_max (ravel (mk_ndarray 2 [[1; 0]; [0; 2]])) + 1).
Proof.
  apply (proj2 (proj2 (row_index_errors (mk_ndarray 2 [[1; 0]; [0; 2]])))).
  - reflexivity.
  - discriminate.
  - intros x Hx. cbn in Hx. intuition lia.
Defined.

Lemma mapM_app {A B : Type} (f : A -> result B) (xs ys : list A)
      (bs cs : list B) :
  mapM f xs = Ok bs -> mapM f ys = Ok cs -> mapM f (xs ++ ys) = Ok (bs ++ cs).
Proof.
  revert bs; induction xs as [|x xs IH]; intros bs Hx Hy; cbn in *.
  - inversion Hx; subst. exact Hy.
  - destruct (f x) as [b|]; cbn in *; [|discriminate].
    destruct (mapM f xs) as [bs'|]; cbn in *; [|discriminate].
    inversion Hx; subst. rewrite (IH bs' eq_refl Hy). reflexivity.
Qed.

(** X14.  With the same sources, labels and matching mode, when the matrix
    of a corpus [c1] is [M1] and the matrix of a corpus [c2] is [M2], of the
    same width, the matrix of the corpus [c1 ++ c2] has the rows of [M1]
    followed by the rows of [M2], so its row count is the sum of theirs. *)
Theorem matrix_of_concatenated_corpora :
  forall (spans_to_array : Doc -> list string -> dict nat -> set string ->
                           option (set string) -> result ndarray)
         (srcs : list string) (l2i : dict nat)
         (lwp pfx : set string) (strict : bool)
         (c1 c2 : list Doc) (M1 M2 : ndarray),
    _corpus_to_token_array spans_to_array c1 srcs l2i lwp pfx strict = Ok M1 ->
    _corpus_to_token_array spans_to_array c2 srcs l2i lwp pfx strict = Ok M2 ->
    shape1 M1 = shape1 M2 ->
    _corpus_to_token_array spans_to_array (c1 ++ c2) srcs l2i lwp pfx strict
    = Ok (mk_ndarray (shape1 M1) (data M1 ++ data M2))
    /\ List.length (data M1 ++ data M2) = (shape0 M1 + shape0 M2)%nat.
Proof.
  intros sp srcs l2i lwp pfx strict c1 c2 M1 M2 H1 H2 Hw.
  split; [|unfold shape0; apply length_app].
  unfold _corpus_to_token_array in *.
  destruct (mapM _ c1) as [b1|] eqn:E1; cbn [bind] in H1; [|discriminate].
  destruct (mapM _ c2) as [b2|] eqn:E2; cbn [bind] in H2; [|discriminate].
  rewrite (mapM_app _ _ _ _ _ E1 E2). cbn [bind].
  destruct (np_concatenate_inv _ _ H1) as [x [xs [Ex [Hs1 [Hall1 Hd1]]]]].
  destruct (np_concatenate_inv _ _ H2) as [y [ys [Ey [Hs2 [Hall2 Hd2]]]]].
  subst b1. cbn [app]. unfold np_concatenate.
  assert (Hf : forallb (fun b' => Nat.eqb (shape1 b') (shape1 x)) (xs ++ b2) = true).
  { apply forallb_forall. intros b Hb. apply Nat.eqb_eq.
    apply in_app_or in Hb. destruct Hb as [Hb|Hb].
    - rewrite (Hall1 b (or_intror Hb)). exact Hs1.
    - rewrite (Hall2 b Hb), <- Hw. exact Hs1. }
  rewrite Hf. rewrite Hs1. f_equal. f_equal.
  rewrite Hd1, Hd2.
  change (x :: xs ++ b2) with ((x :: xs) ++ b2).
  rewrite map_app, concat_app. reflexivity.
Qed.

Lemma matrix_of_concatenated_corpora_witness :
  _corpus_to_token_array spans_to_array_model ([doc_a; doc_b] ++ [doc_b; doc_a])
    ["LF1"; "LF2"] [("O", 0%nat); ("PER", 1%nat); ("ORG", 2%nat)]
    ["O"; "PER"; "ORG"] [] false
  = Ok (mk_ndarray 2 ([[1; 2]; [1; 0]; [0; 0]; [1; 1]; [0; 0]]
                      ++ [[1; 1]; [0; 0]; [1; 2]; [1; 0]; [0; 0]]))
  /\ List.length ([[1; 2]; [1; 0]; [0; 0]; [1; 1]; [0; 0]]
                  ++ [[1; 1]; [0; 0]; [1; 2]; [1; 0]; [0; 0]])
     = (5 + 5)%nat.
Proof.
  apply (matrix_of_concatenated_corpora spans_to_array_model ["LF1"; "LF2"]
           [("O", 0%nat); ("PER", 1%nat); ("ORG", 2%nat)] ["O"; "PER"; "ORG"] []
           false [doc_a; doc_b] [doc_b; doc_a]
           (mk_ndarray 2 [[1; 2]; [1; 0]; [0; 0]; [1; 1]; [0; 0]])
           (mk_ndarray 2 [[1; 1]; [0; 0]; [1; 2]; [1; 0]; [0; 0]])); reflexivity.
Defined.

Lemma get_row_indices_inv (a : ndarray) (lri : list (list nat)) :
  _get_row_indices_with_labels a = Ok lri ->
  ravel a <> [] /\ forall x, In x (ravel a) -> 0 <= x <= list_max (ravel a).
Proof.
  unfold _get_row_indices_with_labels, np_max.
  destruct (ravel a) as [|x0 flat] eqn:Er; [discriminate|].
  rewrite <- Er. cbn [bind]. unfold csr_from_coo.
  destruct (forallb (fun r => (0 <=? r) && (r <? list_max (ravel a) + 1)) (ravel a))
    eqn:Ef; cbn [andb bind]; [|discriminate].
  intros _. split; [rewrite Er; discriminate|].
  intros x Hx. rewrite forallb_forall in Ef. specialize (Ef x Hx).
  apply andb_true_iff in Ef. destruct Ef as [H1 H2].
  apply Z.leb_le in H1. apply Z.ltb_lt in H2. lia.
Qed.

(** The fields of an engine that [__init__] returned. *)
Lemma init_fields
      (spans_to_array : Doc -> list string -> dict nat -> set string ->
                        option (set string) -> result ndarray)
      (I : Interp) (docs : list Doc) (given : list string)
      (wanted : option (list string)) (strict : bool) (e : LFAnalysis) :
  snd (__init__ spans_to_array I docs given wanted strict) = Ok e ->
  corpus e = docs
  /\ strict_match e = strict
  /\ sources e = fst (_get_corpus_sources I docs wanted)
  /\ sources2idx e = snd (_get_corpus_sources I docs wanted)
  /\ labels e = fst (fst (fst (snd (_get_token_level_labels strict given))))
  /\ label2idx e = snd (fst (fst (snd (_get_token_level_labels strict given))))
  /\ _L_sparse e = L e
  /\ _get_row_indices_with_labels (L e) = Ok (label_row_indices e)
  /\ _corpus_to_token_array spans_to_array docs (sources e) (label2idx e)
       (labels_without_prefix e) (prefixes e) strict = Ok (L e).
Proof.
  unfold __init__.
  destruct (_get_corpus_sources I docs wanted) as [srcs s2].
  destruct (_get_token_level_labels strict given) as [arg [[[lbls l2i] pf] lwp]].
  cbn [fst snd].
  destruct (_corpus_to_token_array spans_to_array docs srcs l2i lwp pf strict)
    as [M|] eqn:EM; cbn [bind]; [|discriminate].
  destruct (_get_row_indices_with_labels M) as [lri|] eqn:El; cbn [bind];
    [|discriminate].
  intros E. inversion E; subst e. cbn. repeat split; auto.
Qed.

Lemma empty_corpus_rejected_any
      (spans_to_array : Doc -> list string -> dict nat -> set string ->
                        option (set string) -> result ndarray)
      (I : Interp) (given : list string)
      (wanted : option (list string)) (strict : bool) :
  exists x, snd (__init__ spans_to_array I [] given wanted strict) = Raise x.
Proof.
  exists ValueError. unfold __init__.
  destruct (_get_corpus_sources I [] wanted) as [s s2].
  destruct (_get_token_level_labels strict given) as [arg [[[? ?] ?] ?]].
  reflexivity.
Qed.


(** X15.  Whatever the block builder, an engine that [__init__] returned
    has a matrix with at least one entry and no negative entry: a corpus
    that yields a matrix without entries, or with a negative entry, makes
    the constructor raise. *)
Theorem engine_matrix_is_nonempty_and_nonnegative :
  forall (spans_to_array : Doc -> list string -> dict nat -> set string ->
                           option (set string) -> result ndarray)
         (I : Interp) (docs : list Doc) (given : list string)
         (wanted : option (list string)) (strict : bool) (e : LFAnalysis),
    snd (__init__ spans_to_array I docs given wanted strict) = Ok e ->
    docs <> []
    /\ ravel (L e) <> []
    /\ (forall x, In x (ravel (L e)) -> 0 <= x)
    /\ List.length (label_row_indices e)
       = Z.to_nat (list_max (ravel (L e)) + 1).
Proof.
  intros sp I docs given wanted strict e H.
  destruct (init_fields sp I docs given wanted strict e H)
    as (Hc & _ & _ & _ & _ & _ & _ & Hlri & _).
  destruct (get_row_indices_inv _ _ Hlri) as [Hne Hpos].
  split.
  { intros ->. destruct (empty_corpus_rejected_any sp I given wanted strict) as [x Hx].
    congruence. }
  split; [exact Hne|]. split; [intros x Hx; apply Hpos; exact Hx|].
  revert Hlri. unfold _get_row_indices_with_labels, np_max.
  destruct (ravel (L e)) as [|x0 flat] eqn:Er; [contradiction Hne; reflexivity|].
  rewrite <- Er. cbn [bind]. unfold csr_from_coo.
  destruct (_ && _); cbn [bind]; [|discriminate].
  intros Hm. destruct (mapM_inv _ _ _ Hm) as [Hl _].
  rewrite Hl, length_map, length_seq. reflexivity.
Qed.

Lemma engine_matrix_is_nonempty_and_nonnegative_witness :
  [doc_a; doc_b] <> []
  /\ ravel (L demo_engine) <> []
  /\ (forall x, In x (ravel (L demo_engine)) -> 0 <= x)
  /\ List.length (label_row_indices demo_engine)
     = Z.to_nat (list_max (ravel (L demo_engine)) + 1).
Proof.
  apply (engine_matrix_is_nonempty_and_nonnegative spans_to_array_model slot_interp
           [doc_a; doc_b] ["O"; "PER"; "ORG"; "MISC"] (Some ["LF1"; "LF2"]) false
           demo_engine).
  reflexivity.
Defined.

Lemma resolver_wf_sources (I : Interp) (docs : list Doc)
      (wanted : option (list string)) (e : LFAnalysis) :
  sources e = fst (_get_corpus_sources I docs wanted) ->
  sources2idx e = snd (_get_corpus_sources I docs wanted) ->
  wf_sources e = true.
Proof.
  intros Hs Hi. destruct (resolver_spec I docs wanted) as [Hnd [_ Hidx]].
  rewrite <- Hs in Hnd, Hidx. rewrite <- Hi in Hidx.
  unfold wf_sources, no_repeat.
  rewrite (nodup_fixed_point string_dec Hnd).
  destruct (list_eq_dec string_dec (sources e) (sources e)); [|congruence].
  assert (Hk : dict_keys (sources2idx e) = sources e).
  { rewrite Hidx. unfold dict_keys, enumerate. rewrite map_map.
    cbn [swap_pair fst]. apply enumerate_from_snd. }
  assert (Hv : map snd (sources2idx e) = seq 0 (List.length (sources e))).
  { rewrite Hidx. unfold enumerate. rewrite map_map.
    cbn [swap_pair snd]. apply enumerate_from_fst. }
  destruct (list_eq_dec string_dec (dict_keys (sources2idx e)) (sources e));
    [|congruence].
  destruct (list_eq_dec Nat.eq_dec (map snd (sources2idx e))
                        (seq 0 (List.length (sources e)))); [|congruence].
  reflexivity.
Qed.

(** X16.  With a block builder that returns rectangles with one column per
    source and entries that are 0 or an index of [label2idx], every engine
    that [__init__] returns satisfies the invariants the metrics rely on:
    a non-empty rectangular matrix of label indices with one column per
    source, the label list headed by ["O"] without repetition, distinct
    sources indexed by column, and the row index computed from the matrix;
    the engine keeps the corpus and the matching mode it was given. *)
Theorem constructed_engine_is_well_formed :
  forall (spans_to_array : Doc -> list string -> dict nat -> set string ->
                           option (set string) -> result ndarray)
         (I : Interp) (docs : list Doc) (given : list string)
         (wanted : option (list string)) (strict : bool) (e : LFAnalysis),
    builder_contract spans_to_array ->
    snd (__init__ spans_to_array I docs given wanted strict) = Ok e ->
    wf_engine e = true
    /\ wf_sources e = true
    /\ corpus e = docs
    /\ strict_match e = strict
    /\ labels e = dict_keys (label2idx e)
    /\ shape0 (L e) <> 0%nat
    /\ shape1 (L e) = List.length (sources e).
Proof.
  intros sp I docs given wanted strict e Hc H.
  pose proof (init_wf_engine sp I docs given wanted strict e Hc H) as Hwf.
  destruct (init_fields sp I docs given wanted strict e H)
    as (H1 & H2 & H3 & H4 & H5 & H6 & _).
  destruct (wf_engine_facts e Hwf) as (_ & Hsize & _ & _ & Hcols & _).
  split; [exact Hwf|].
  split; [apply (resolver_wf_sources I docs wanted e H3 H4)|].
  split; [exact H1|]. split; [exact H2|].
  split.
  { rewrite H5, H6, token_level_labels_result.
    destruct (_index_labels _ _) as [[? ?] ?]. reflexivity. }
  split; [|exact Hcols].
  intros E. apply Hsize. unfold size. rewrite E. reflexivity.
Qed.

Lemma constructed_engine_is_well_formed_witness :
  wf_engine demo_engine = true
  /\ wf_sources demo_engine = true
  /\ corpus demo_engine = [doc_a; doc_b]
  /\ strict_match demo_engine = false
  /\ labels demo_engine = dict_keys (label2idx demo_engine)
  /\ shape0 (L demo_engine) <> 0%nat
  /\ shape1 (L demo_engine) = List.length (sources demo_engine).
Proof.
  apply (constructed_engine_is_well_formed spans_to_array_model slot_interp
           [doc_a; doc_b] ["O"; "PER"; "ORG"; "MISC"] (Some ["LF1"; "LF2"]) false
           demo_engine).
  - exact spans_to_array_model_contract.
  - reflexivity.
Defined.

Lemma constructed_engine_facts
      (spans_to_array : Doc -> list string -> dict nat -> set string ->
                        option (set string) -> result ndarray)
      (I : Interp) (docs : list Doc) (given : list string)
      (wanted : option (list string)) (strict : bool) (e : LFAnalysis) :
  builder_contract spans_to_array ->
  snd (__init__ spans_to_array I docs given wanted strict) = Ok e ->
  wf_engine e = true
  /\ sources e = fst (_get_corpus_sources I docs wanted)
  /\ shape1 (L e) = List.length (sources e).
Proof.
  intros Hc H.
  pose proof (init_wf_engine spans_to_array I docs given wanted strict e Hc H) as Hwf.
  destruct (init_fields spans_to_array I docs given wanted strict e H)
    as (_ & _ & H3 & _).
  destruct (wf_engine_facts e Hwf) as (_ & _ & _ & _ & Hcols & _).
  auto.
Qed.


(** X17.  With such a block builder, an explicit empty source list never
    yields an engine: the matrix has no column, hence no entry, and the
    constructor raises. *)
Theorem no_engine_without_sources :
  forall (spans_to_array : Doc -> list string -> dict nat -> set string ->
                           option (set string) -> result ndarray)
         (I : Interp) (docs : list Doc) (given : list string) (strict : bool),
    builder_contract spans_to_array ->
    exists x, snd (__init__ spans_to_array I docs given (Some []) strict) = Raise x.
Proof.
  intros sp I docs given strict Hc.
  destruct (snd (__init__ sp I docs given (Some []) strict)) as [e|x] eqn:E;
    [|now exists x].
  exfalso.
  destruct (constructed_engine_facts sp I docs given (Some []) strict e Hc E)
    as [Hwf [Hs Hcols]].
  destruct (wf_engine_facts e Hwf) as (_ & Hsize & _).
  apply Hsize. unfold size. rewrite Hcols, Hs.
  assert (Hnil : set_iter I [] = []).
  { apply Permutation_nil. apply Permutation_sym. apply (set_iter_perm I []). }
  cbn. rewrite Hnil. cbn. lia.
Qed.

Lemma no_engine_without_sources_witness :
  exists x,
    snd (__init__ spans_to_array_model slot_interp [doc_a] ["O"; "PER"]
           (Some []) false) = Raise x.
Proof.
  apply (no_engine_without_sources spans_to_array_model slot_interp [doc_a]
           ["O"; "PER"] false).
  exact spans_to_array_model_contract.
Defined.

(* ------------------------------------------------------------------ *)
(** ** Order of the rows of the per-label tables *)

Lemma nodup_map_inj_in {A B : Type} (f : A -> B) (l : list A) :
  (forall x y, In x l -> In y l -> f x = f y -> x = y) ->
  NoDup l -> NoDup (map f l).
Proof.
  induction l as [|x l IH]; intros Hinj Hnd; cbn; [constructor|].
  inversion Hnd as [|? ? Hx Hnd']; subst. constructor.
  - intros Hin. apply in_map_iff in Hin. destruct Hin as [y [E Hy]].
    assert (y = x) by (apply Hinj; [now right | now left | exact E]).
    subst. contradiction.
  - apply IH; [|exact Hnd']. intros a b Ha Hb. apply Hinj; now right.
Qed.

Lemma enumerate_filter_fst (keep : nat * list nat -> bool) (l : list (list nat))
      (s : nat) :
  map fst (filter keep (enumerate_from s l))
  = filter (fun v => keep (v, nth (v - s) l [])) (seq s (List.length l)).
Proof.
  revert s; induction l as [|x l IH]; intros s; [reflexivity|].
  cbn [enumerate_from filter List.length seq].
  assert (E : filter (fun v => keep (v, nth (v - s) (x :: l) [])) (seq (S s) (List.length l))
              = filter (fun v => keep (v, nth (v - S s) l [])) (seq (S s) (List.length l))).
  { apply filter_ext_in. intros v Hv. apply in_seq in Hv.
    replace (v - s)%nat with (S (v - S s)) by lia. reflexivity. }
  rewrite E, Nat.sub_diag. cbn [nth].
  destruct (keep (s, x)); cbn [map fst]; rewrite IH; reflexivity.
Qed.

(** The loop of the per-label tables, with the keys in the order in which
    they are added. *)
Lemma per_label_loop_keys (lbls : list string)
      (body : nat -> list nat -> result (list cell))
      (items : list (nat * list nat)) :
  (forall p, In p items -> (fst p < List.length lbls)%nat) ->
  (forall p, In p items -> snd p <> [] ->
             exists row, body (fst p) (snd p) = Ok row) ->
  forall acc : dict (list cell),
    NoDup (dict_keys acc ++ map (fun p => nth (fst p) lbls "") items) ->
    exists d,
      foldM (fun (result : dict (list cell)) (p : nat * list nat) =>
               let '(label_idx, indices) := p in
               label <- list_getitem lbls label_idx ;;
               if String.eqb label "O" || Nat.eqb (List.length indices) 0
               then Ok result
               else row <- body label_idx indices ;;
                    Ok (dict_set result label row))
            items acc = Ok d
      /\ dict_keys d
         = dict_keys acc
           ++ map (fun p => nth (fst p) lbls "")
                  (filter (fun p => negb (String.eqb (nth (fst p) lbls "") "O"
                                          || Nat.eqb (List.length (snd p)) 0))
                          items).
Proof.
  induction items as [|[v idx] items IH]; intros Hlt Hbody acc Hnd.
  - exists acc. cbn. now rewrite app_nil_r.
  - assert (Hv : (v < List.length lbls)%nat) by (apply (Hlt (v, idx)); now left).
    cbn [foldM filter fst snd]. unfold list_getitem at 1.
    rewrite (nth_error_nth' lbls "" Hv). cbn [bind].
    cbn [map fst] in Hnd.
    assert (Hfresh : ~ In (nth v lbls "") (dict_keys acc)).
    { apply NoDup_remove_2 in Hnd. intros H. apply Hnd. apply in_or_app. now left. }
    assert (Hnd' : NoDup (dict_keys acc ++ map (fun p => nth (fst p) lbls "") items))
      by (apply NoDup_remove_1 in Hnd; exact Hnd).
    destruct (String.eqb (nth v lbls "") "O" || Nat.eqb (List.length idx) 0) eqn:E;
      cbn [negb].
    + apply IH; auto; intros p Hp; [apply Hlt | apply Hbody]; now right.
    + destruct (Hbody (v, idx) (or_introl eq_refl)) as [row Hrow].
      { cbn. apply orb_false_iff in E. destruct E as [_ E].
        intros ->. discriminate. }
      cbn in Hrow. rewrite Hrow. cbn [bind].
      destruct (IH (fun p Hp => Hlt p (or_intror Hp))
                   (fun p Hp => Hbody p (or_intror Hp))
                   (dict_set acc (nth v lbls "") row)) as [d [Hd Hk]].
      { rewrite (dict_set_fresh _ _ _ Hfresh). unfold dict_keys in *.
        rewrite map_app. cbn [map fst]. rewrite <- app_assoc. exact Hnd. }
      exists d. split; [exact Hd|]. rewrite Hk.
      rewrite (dict_set_fresh _ _ _ Hfresh). unfold dict_keys.
      rewrite map_app. cbn [map fst]. rewrite <- app_assoc. reflexivity.
Qed.

Lemma filter_nil_in {A : Type} (p : A -> bool) (l : list A) :
  (forall x, In x l -> p x = false) -> filter p l = [].
Proof.
  induction l as [|x l IH]; intros H; [reflexivity|]. cbn.
  rewrite (H x (or_introl eq_refl)). apply IH. intros y Hy. apply H. now right.
Qed.

(** A selection of positions of a list without repetition, taken in
    increasing order, is the list filtered by membership in the selection. *)
Lemma selection_in_list_order (lbls : list string) (m : nat) (sel : nat -> bool) :
  NoDup lbls -> (m <= List.length lbls)%nat ->
  let ks := map (fun v => nth v lbls "") (filter sel (seq 0 m)) in
  NoDup ks /\ ks = filter (fun l => list_mem l ks) lbls.
Proof.
  intros Hnd Hm ks.
  assert (Hinj : forall i j, (i < List.length lbls)%nat -> (j < List.length lbls)%nat ->
                             nth i lbls "" = nth j lbls "" -> i = j)
    by (apply NoDup_nth; exact Hnd).
  split.
  - apply nodup_map_inj_in.
    + intros x y Hx Hy. apply filter_In in Hx, Hy.
      destruct Hx as [Hx _], Hy as [Hy _]. apply in_seq in Hx, Hy.
      apply Hinj; lia.
    + apply NoDup_filter, seq_NoDup.
  - transitivity (filter (fun l => list_mem l ks)
                         (map (fun v => nth v lbls "") (seq 0 (List.length lbls))));
      [|now rewrite map_nth_seq].
    rewrite filter_map_swap. unfold ks at 1. f_equal.
    assert (Hmem : forall a, (a < List.length lbls)%nat ->
              list_mem (nth a lbls "") ks = true -> (a < m)%nat /\ sel a = true).
    { intros a Ha Hin. apply list_mem_In in Hin. unfold ks in Hin.
      apply in_map_iff in Hin. destruct Hin as [w [Ew Hw]].
      apply filter_In in Hw. destruct Hw as [Hw Hs]. apply in_seq in Hw.
      assert (w = a) by (apply Hinj; [lia | exact Ha | exact Ew]).
      subst w. split; [lia | exact Hs]. }
    replace (seq 0 (List.length lbls))
      with (seq 0 m ++ seq m (List.length lbls - m))
      by (rewrite <- seq_app; f_equal; lia).
    rewrite filter_app.
    assert (H2 : filter (fun a => list_mem (nth a lbls "") ks)
                        (seq m (List.length lbls - m)) = []).
    { apply filter_nil_in. intros a Ha. apply in_seq in Ha.
      apply not_true_is_false. intros Ht.
      destruct (Hmem a ltac:(lia) Ht). lia. }
    rewrite H2, app_nil_r.
    apply filter_ext_in. intros v Hv. apply in_seq in Hv.
    destruct (sel v) eqn:Es.
    + symmetry. apply list_mem_In. unfold ks. apply in_map_iff. exists v.
      split; [reflexivity|]. apply filter_In. split; [apply in_seq; lia | exact Es].
    + symmetry. apply not_true_is_false. intros Ht.
      destruct (Hmem v ltac:(lia) Ht) as [_ Hs]. congruence.
Qed.

Lemma per_label_table_order (self : LFAnalysis)
      (body : nat -> list nat -> result (list cell)) (columns : list string) :
  wf_engine self = true ->
  (forall v idx, nth_error (label_row_indices self) v = Some idx -> idx <> [] ->
                 exists row, body v idx = Ok row
                             /\ List.length row = List.length columns) ->
  rows_in_label_order self (result <- per_label_rows self body ;;
                            DataFrame_from_dict result columns).
Proof.
  intros Hwf Hbody.
  destruct (per_label_table self body columns Hwf Hbody) as [df [Hdf _]].
  destruct (wf_engine_facts self Hwf) as (_ & _ & _ & _ & _ & _ & Hnd & _).
  set (lbls := labels self) in *.
  set (m := List.length (label_row_indices self)).
  assert (Hm : (m <= List.length lbls)%nat).
  { destruct (Nat.le_gt_cases m (List.length lbls)) as [H|H]; [exact H|].
    destruct (engine_index_has_label self (List.length lbls) Hwf H) as [l Hl].
    assert ((List.length lbls < List.length lbls)%nat)
      by (apply nth_error_Some; unfold lbls in *; congruence). lia. }
  assert (Hinj : forall i j, (i < List.length lbls)%nat -> (j < List.length lbls)%nat ->
                             nth i lbls "" = nth j lbls "" -> i = j)
    by (apply NoDup_nth; exact Hnd).
  destruct (per_label_loop_keys lbls body (enumerate (label_row_indices self)))
    with (acc := @nil (string * list cell)) as [d [Hd Hk]].
  - intros [v idx] Hp. apply in_enumerate in Hp. cbn [fst].
    assert ((v < m)%nat) by (apply nth_error_Some; congruence). lia.
  - intros [v idx] Hp Hne. apply in_enumerate in Hp. cbn [fst snd] in *.
    destruct (Hbody v idx Hp Hne) as [row [Hr _]]. now exists row.
  - cbn [dict_keys map app].
    rewrite <- (map_map fst (fun v => nth v lbls "")).
    unfold enumerate. rewrite enumerate_from_fst.
    apply nodup_map_inj_in; [|apply seq_NoDup].
    intros x y Hx Hy. apply in_seq in Hx, Hy. apply Hinj; fold m in Hx, Hy; lia.
  - unfold per_label_rows in Hdf. fold lbls in Hdf. rewrite Hd in Hdf.
    cbn [bind] in Hdf.
    exists df. split.
    { unfold per_label_rows. fold lbls. rewrite Hd. exact Hdf. }
    rewrite (row_labels_from_dict _ _ _ Hdf), Hk. cbn [dict_keys map app].
    rewrite <- (map_map fst (fun v => nth v lbls "")).
    unfold enumerate. rewrite enumerate_filter_fst. fold m.
    apply (selection_in_list_order lbls m _ Hnd Hm).
Qed.

(** X18.  On an engine, the row keys of each of the five per-label tables
    are distinct and follow the order of the label list: the table lists
    the labels it reports in increasing label index. *)
Theorem per_label_tables_row_order :
  forall self : LFAnalysis,
    wf_engine self = true ->
    rows_in_label_order self (label_overlap self)
    /\ rows_in_label_order self (label_conflict self)
    /\ rows_in_label_order self (lf_coverages self false)
    /\ rows_in_label_order self (lf_overlaps self false)
    /\ rows_in_label_order self (lf_conflicts self false).
Proof.
  intros self Hwf.
  destruct (wf_engine_facts self Hwf) as (_ & _ & _ & Hsp & Hcols & _).
  assert (Hov : List.length (_overlapped_data_points self) = shape0 (L self)).
  { rewrite overlapped_data_points_eq, Hsp. unfold shape0. apply length_map. }
  assert (Hcf : List.length (map row_conflict (data (L self))) = shape0 (L self))
    by (unfold shape0; apply length_map).
  repeat split.
  - unfold label_overlap. apply per_label_table_order; [exact Hwf|].
    intros v idx Hv _. apply (fraction_body_ok self _ v idx Hwf Hov Hv).
  - unfold label_conflict. rewrite (conflicted_on_engine self Hwf). cbn [bind].
    apply per_label_table_order; [exact Hwf|].
    intros v idx Hv _. apply (fraction_body_ok self _ v idx Hwf Hcf Hv).
  - unfold lf_coverages. apply per_label_table_order; [exact Hwf|].
    intros v idx Hv _. eexists. split; [reflexivity|].
    unfold _covered_by_label_counts.
    rewrite length_map, length_sum_axis0, Hsp. exact Hcols.
  - unfold lf_overlaps. apply per_label_table_order; [exact Hwf|].
    intros v idx Hv _. apply (ratio_body_ok self _ v idx Hwf Hov Hv).
  - unfold lf_conflicts. rewrite (conflicted_on_engine self Hwf). cbn [bind].
    apply per_label_table_order; [exact Hwf|].
    intros v idx Hv _. apply (ratio_body_ok self _ v idx Hwf Hcf Hv).
Qed.

Lemma per_label_tables_row_order_witness :
  rows_in_label_order demo_engine (label_overlap demo_engine)
  /\ rows_in_label_order demo_engine (label_conflict demo_engine)
  /\ rows_in_label_order demo_engine (lf_coverages demo_engine false)
  /\ rows_in_label_order demo_engine (lf_overlaps demo_engine false)
  /\ rows_in_label_order demo_engine (lf_conflicts demo_engine false).
Proof.
  apply (per_label_tables_row_order demo_engine).
  vm_compute. reflexivity.
Defined.
